(** * The AP firmware updater (futility/updater.c): update decision engine

    A shallow embedding of the updater of vboot's [futility] and the
    verification of its specification.  Images are byte buffers with an FMAP
    index, C integers are [Z] with the conversions written out, and the code
    that touches the host (flashrom, crossystem, temporary files, cbfstool)
    runs in a state monad over the updater configuration and a world that
    records every external call. *)

From Stdlib Require Import ZArith List String Lia Bool.
From Stdlib Require Strings.Byte.
From Stdlib Require Import Ascii.
From stdpp Require Import base option list strings pretty functions gmap.

Local Open Scope Z_scope.

Abbreviation byte := Init.Byte.byte.

(** ** C integers *)

Module CInt.

(** Conversion to [int] (32 bits, two's complement). *)
Definition to_int (z : Z) : Z := (z + 2 ^ 31) mod 2 ^ 32 - 2 ^ 31.

(** Conversion to [unsigned int] / [uint32_t]. *)
Definition to_u32 (z : Z) : Z := z mod 2 ^ 32.

(** Conversion to [size_t] (64 bits on the hosts futility is built for). *)
Definition to_size_t (z : Z) : Z := z mod 2 ^ 64.

Definition int_range (z : Z) : Prop := - 2 ^ 31 <= z < 2 ^ 31.
Definition u32_range (z : Z) : Prop := 0 <= z < 2 ^ 32.

End CInt.

(** ** Byte buffers

    A buffer is a [list byte].  An access that runs past the end of the
    buffer has no defined behaviour in C; here a read sees only the bytes
    that exist and a write is clipped to the buffer, so that every function
    below is total and a buffer never changes its length. *)

Module Mem.

Definition byte_val (b : byte) : Z := Z.of_N (Byte.to_N b).

Definition byte_of_Z (z : Z) : byte :=
  match Byte.of_N (Z.to_N (z mod 256)) with
  | Some b => b
  | None => Byte.x00
  end.

(** Little-endian decoding and encoding (the host is little-endian and the
    structures of vboot are stored in host order). *)
Fixpoint le_combine (bs : list byte) : Z :=
  match bs with
  | [] => 0
  | b :: bs' => byte_val b + 256 * le_combine bs'
  end.

Fixpoint le_split (n : nat) (v : Z) : list byte :=
  match n with
  | O => []
  | S n' => byte_of_Z v :: le_split n' (v / 256)
  end.

(** [memcpy]/[memmove]/[memset] into [d] at offset [off]. *)
Definition write_bytes (d : list byte) (off : nat) (bs : list byte) : list byte :=
  take off d ++ take (length d - off) bs ++ drop (off + length bs) d.

(** The [n] bytes of [d] from offset [off]. *)
Definition read_bytes (d : list byte) (off n : nat) : list byte :=
  take n (drop off d).

Definition read_u32 (d : list byte) (off : nat) : Z :=
  le_combine (read_bytes d off 4).

Definition write_u32 (d : list byte) (off : nat) (v : Z) : list byte :=
  write_bytes d off (le_split 4 v).

(** [strlen]: the number of bytes before the first NUL. *)
Fixpoint strlen (bs : list byte) : nat :=
  match bs with
  | [] => O
  | b :: bs' => if Byte.eqb b Byte.x00 then O else S (strlen bs')
  end.

(** [memcmp]: zero iff the buffers agree; otherwise the difference of the
    first pair of bytes that differ (C fixes only its sign). *)
Fixpoint memcmp (a b : list byte) : Z :=
  match a, b with
  | x :: a', y :: b' =>
      if Byte.eqb x y then memcmp a' b' else byte_val x - byte_val y
  | _, _ => 0
  end.

End Mem.

(** ** The data model of updater.h *)

(* FMAP section names. *)
Definition FMAP_RO_FRID : string := "RO_FRID".
Definition FMAP_RO_SECTION : string := "RO_SECTION".
Definition FMAP_RO_GBB : string := "GBB".
Definition FMAP_RO_PRESERVE : string := "RO_PRESERVE".
Definition FMAP_RO_VPD : string := "RO_VPD".
Definition FMAP_RW_VPD : string := "RW_VPD".
Definition FMAP_RW_VBLOCK_A : string := "VBLOCK_A".
Definition FMAP_RW_SECTION_A : string := "RW_SECTION_A".
Definition FMAP_RW_SECTION_B : string := "RW_SECTION_B".
Definition FMAP_RW_FWID : string := "RW_FWID".
Definition FMAP_RW_FWID_A : string := "RW_FWID_A".
Definition FMAP_RW_FWID_B : string := "RW_FWID_B".
Definition FMAP_RW_SHARED : string := "RW_SHARED".
Definition FMAP_RW_NVRAM : string := "RW_NVRAM".
Definition FMAP_RW_ELOG : string := "RW_ELOG".
Definition FMAP_RW_PRESERVE : string := "RW_PRESERVE".
Definition FMAP_RW_LEGACY : string := "RW_LEGACY".
Definition FMAP_RW_SMMSTORE : string := "SMMSTORE".
Definition FMAP_SI_DESC : string := "SI_DESC".
Definition FMAP_SI_ME : string := "SI_ME".

(* System environment values and flashrom programmers. *)
Definition FWACT_A : string := "A".
Definition FWACT_B : string := "B".
Definition PROG_HOST : string := "host".
Definition PROG_EC : string := "ec".
Definition PROG_PD : string := "ec:dev=1".

(* enum wp_state *)
Definition WP_DISABLED : Z := 0.
Definition WP_ENABLED : Z := 1.

(* enum active_slot *)
Definition SLOT_UNKNOWN : Z := -1.
Definition SLOT_A : Z := 0.
Definition SLOT_B : Z := 1.

Inductive target_type := TARGET_SELF | TARGET_UPDATE.

Inductive flashrom_ops := FLASHROM_READ | FLASHROM_WRITE | FLASHROM_WP_STATUS.

Inductive system_property_type :=
| SYS_PROP_MAINFW_ACT
| SYS_PROP_TPM_FWVER
| SYS_PROP_FW_VBOOT2
| SYS_PROP_PLATFORM_VER
| SYS_PROP_WP_HW
| SYS_PROP_WP_SW.

Inductive quirk_types :=
| QUIRK_ENLARGE_IMAGE
| QUIRK_MIN_PLATFORM_VERSION
| QUIRK_UNLOCK_ME_FOR_UPDATE
| QUIRK_DAISY_SNOW_DUAL_MODEL
| QUIRK_EVE_SMM_STORE.

Inductive updater_error_codes :=
| UPDATE_ERR_DONE
| UPDATE_ERR_NEED_RO_UPDATE
| UPDATE_ERR_NO_IMAGE
| UPDATE_ERR_SYSTEM_IMAGE
| UPDATE_ERR_INVALID_IMAGE
| UPDATE_ERR_SET_COOKIES
| UPDATE_ERR_WRITE_FIRMWARE
| UPDATE_ERR_PLATFORM
| UPDATE_ERR_TARGET
| UPDATE_ERR_ROOT_KEY
| UPDATE_ERR_TPM_ROLLBACK
| UPDATE_ERR_UNKNOWN.

#[global] Instance system_property_type_eq_dec : EqDecision system_property_type.
Proof. solve_decision. Defined.

#[global] Instance quirk_types_eq_dec : EqDecision quirk_types.
Proof. solve_decision. Defined.

#[global] Instance updater_error_codes_eq_dec : EqDecision updater_error_codes.
Proof. solve_decision. Defined.

#[global] Instance target_type_eq_dec : EqDecision target_type.
Proof. solve_decision. Defined.

(** One area of the FMAP index: a named [(offset, size)] range. *)
Record fmap_area := {
  area_name : string;
  area_offset : nat;
  area_size : nat;
}.

(** [struct firmware_image].  [data = None] is the NULL buffer of an image
    that was never loaded, [size] is the length of the buffer, and
    [fmap_header] is the FMAP found in the buffer, as the index of its areas
    ([None] when the image has no FMAP). *)
Record firmware_image := {
  programmer : string;
  data : option (list byte);
  file_name : string;
  ro_version : string;
  rw_version_a : string;
  rw_version_b : string;
  fmap_header : option (list fmap_area);
}.

Definition image_bytes (image : firmware_image) : list byte :=
  default [] (data image).

Definition image_size (image : firmware_image) : nat :=
  length (image_bytes image).

Definition set_image_data (image : firmware_image) (d : list byte) : firmware_image :=
  {| programmer := programmer image;
     data := Some d;
     file_name := file_name image;
     ro_version := ro_version image;
     rw_version_a := rw_version_a image;
     rw_version_b := rw_version_b image;
     fmap_header := fmap_header image |}.

(** [struct firmware_section]: a pointer into the image buffer, kept as the
    offset from the start of the buffer, and a size.  The NULL section that
    [find_firmware_section] leaves behind on failure is [None]. *)
Record firmware_section := {
  sec_offset : nat;
  sec_size : nat;
}.

Definition section_size (s : option firmware_section) : nat :=
  match s with Some s => sec_size s | None => O end.

(** The bytes a section covers. *)
Definition section_bytes (image : firmware_image) (s : option firmware_section) : list byte :=
  match s with
  | Some s => Mem.read_bytes (image_bytes image) (sec_offset s) (sec_size s)
  | None => []
  end.

(** Modelled from the spec: [fmap_find_by_name] (fmap.c is not part of the
    sources at hand).  The FMAP parser looks a section up by name and returns
    its [(offset, size)]; the first area of that name is the answer, and an
    image without buffer or without FMAP has no sections. *)
Fixpoint fmap_lookup (areas : list fmap_area) (name : string) : option fmap_area :=
  match areas with
  | [] => None
  | a :: areas' =>
      if String.eqb (area_name a) name then Some a else fmap_lookup areas' name
  end.

Definition fmap_find_by_name (image : firmware_image) (name : string) : option fmap_area :=
  match data image, fmap_header image with
  | Some _, Some areas => fmap_lookup areas name
  | _, _ => None
  end.

(** [find_firmware_section]: [Some] section when the function returns 0. *)
Definition find_firmware_section (image : firmware_image) (section_name : string)
  : option firmware_section :=
  match fmap_find_by_name image section_name with
  | None => None
  | Some fah => Some {| sec_offset := area_offset fah; sec_size := area_size fah |}
  end.

Definition firmware_section_exists (image : firmware_image) (section_name : string) : bool :=
  match find_firmware_section image section_name with
  | Some _ => true
  | None => false
  end.

(** [section_is_filled_with] *)
Definition section_is_filled_with (bytes : list byte) (size : nat) (c : byte) : bool :=
  if Nat.eqb size 0 then false
  else forallb (fun b => Byte.eqb b c) (take size bytes).

(** The invariant of the image model: every area of the index lies inside the
    buffer and has a 32-bit size. *)
Definition area_in_bounds (image : firmware_image) (a : fmap_area) : Prop :=
  (area_offset a + area_size a <= image_size image)%nat /\
  Z.of_nat (area_size a) < 2 ^ 32.

Definition wf_image (image : firmware_image) : Prop :=
  forall areas, fmap_header image = Some areas ->
    Forall (area_in_bounds image) areas.

(** [struct system_property]: the getter reads the running system. *)
Record host := {
  (* VbGetSystemPropertyString("mainfw_act"); None when the call fails *)
  crossystem_mainfw_act : option string;
  (* VbGetSystemPropertyInt(name) *)
  crossystem_int : string -> Z;
  (* the revision host_get_platform_version parses from `mosys platform
     version`, -1 when the output is not of the form revN *)
  mosys_platform_version : Z;
  (* what `flashrom --wp-status` on the host programmer is decoded to by
     host_flashrom: WP_ENABLED, WP_DISABLED or -1 *)
  flashrom_wp_status : Z;
}.

Record system_property := {
  getter : host -> Z;
  value : Z;
  initialized : Z;
}.

Record quirk_entry := {
  quirk_name : string;
  quirk_help : option string;
  quirk_value : Z;
}.

(** [struct updater_config].  The [apply] pointers of the quirk table are
    kept outside the record (see [quirk_apply] below); the archive handle is
    only used while the images are loaded. *)
Record updater_config := {
  image : firmware_image;
  image_current : firmware_image;
  ec_image : firmware_image;
  pd_image : firmware_image;
  system_properties : system_property_type -> system_property;
  quirks : quirk_types -> quirk_entry;
  tempfiles : list string;
  try_update : Z;
  force_update : Z;
  legacy_update : Z;
  verbosity : Z;
  emulation : option string;
}.

(** ** The world outside the updater *)

(** What the updater does to the outside, in the order it happens. *)
Inductive event :=
(* a property getter was invoked *)
| EvGetter (p : system_property_type)
(* mkstemp, with the path it produced *)
| EvTempFile (path : option string)
(* vb2_write_file *)
| EvWriteFile (path : string) (ok : bool)
(* system("flashrom ...") *)
| EvFlashrom (op : flashrom_ops) (image_path prog : string)
    (section_name : option string) (status : Z)
(* the line write_firmware prints before an emulated write *)
| EvEmulation (section_name : option string)
(* write_firmware returned: programmer, section, return value *)
| EvWriteFirmware (prog : string) (section_name : option string) (status : Z)
(* system("cbfstool ... | grep -q ...") *)
| EvCbfstool (image_file section_name entry : string) (status : Z)
(* VbSetSystemPropertyInt / VbSetSystemPropertyString *)
| EvSetPropertyInt (name : string) (v : Z) (status : Z)
| EvSetPropertyString (name v : string) (status : Z).

Record world := {
  w_host : host;
  w_files : gmap string (list byte);
  w_trace : list event;
}.

(** The state of a run: the configuration, the world, and the global
    [debugging_enabled]. *)
Record state := {
  st_cfg : updater_config;
  st_world : world;
  debugging_enabled : Z;
}.

Definition log (e : event) (w : world) : world :=
  {| w_host := w_host w; w_files := w_files w; w_trace := w_trace w ++ [e] |}.

Definition put_file (path : string) (d : list byte) (w : world) : world :=
  {| w_host := w_host w; w_files := <[path := d]> (w_files w);
     w_trace := w_trace w |}.

(** The state monad of the updater. *)
Definition M (A : Type) : Type := state -> A * state.

#[global] Instance M_ret : MRet M := fun A a s => (a, s).
#[global] Instance M_bind : MBind M :=
  fun A B f m s => let '(a, s') := m s in f a s'.

Definition get_cfg : M updater_config := fun s => (st_cfg s, s).
Definition get_world : M world := fun s => (st_world s, s).
Definition modify_cfg (f : updater_config -> updater_config) : M unit :=
  fun s => (tt, {| st_cfg := f (st_cfg s); st_world := st_world s;
                  debugging_enabled := debugging_enabled s |}).
Definition modify_world (f : world -> world) : M unit :=
  fun s => (tt, {| st_cfg := st_cfg s; st_world := f (st_world s);
                  debugging_enabled := debugging_enabled s |}).
Definition emit (e : event) : M unit := modify_world (log e).

(** Field updates of the configuration. *)
Definition set_system_properties (f : system_property_type -> system_property)
    (c : updater_config) : updater_config :=
  {| image := image c; image_current := image_current c;
     ec_image := ec_image c; pd_image := pd_image c;
     system_properties := f; quirks := quirks c; tempfiles := tempfiles c;
     try_update := try_update c; force_update := force_update c;
     legacy_update := legacy_update c; verbosity := verbosity c;
     emulation := emulation c |}.

Definition set_tempfiles (t : list string) (c : updater_config) : updater_config :=
  {| image := image c; image_current := image_current c;
     ec_image := ec_image c; pd_image := pd_image c;
     system_properties := system_properties c; quirks := quirks c;
     tempfiles := t;
     try_update := try_update c; force_update := force_update c;
     legacy_update := legacy_update c; verbosity := verbosity c;
     emulation := emulation c |}.

Definition set_emulation (e : option string) (c : updater_config) : updater_config :=
  {| image := image c; image_current := image_current c;
     ec_image := ec_image c; pd_image := pd_image c;
     system_properties := system_properties c; quirks := quirks c;
     tempfiles := tempfiles c;
     try_update := try_update c; force_update := force_update c;
     legacy_update := legacy_update c; verbosity := verbosity c;
     emulation := e |}.

(** The images of the configuration are passed around by pointer
    ([&cfg->image], [&cfg->image_current], ...). *)
Inductive image_ref := IMAGE | IMAGE_CURRENT | EC_IMAGE | PD_IMAGE.

Definition get_image (r : image_ref) (c : updater_config) : firmware_image :=
  match r with
  | IMAGE => image c
  | IMAGE_CURRENT => image_current c
  | EC_IMAGE => ec_image c
  | PD_IMAGE => pd_image c
  end.

Definition set_image (r : image_ref) (i : firmware_image) (c : updater_config)
  : updater_config :=
  {| image := match r with IMAGE => i | _ => image c end;
     image_current := match r with IMAGE_CURRENT => i | _ => image_current c end;
     ec_image := match r with EC_IMAGE => i | _ => ec_image c end;
     pd_image := match r with PD_IMAGE => i | _ => pd_image c end;
     system_properties := system_properties c; quirks := quirks c;
     tempfiles := tempfiles c;
     try_update := try_update c; force_update := force_update c;
     legacy_update := legacy_update c; verbosity := verbosity c;
     emulation := emulation c |}.

(** ** System properties *)

Definition host_get_mainfw_act (h : host) : Z :=
  match crossystem_mainfw_act h with
  | None => SLOT_UNKNOWN
  | Some buf =>
      if String.eqb buf FWACT_A then SLOT_A
      else if String.eqb buf FWACT_B then SLOT_B
      else SLOT_UNKNOWN
  end.

Definition host_get_tpm_fwver (h : host) : Z := crossystem_int h "tpm_fwver".

Definition host_get_wp_hw (h : host) : Z :=
  let v := crossystem_int h "wpsw_cur" in
  if v <? 0 then crossystem_int h "wpsw_boot" else v.

Definition host_get_fw_vboot2 (h : host) : Z := crossystem_int h "fw_vboot2".

Definition host_get_platform_version (h : host) : Z := mosys_platform_version h.

Definition host_get_wp_sw (h : host) : Z := flashrom_wp_status h.

(** [get_system_property]: if the property was not loaded yet, invoke the
    getter and cache the result. *)
Definition get_system_property (property_type : system_property_type) : M Z :=
  c ← get_cfg;
  let prop := system_properties c property_type in
  if decide (initialized prop = 0) then
    w ← get_world;
    emit (EvGetter property_type);;
    let v := getter prop (w_host w) in
    modify_cfg (set_system_properties
      (<[property_type := {| getter := getter prop; value := v;
                             initialized := 1 |}]> (system_properties c)));;
    mret v
  else mret (value prop).

(** [override_system_property] *)
Definition override_system_property (property_type : system_property_type)
    (v : Z) : M unit :=
  c ← get_cfg;
  let prop := system_properties c property_type in
  modify_cfg (set_system_properties
    (<[property_type := {| getter := getter prop; value := v;
                           initialized := 1 |}]> (system_properties c))).

(** [decide_rw_target]: [None] is the NULL section name. *)
Definition decide_rw_target (target : target_type) (is_vboot2 : Z) : M (option string) :=
  let a := FMAP_RW_SECTION_A in
  let b := FMAP_RW_SECTION_B in
  slot ← get_system_property SYS_PROP_MAINFW_ACT;
  if decide (is_vboot2 = 0) then
    mret (Some (if decide (target = TARGET_UPDATE) then b else a))
  else if decide (slot = SLOT_A) then
    mret (Some (if decide (target = TARGET_UPDATE) then b else a))
  else if decide (slot = SLOT_B) then
    mret (Some (if decide (target = TARGET_UPDATE) then a else b))
  else mret None.

(** [is_write_protection_enabled] *)
Definition is_write_protection_enabled : M Z :=
  wp ← get_system_property SYS_PROP_WP_HW;
  if decide (wp = WP_DISABLED) then mret wp
  else
    wp ← get_system_property SYS_PROP_WP_SW;
    if decide (wp <> WP_DISABLED) then mret WP_ENABLED
    else mret wp.

(** ** What the updater links against

    The structures of vb2_struct.h, the FMAP, GBB and key routines of the
    vboot library and the tools the updater runs are not part of the sources
    at hand.  The updater is verified for every layout, every library and
    every environment. *)

(** Sizes and field offsets of the vboot structures the updater overlays on
    image bytes. *)
Class vb2_struct := {
  sizeof_vb2_keyblock : nat;
  sizeof_vb2_fw_preamble : nat;
  (* offsetof(struct vb2_keyblock, keyblock_size) *)
  keyblock_size_offset : nat;
  (* offsetof(struct vb2_keyblock, keyblock_signature.sig_size) *)
  keyblock_sig_size_offset : nat;
  (* offsetof(struct vb2_keyblock, data_key.key_version) *)
  keyblock_key_version_offset : nat;
  (* offsetof(struct vb2_fw_preamble, firmware_version) *)
  preamble_firmware_version_offset : nat;
  (* offsetof(struct vb2_gbb_header, flags), ... *)
  gbb_flags_offset : nat;
  gbb_hwid_offset_offset : nat;
  gbb_hwid_size_offset : nat;
  gbb_rootkey_offset_offset : nat;
  gbb_rootkey_size_offset : nat;
}.

(** The routines of the vboot library, as functions of the bytes they are
    pointed at. *)
Class vboot_lib := {
  (* fmap_find: the FMAP of a buffer, as the index of its areas *)
  fmap_find : list byte -> option (list fmap_area);
  (* futil_valid_gbb_header, on the bytes of the GBB section *)
  futil_valid_gbb_header : list byte -> bool;
  (* packed_key_looks_ok, on the bytes from the key on and the size given *)
  packed_key_looks_ok : list byte -> Z -> bool;
  (* vb2_unpack_key succeeds on the bytes from the packed key on *)
  vb2_unpack_key : list byte -> bool;
  (* vb2_verify_keyblock succeeds: the copy of the key block, the size
     passed, the bytes of the signing key *)
  vb2_verify_keyblock : list byte -> Z -> list byte -> bool;
  (* cbfstool FILE print -r SECTION | grep -q '^ENTRY ' succeeds on a file
     of these contents *)
  cbfstool_has_entry : list byte -> string -> string -> bool;
}.

(** The answers of the host, each a function of everything that happened
    before. *)
Class environment := {
  (* mkstemp: the path of the new file, None on failure *)
  env_mkstemp : world -> option string;
  (* vb2_write_file succeeds *)
  env_write_file : world -> string -> list byte -> bool;
  (* exit status of system("flashrom -r|-w path -p programmer [-i section]") *)
  env_flashrom : world -> flashrom_ops -> string -> string -> option string -> Z;
  (* what a successful flashrom read of the programmer stores *)
  env_flash_contents : world -> string -> list byte;
  (* VbSetSystemPropertyInt / VbSetSystemPropertyString *)
  env_set_property_int : world -> string -> Z -> Z;
  env_set_property_string : world -> string -> string -> Z;
}.

(** The [apply] pointers of [cfg->quirks], as registered by
    updater_register_quirks; [None] is a NULL pointer. *)
Class quirk_table := quirk_apply : quirk_types -> option (M Z).

(** ** C strings *)

(** [strncmp] on strings without embedded NUL: the end of a string compares
    as the NUL that terminates it. *)
Fixpoint strncmp (s1 s2 : string) (n : nat) : Z :=
  match n with
  | O => 0
  | S n' =>
      match s1, s2 with
      | EmptyString, EmptyString => 0
      | EmptyString, String c _ => - Z.of_N (Ascii.N_of_ascii c)
      | String c _, EmptyString => Z.of_N (Ascii.N_of_ascii c)
      | String c1 r1, String c2 r2 =>
          if Ascii.eqb c1 c2 then strncmp r1 r2 n'
          else Z.of_N (Ascii.N_of_ascii c1) - Z.of_N (Ascii.N_of_ascii c2)
      end
  end.

(** [strchr(s, '.')], as the index of the first dot. *)
Definition strchr_dot (s : string) : option nat := String.index 0 "." s.

(** [strndup(data, size)] of a section: the bytes before the first NUL. *)
Definition strndup (bs : list byte) : string :=
  string_of_list_byte (take (Mem.strlen bs) bs).

(** ** The updater *)

Section Updater.

Context {L : vb2_struct} {V : vboot_lib} {E : environment} {Q : quirk_table}.

(** *** Files and flashrom *)

(** [updater_create_temp_file]: the path of the new file, [None] (NULL) on
    failure.  Allocation always succeeds. *)
Definition updater_create_temp_file : M (option string) :=
  w ← get_world;
  let r := env_mkstemp w in
  emit (EvTempFile r);;
  match r with
  | None => mret None
  | Some new_path =>
      modify_world (put_file new_path []);;
      c ← get_cfg;
      modify_cfg (set_tempfiles (new_path :: tempfiles c));;
      mret (Some new_path)
  end.

(** [vb2_write_file]: [true] for VB2_SUCCESS. *)
Definition vb2_write_file (path : string) (d : list byte) : M bool :=
  w ← get_world;
  let ok := env_write_file w path d in
  emit (EvWriteFile path ok);;
  (if ok then modify_world (put_file path d) else mret tt);;
  mret ok.

(** [host_flashrom], for reading and writing.  An empty section name
    stands for the whole image; the status query is the host's answer.  The
    verbosity only shapes what the command prints and is left out. *)
Definition host_flashrom (op : flashrom_ops) (image_path prog : string)
    (section_name : option string) : M Z :=
  let section_name :=
    match section_name with
    | Some n => if String.eqb n "" then None else Some n
    | None => None
    end in
  w ← get_world;
  let r := env_flashrom w op image_path prog section_name in
  match op with
  | FLASHROM_READ =>
      emit (EvFlashrom op image_path prog section_name r);;
      (if decide (r = 0)
       then modify_world (put_file image_path (env_flash_contents w prog))
       else mret tt);;
      mret r
  | FLASHROM_WRITE =>
      emit (EvFlashrom op image_path prog section_name r);;
      mret r
  | FLASHROM_WP_STATUS => mret (flashrom_wp_status (w_host w))
  end.

(** [load_firmware_version]: the status and the version string. *)
Definition load_firmware_version (image : firmware_image) (section_name : string)
  : Z * string :=
  let fwid := find_firmware_section image section_name in
  if negb (Nat.eqb (section_size fwid) 0)
  then (0, strndup (section_bytes image fwid))
  else (-1, ""%string).

(** [load_firmware_image] without archive: the file is read from the file
    system.  Returns the status and the image as the function leaves it. *)
Definition load_firmware_image (image : firmware_image) (file_name : string)
    (w : world) : Z * firmware_image :=
  match w_files w !! file_name with
  | None => (-1, image)
  | Some d =>
      let image :=
        {| programmer := programmer image; data := Some d;
           file_name := file_name; ro_version := ro_version image;
           rw_version_a := rw_version_a image;
           rw_version_b := rw_version_b image;
           fmap_header := fmap_find d |} in
      match fmap_header image with
      | None => (-1, image)
      | Some _ =>
          if negb (firmware_section_exists image FMAP_RO_FRID) then (-1, image)
          else
            let with_versions ro a b :=
              {| programmer := programmer image; data := data image;
                 file_name := file_name; ro_version := ro;
                 rw_version_a := a; rw_version_b := b;
                 fmap_header := fmap_header image |} in
            let ro := (load_firmware_version image FMAP_RO_FRID).2 in
            if firmware_section_exists image FMAP_RW_FWID_A then
              (0, with_versions ro
                    (load_firmware_version image FMAP_RW_FWID_A).2
                    (load_firmware_version image FMAP_RW_FWID_B).2)
            else if firmware_section_exists image FMAP_RW_FWID then
              (0, with_versions ro
                    (load_firmware_version image FMAP_RW_FWID).2
                    (load_firmware_version image FMAP_RW_FWID).2)
            else (0, with_versions ro (rw_version_a image) (rw_version_b image))
      end
  end.

(** [load_system_firmware] into the image [r] of the configuration. *)
Definition load_system_firmware (r : image_ref) : M Z :=
  tmp_file ← updater_create_temp_file;
  match tmp_file with
  | None => mret (-1)
  | Some tmp_file =>
      c ← get_cfg;
      st ← host_flashrom FLASHROM_READ tmp_file
             (programmer (get_image r c)) None;
      if decide (st <> 0) then mret st
      else
        w ← get_world;
        let '(st, i) := load_firmware_image (get_image r c) tmp_file w in
        modify_cfg (set_image r i);;
        mret st
  end.

(** *** Cookies *)

(** [set_try_cookies] *)
Definition set_try_cookies (target : option string) (is_vboot2 : Z) : M Z :=
  c ← get_cfg;
  let tries := match data (ec_image c) with Some _ => 8 | None => 6 end in
  let slot :=
    match target with
    | Some t =>
        if String.eqb t FMAP_RW_SECTION_A then Some FWACT_A
        else if String.eqb t FMAP_RW_SECTION_B then Some FWACT_B
        else None
    | None => None
    end in
  match slot with
  | None => mret (-1)
  | Some slot =>
      if bool_decide (is_Some (emulation c)) then mret 0
      else
        w ← get_world;
        r1 ← (if decide (is_vboot2 <> 0) then
                let r := env_set_property_string w "fw_try_next" slot in
                emit (EvSetPropertyString "fw_try_next" slot r);;
                mret r
              else mret 0);
        if decide (r1 <> 0) then mret (-1)
        else
          w ← get_world;
          let r := env_set_property_int w "fw_try_count" tries in
          emit (EvSetPropertyInt "fw_try_count" tries r);;
          if decide (r <> 0) then mret (-1) else mret 0
  end.

(** *** Writing firmware *)

(** [emulate_write_firmware] *)
Definition emulate_write_firmware (filename : string) (image : firmware_image)
    (section_name : option string) : M Z :=
  w ← get_world;
  let to_image0 :=
    {| programmer := ""; data := None; file_name := "";
       ro_version := ""; rw_version_a := ""; rw_version_b := "";
       fmap_header := None |} in
  let '(st, to_image) := load_firmware_image to_image0 filename w in
  if decide (st <> 0) then mret (-1)
  else
    (* (errorcnt, from, to) *)
    let '(errorcnt, from, to) :=
      match section_name with
      | Some name =>
          let from := find_firmware_section image name in
          let to := find_firmware_section to_image name in
          ((match from with Some _ => 0 | None => 1 end) +
           (match to with Some _ => 0 | None => 1 end), from, to)
      | None =>
          let from := Some {| sec_offset := 0; sec_size := image_size image |} in
          if decide (image_size image <> image_size to_image)
          then (1, from, None)
          else (0, from,
                Some {| sec_offset := 0; sec_size := image_size to_image |})
      end in
    if decide (errorcnt <> 0) then mret errorcnt
    else
      let to_write := Nat.min (section_size to) (section_size from) in
      let d :=
        Mem.write_bytes (image_bytes to_image)
          (match to with Some s => sec_offset s | None => O end)
          (Mem.read_bytes (image_bytes image)
             (match from with Some s => sec_offset s | None => O end)
             to_write) in
      ok ← vb2_write_file filename d;
      if (ok : bool) then mret errorcnt else mret (errorcnt + 1).

(** The body of [write_firmware]. *)
Definition write_firmware_body (image : firmware_image)
    (section_name : option string) : M Z :=
  tmp_file ← updater_create_temp_file;
  match tmp_file with
  | None => mret (-1)
  | Some tmp_file =>
      c ← get_cfg;
      match emulation c with
      | Some emu =>
          emit (EvEmulation section_name);;
          emulate_write_firmware emu image section_name
      | None =>
          ok ← vb2_write_file tmp_file (image_bytes image);
          if negb (ok : bool) then mret (-1)
          else host_flashrom FLASHROM_WRITE tmp_file (programmer image)
                 section_name
      end
  end.

(** [write_firmware]: writes a section of the image, or the whole image
    for a NULL section name, to the system firmware.  The call and what it
    returned are recorded in the trace. *)
Definition write_firmware (image : firmware_image)
    (section_name : option string) : M Z :=
  r ← write_firmware_body image section_name;
  emit (EvWriteFirmware (programmer image) section_name r);;
  mret r.

(** [write_optional_firmware] *)
Definition write_optional_firmware (image : firmware_image)
    (section_name : option string) : M Z :=
  match data image with
  | None => mret 0
  | Some _ =>
      match section_name with
      | Some name =>
          if negb (firmware_section_exists image name) then mret 0
          else write_firmware image section_name
      | None => write_firmware image section_name
      end
  end.

(** *** Preserving sections *)

(** [preserve_firmware_section]: the status and [image_to] afterwards.
    The two images are separate buffers. *)
Definition preserve_firmware_section (image_from image_to : firmware_image)
    (section_name : string) : Z * firmware_image :=
  match find_firmware_section image_from section_name,
        find_firmware_section image_to section_name with
  | Some from, Some to =>
      (0, set_image_data image_to
            (Mem.write_bytes (image_bytes image_to) (sec_offset to)
               (Mem.read_bytes (image_bytes image_from) (sec_offset from)
                  (Nat.min (sec_size from) (sec_size to)))))
  | _, _ => (-1, image_to)
  end.

(** [find_gbb]: the offset of the GBB header in the buffer, [None] for
    NULL.  futil_valid_gbb_header rejects a section that is not there. *)
Definition find_gbb (image : firmware_image) : option nat :=
  match find_firmware_section image FMAP_RO_GBB with
  | None => None
  | Some section =>
      if futil_valid_gbb_header (section_bytes image (Some section))
      then Some (sec_offset section)
      else None
  end.

(** [preserve_gbb]: the status and [image_to] afterwards.  The two images
    are separate buffers. *)
Definition preserve_gbb (image_from image_to : firmware_image)
  : Z * firmware_image :=
  match find_gbb image_from, find_gbb image_to with
  | Some gbb_from, Some gbb_to =>
      let d_from := image_bytes image_from in
      (* Preserve flags. *)
      let d1 :=
        Mem.write_u32 (image_bytes image_to) (gbb_to + gbb_flags_offset)
          (Mem.read_u32 d_from (gbb_from + gbb_flags_offset)) in
      let hwid_to :=
        (gbb_to + Z.to_nat (Mem.read_u32 d1 (gbb_to + gbb_hwid_offset_offset)))%nat in
      let hwid_from :=
        (gbb_from + Z.to_nat (Mem.read_u32 d_from (gbb_from + gbb_hwid_offset_offset)))%nat in
      (* Preserve HWID. *)
      let len := CInt.to_int (Z.of_nat (Mem.strlen (drop hwid_from d_from))) in
      let hwid_size := Mem.read_u32 d1 (gbb_to + gbb_hwid_size_offset) in
      if CInt.to_u32 len >=? hwid_size then (-1, set_image_data image_to d1)
      else
        let d2 := Mem.write_bytes d1 hwid_to
                    (replicate (Z.to_nat hwid_size) Byte.x00) in
        let d3 := Mem.write_bytes d2 hwid_to
                    (Mem.read_bytes d_from hwid_from
                       (Z.to_nat (CInt.to_size_t len))) in
        (0, set_image_data image_to d3)
  | _, _ => (-1, image_to)
  end.

(** [try_apply_quirk] *)
Definition try_apply_quirk (quirk : quirk_types) : M Z :=
  c ← get_cfg;
  if decide (quirk_value (quirks c quirk) = 0) then mret 0
  else
    match quirk_apply quirk with
    | None => mret (-1)
    | Some apply => apply
    end.

(** A preservation step of [preserve_images], from [cfg->image_current]
    into [cfg->image]. *)
Definition preserve_into_image
    (f : firmware_image -> firmware_image -> Z * firmware_image) : M Z :=
  c ← get_cfg;
  let '(r, to) := f (image_current c) (image c) in
  modify_cfg (set_image IMAGE to);;
  mret r.

(** [preserve_management_engine] *)
Definition preserve_management_engine : M Z :=
  c ← get_cfg;
  let section := find_firmware_section (image_current c) FMAP_SI_ME in
  match section with
  | None => mret 0
  | Some s =>
      if section_is_filled_with (section_bytes (image_current c) section)
           (sec_size s) Byte.xff
      then preserve_into_image
             (fun from to => preserve_firmware_section from to FMAP_SI_DESC)
      else try_apply_quirk QUIRK_UNLOCK_ME_FOR_UPDATE
  end.

Definition optional_sections : list string :=
  [FMAP_RO_PRESERVE; FMAP_RW_PRESERVE; FMAP_RW_NVRAM; FMAP_RW_ELOG;
   FMAP_RW_SMMSTORE; "RO_FSG"%string].

Fixpoint preserve_optional (names : list string) (errcnt : Z) : M Z :=
  match names with
  | [] => mret errcnt
  | name :: names' =>
      c ← get_cfg;
      if negb (firmware_section_exists (image_current c) name)
      then preserve_optional names' errcnt
      else
        r ← preserve_into_image
              (fun from to => preserve_firmware_section from to name);
        preserve_optional names' (errcnt + r)
  end.

(** [preserve_images] *)
Definition preserve_images : M Z :=
  r1 ← preserve_into_image preserve_gbb;
  r2 ← preserve_management_engine;
  r3 ← preserve_into_image
         (fun from to => preserve_firmware_section from to FMAP_RO_VPD);
  r4 ← preserve_into_image
         (fun from to => preserve_firmware_section from to FMAP_RW_VPD);
  preserve_optional optional_sections (r1 + r2 + r3 + r4).

(** *** Comparing sections *)

(** [compare_section] *)
Definition compare_section (a_bytes : list byte) (a_size : nat)
    (b_bytes : list byte) (b_size : nat) : Z :=
  if decide (a_size <> b_size)
  then CInt.to_int (Z.of_nat a_size - Z.of_nat b_size)
  else Mem.memcmp (take a_size a_bytes) (take a_size b_bytes).

(** [section_needs_update]; a NULL section name compares whole images. *)
Definition section_needs_update (image_from image_to : firmware_image)
    (section_name : option string) : Z :=
  match section_name with
  | None =>
      if decide (image_size image_from <> image_size image_to) then -1
      else Mem.memcmp (take (image_size image_to) (image_bytes image_from))
                      (take (image_size image_to) (image_bytes image_to))
  | Some name =>
      let from := find_firmware_section image_from name in
      let to := find_firmware_section image_to name in
      compare_section (section_bytes image_from from) (section_size from)
                      (section_bytes image_to to) (section_size to)
  end.

(** *** Compatibility checks *)

(** [check_compatible_platform] *)
Definition check_compatible_platform : M Z :=
  c ← get_cfg;
  let image_from := image_current c in
  let image_to := image c in
  match strchr_dot (ro_version image_from), strchr_dot (ro_version image_to) with
  | Some from_dot, Some _ =>
      let len := CInt.to_int (Z.of_nat from_dot + 1) in
      mret (strncmp (ro_version image_from) (ro_version image_to)
              (Z.to_nat (CInt.to_size_t len)))
  | _, _ => mret (-1)
  end.

(** [get_rootkey]: the offset of the root key in the buffer. *)
Definition get_rootkey (d : list byte) (gbb : nat) : option nat :=
  let key := (gbb + Z.to_nat (Mem.read_u32 d (gbb + gbb_rootkey_offset_offset)))%nat in
  if negb (packed_key_looks_ok (drop key d)
             (Mem.read_u32 d (gbb + gbb_rootkey_size_offset)))
  then None
  else Some key.

(** [get_keyblock]: the offset of the key block in the buffer.  A keyblock
    must be followed by a vb2_fw_preamble. *)
Definition get_keyblock (image : firmware_image) (section_name : string)
  : option nat :=
  let section := find_firmware_section image section_name in
  if (section_size section <? sizeof_vb2_keyblock + sizeof_vb2_fw_preamble)%nat
  then None
  else
    match section with
    | Some s => Some (sec_offset s)
    | None => None
    end.

(** [dupe_keyblock]: a copy of [keyblock_size] bytes. *)
Definition dupe_keyblock (d : list byte) (block : nat) : list byte :=
  Mem.read_bytes d block
    (Z.to_nat (Mem.read_u32 d (block + keyblock_size_offset))).

(** [verify_keyblock]: the key block at [block] of [d] against the signing
    key at [sign_key] of [d_key]. *)
Definition verify_keyblock (d : list byte) (block : nat)
    (d_key : list byte) (sign_key : nat) : Z :=
  if decide (Mem.read_u32 d (block + keyblock_sig_size_offset) = 0) then -1
  else if negb (vb2_unpack_key (drop sign_key d_key)) then -1
  else
    let new_block := dupe_keyblock d block in
    if vb2_verify_keyblock new_block
         (Mem.read_u32 new_block keyblock_size_offset) (drop sign_key d_key)
    then 0
    else -1.

(** [get_key_versions]: [Some (data_key_version, firmware_version)] when
    the function returns 0. *)
Definition get_key_versions (image : firmware_image) (section_name : string)
  : option (Z * Z) :=
  match get_keyblock image section_name with
  | None => None
  | Some keyblock =>
      let d := image_bytes image in
      let data_key_version :=
        Mem.read_u32 d (keyblock + keyblock_key_version_offset) in
      let pre :=
        (keyblock + Z.to_nat (Mem.read_u32 d (keyblock + keyblock_size_offset)))%nat in
      let firmware_version :=
        Mem.read_u32 d (pre + preamble_firmware_version_offset) in
      Some (data_key_version, firmware_version)
  end.

(** [check_compatible_root_key].  The diagnostics printed when the
    verification fails do not enter the result. *)
Definition check_compatible_root_key (ro_image rw_image : firmware_image) : Z :=
  match find_gbb ro_image with
  | None => -1
  | Some gbb =>
      match get_rootkey (image_bytes ro_image) gbb with
      | None => -1
      | Some rootkey =>
          (* Assume VBLOCK_A and VBLOCK_B are signed in same way. *)
          match get_keyblock rw_image FMAP_RW_VBLOCK_A with
          | None => -1
          | Some keyblock =>
              if decide (verify_keyblock (image_bytes rw_image) keyblock
                           (image_bytes ro_image) rootkey <> 0)
              then -1
              else 0
          end
      end
  end.

(** [cbfs_file_exists] *)
Definition cbfs_file_exists (image_file section_name cbfs_entry_name : string)
  : M Z :=
  w ← get_world;
  let r :=
    match w_files w !! image_file with
    | Some d => if cbfstool_has_entry d section_name cbfs_entry_name then 0 else 1
    | None => 1
    end in
  emit (EvCbfstool image_file section_name cbfs_entry_name r);;
  mret (if decide (r = 0) then 1 else 0).

(** [legacy_needs_update] *)
Definition legacy_needs_update : M Z :=
  let tag : string := "cros_allow_auto_update" in
  let section := FMAP_RW_LEGACY in
  tmp_path ← updater_create_temp_file;
  match tmp_path with
  | None => mret 0
  | Some tmp_path =>
      c ← get_cfg;
      ok ← vb2_write_file tmp_path (image_bytes (image c));
      if negb (ok : bool) then mret 0
      else
        has_to ← cbfs_file_exists tmp_path section tag;
        has_from ← cbfs_file_exists tmp_path section tag;
        if decide (has_from = 0 \/ has_to = 0) then mret 0
        else
          c ← get_cfg;
          mret (section_needs_update (image_current c) (image c)
                  (Some FMAP_RW_LEGACY))
  end.

(** [do_check_compatible_tpm_keys] *)
Definition do_check_compatible_tpm_keys (rw_image : firmware_image) : M Z :=
  (* Fail if the given image does not look good. *)
  match get_key_versions rw_image FMAP_RW_VBLOCK_A with
  | None => mret (-1)
  | Some (data_key_version, firmware_version) =>
      (* The stored tpm_fwver can be 0 (b/116298359#comment3). *)
      tpm_fwver ← get_system_property SYS_PROP_TPM_FWVER;
      if tpm_fwver <? 0 then mret (-1)
      else
        let tpm_data_key_version := CInt.to_u32 (Z.shiftr tpm_fwver 16) in
        let tpm_firmware_version := CInt.to_u32 (Z.land tpm_fwver 65535) in
        if tpm_data_key_version >? data_key_version then mret (-1)
        else if tpm_firmware_version >? firmware_version then mret (-1)
        else mret 0
  end.

(** [check_compatible_tpm_keys]: returns 0 if
    [do_check_compatible_tpm_keys] succeeds or if [cfg.force_update] is
    set. *)
Definition check_compatible_tpm_keys (rw_image : firmware_image) : M Z :=
  r ← do_check_compatible_tpm_keys rw_image;
  if decide (r = 0) then mret r
  else
    c ← get_cfg;
    if decide (force_update c = 0) then mret r
    else mret 0.

(** *** The update strategies *)

(** The last step of [update_try_rw_firmware]: "Do not fail on updating
    legacy." *)
Definition try_rw_legacy (image_to : image_ref) : M updater_error_codes :=
  l ← legacy_needs_update;
  (if decide (l <> 0) then
     c ← get_cfg;
     write_firmware (get_image image_to c) (Some FMAP_RW_LEGACY);;
     mret tt
   else mret tt);;
  mret UPDATE_ERR_DONE.

(** [update_try_rw_firmware] behind its compatibility checks: from the
    choice of the target to the end. *)
Definition try_rw_update (image_from image_to : image_ref) (is_vboot2 : Z)
  : M updater_error_codes :=
  target ← decide_rw_target TARGET_SELF is_vboot2;
  match target with
  | None => mret UPDATE_ERR_TARGET
  | Some self =>
      c ← get_cfg;
      if negb (firmware_section_exists (get_image image_to c) self)
      then mret UPDATE_ERR_INVALID_IMAGE
      else
        let has_update :=
          if decide (force_update c = 0)
          then section_needs_update (get_image image_from c)
                 (get_image image_to c) (Some self)
          else 1 in
        if decide (has_update <> 0) then
          target ← decide_rw_target TARGET_UPDATE is_vboot2;
          w ← write_firmware (get_image image_to c) target;
          if decide (w <> 0) then mret UPDATE_ERR_WRITE_FIRMWARE
          else
            k ← set_try_cookies target is_vboot2;
            if decide (k <> 0) then mret UPDATE_ERR_SET_COOKIES
            else try_rw_legacy image_to
        else
          (* Clear trial cookies for vboot1. *)
          (if decide (is_vboot2 = 0 /\ emulation c = None) then
             w ← get_world;
             emit (EvSetPropertyInt "fwb_tries" 0
                     (env_set_property_int w "fwb_tries" 0))
           else mret tt);;
          try_rw_legacy image_to
  end.

(** [update_try_rw_firmware] *)
Definition update_try_rw_firmware (image_from image_to : image_ref)
    (wp_enabled : Z) : M updater_error_codes :=
  is_vboot2 ← get_system_property SYS_PROP_FW_VBOOT2;
  c ← get_cfg;
  modify_cfg (set_image image_to
                (preserve_gbb (get_image image_from c) (get_image image_to c)).2);;
  c ← get_cfg;
  if decide (wp_enabled = 0 /\
             section_needs_update (get_image image_from c)
               (get_image image_to c) (Some FMAP_RO_SECTION) <> 0)
  then mret UPDATE_ERR_NEED_RO_UPDATE
  else if decide (check_compatible_root_key (get_image image_from c)
                    (get_image image_to c) <> 0)
  then mret UPDATE_ERR_ROOT_KEY
  else
    r ← check_compatible_tpm_keys (get_image image_to c);
    if decide (r <> 0) then mret UPDATE_ERR_TPM_ROLLBACK
    else try_rw_update image_from image_to is_vboot2.

(** The writes of [update_rw_firmrware]. *)
Definition rw_update_sections (image_to : firmware_image)
  : M updater_error_codes :=
  w ← write_firmware image_to (Some FMAP_RW_SECTION_A);
  if decide (w <> 0) then mret UPDATE_ERR_WRITE_FIRMWARE else
  w ← write_firmware image_to (Some FMAP_RW_SECTION_B);
  if decide (w <> 0) then mret UPDATE_ERR_WRITE_FIRMWARE else
  w ← write_firmware image_to (Some FMAP_RW_SHARED);
  if decide (w <> 0) then mret UPDATE_ERR_WRITE_FIRMWARE else
  w ← write_optional_firmware image_to (Some FMAP_RW_LEGACY);
  if decide (w <> 0) then mret UPDATE_ERR_WRITE_FIRMWARE else
  mret UPDATE_ERR_DONE.

(** [update_rw_firmrware] *)
Definition update_rw_firmrware (image_from image_to : image_ref)
  : M updater_error_codes :=
  c ← get_cfg;
  if decide (check_compatible_root_key (get_image image_from c)
               (get_image image_to c) <> 0)
  then mret UPDATE_ERR_ROOT_KEY
  else
    r ← check_compatible_tpm_keys (get_image image_to c);
    if decide (r <> 0) then mret UPDATE_ERR_TPM_ROLLBACK
    else
      c ← get_cfg;
      rw_update_sections (get_image image_to c).

(** [update_legacy_firmware] *)
Definition update_legacy_firmware (image_to : image_ref)
  : M updater_error_codes :=
  c ← get_cfg;
  w ← write_firmware (get_image image_to c) (Some FMAP_RW_LEGACY);
  if decide (w <> 0) then mret UPDATE_ERR_WRITE_FIRMWARE
  else mret UPDATE_ERR_DONE.

(** [update_whole_firmware] *)
Definition update_whole_firmware (image_to : image_ref)
  : M updater_error_codes :=
  preserve_images;;
  c ← get_cfg;
  r ← check_compatible_tpm_keys (get_image image_to c);
  if decide (r <> 0) then mret UPDATE_ERR_TPM_ROLLBACK
  else
    (* FMAP may be different so we should just update all. *)
    c ← get_cfg;
    w ← write_firmware (get_image image_to c) None;
    if decide (w <> 0) then mret UPDATE_ERR_WRITE_FIRMWARE else
    w ← write_optional_firmware (ec_image c) None;
    if decide (w <> 0) then mret UPDATE_ERR_WRITE_FIRMWARE else
    w ← write_optional_firmware (pd_image c) None;
    if decide (w <> 0) then mret UPDATE_ERR_WRITE_FIRMWARE else
    mret UPDATE_ERR_DONE.

Definition all_system_properties : list system_property_type :=
  [SYS_PROP_MAINFW_ACT; SYS_PROP_TPM_FWVER; SYS_PROP_FW_VBOOT2;
   SYS_PROP_PLATFORM_VER; SYS_PROP_WP_HW; SYS_PROP_WP_SW].

Fixpoint get_system_properties (ps : list system_property_type) : M unit :=
  match ps with
  | [] => mret tt
  | p :: ps' => get_system_property p;; get_system_properties ps'
  end.

(** [print_system_properties]: the properties are scanned, then printed. *)
Definition print_system_properties : M unit :=
  get_system_properties all_system_properties;;
  get_system_properties all_system_properties.

(** The end of [update_firmware]: the choice of the strategy. *)
Definition select_strategy (image_from image_to : image_ref) (wp_enabled : Z)
  : M updater_error_codes :=
  c ← get_cfg;
  if decide (legacy_update c <> 0) then update_legacy_firmware image_to
  else
    r ← (if decide (try_update c <> 0)
         then update_try_rw_firmware image_from image_to wp_enabled
         else mret UPDATE_ERR_NEED_RO_UPDATE);
    if decide (try_update c <> 0 /\ r <> UPDATE_ERR_NEED_RO_UPDATE)
    then mret r
    else if decide (wp_enabled <> 0)
    then update_rw_firmrware image_from image_to
    else update_whole_firmware image_to.

(** [update_firmware] *)
Definition update_firmware : M updater_error_codes :=
  let image_from := IMAGE_CURRENT in
  let image_to := IMAGE in
  c ← get_cfg;
  match data (get_image image_to c) with
  | None => mret UPDATE_ERR_NO_IMAGE
  | Some _ =>
  q ← try_apply_quirk QUIRK_DAISY_SNOW_DUAL_MODEL;
  if decide (q <> 0) then mret UPDATE_ERR_PLATFORM else
  q ← try_apply_quirk QUIRK_MIN_PLATFORM_VERSION;
  if decide (q <> 0) then mret UPDATE_ERR_PLATFORM else
  c ← get_cfg;
  l ← match data (get_image image_from c) with
      | None => load_system_firmware image_from
      | Some _ => mret 0
      end;
  if decide (l <> 0) then mret UPDATE_ERR_SYSTEM_IMAGE else
  p ← check_compatible_platform;
  if decide (p <> 0) then mret UPDATE_ERR_PLATFORM else
  wp_enabled ← is_write_protection_enabled;
  (* both properties are printed, whatever the result *)
  get_system_property SYS_PROP_WP_HW;;
  get_system_property SYS_PROP_WP_SW;;
  q ← try_apply_quirk QUIRK_ENLARGE_IMAGE;
  if decide (q <> 0) then mret UPDATE_ERR_SYSTEM_IMAGE else
  q ← try_apply_quirk QUIRK_EVE_SMM_STORE;
  if decide (q <> 0) then mret UPDATE_ERR_INVALID_IMAGE else
  s ← (fun s => (debugging_enabled s, s));
  (if decide (s <> 0) then print_system_properties else mret tt);;
  select_strategy image_from image_to wp_enabled
  end.

(** A run of the updater under emulation: updater_setup_config records the
    emulation file and loads the current image from it, then
    [update_firmware] runs.  Returns the result and the world afterwards. *)
Definition emulated_run (c : updater_config) (emu : string) (w : world)
  : updater_error_codes * world :=
  let cur := (load_firmware_image (image_current c) emu w).2 in
  let c := set_emulation (Some emu) (set_image IMAGE_CURRENT cur c) in
  let r := update_firmware
             {| st_cfg := c; st_world := w; debugging_enabled := 0 |} in
  (r.1, st_world r.2).

End Updater.

(** ** Vocabulary of the specification *)

(** The value a property has in a state: the cached one once the entry is
    initialized, otherwise what the getter would read now. *)
Definition property_value (p : system_property_type) (s : state) : Z :=
  let prop := system_properties (st_cfg s) p in
  if decide (initialized prop = 0) then getter prop (w_host (st_world s))
  else value prop.

(** How often the getter of [p] ran in a trace. *)
Fixpoint getter_calls (p : system_property_type) (tr : list event) : nat :=
  match tr with
  | [] => O
  | EvGetter q :: tr' =>
      if decide (p = q) then S (getter_calls p tr') else getter_calls p tr'
  | _ :: tr' => getter_calls p tr'
  end.

(** The calls of [write_firmware] in a trace, oldest first: the section
    written ([None] for the whole image) and the value returned. *)
Fixpoint firmware_writes (tr : list event) : list (option string * Z) :=
  match tr with
  | [] => []
  | EvWriteFirmware _ section_name status :: tr' =>
      (section_name, status) :: firmware_writes tr'
  | _ :: tr' => firmware_writes tr'
  end.

(** The events a computation added to the trace. *)
Definition new_events (s s' : state) : list event :=
  drop (length (w_trace (st_world s))) (w_trace (st_world s')).

(** The system changes behind the back of the updater. *)
Definition with_host (h : host) (s : state) : state :=
  {| st_cfg := st_cfg s;
     st_world := {| w_host := h; w_files := w_files (st_world s);
                    w_trace := w_trace (st_world s) |};
     debugging_enabled := debugging_enabled s |}.

(** What may happen to the property cache during a run: a property is read,
    a property is overridden, the system changes. *)
Inductive cache_action :=
| ActGet (p : system_property_type)
| ActOverride (p : system_property_type) (v : Z)
| ActSystemChange (h : host).

Definition run_action (a : cache_action) (s : state) : state :=
  match a with
  | ActGet p => (get_system_property p s).2
  | ActOverride p v => (override_system_property p v s).2
  | ActSystemChange h => with_host h s
  end.

Definition run_actions (l : list cache_action) (s : state) : state :=
  fold_left (fun s a => run_action a s) l s.


(** What a computation leaves alone.  [frame ws s s'] relates the state
    before and after a computation that changes neither the images nor the
    switches of the configuration nor any property value, and that adds to
    the trace events whose calls of [write_firmware] are exactly [ws]. *)
Record frame (ws : list (option string * Z)) (s s' : state) : Prop := {
  frame_image : image (st_cfg s') = image (st_cfg s);
  frame_image_current : image_current (st_cfg s') = image_current (st_cfg s);
  frame_ec_image : ec_image (st_cfg s') = ec_image (st_cfg s);
  frame_pd_image : pd_image (st_cfg s') = pd_image (st_cfg s);
  frame_quirks : quirks (st_cfg s') = quirks (st_cfg s);
  frame_try_update : try_update (st_cfg s') = try_update (st_cfg s);
  frame_force_update : force_update (st_cfg s') = force_update (st_cfg s);
  frame_legacy_update : legacy_update (st_cfg s') = legacy_update (st_cfg s);
  frame_emulation : emulation (st_cfg s') = emulation (st_cfg s);
  frame_debugging : debugging_enabled s' = debugging_enabled s;
  frame_host : w_host (st_world s') = w_host (st_world s);
  frame_props : forall q, property_value q s' = property_value q s;
  frame_trace : exists evs,
    w_trace (st_world s') = w_trace (st_world s) ++ evs /\
    firmware_writes evs = ws;
}.

(** A computation that issues no firmware write, whatever it returns. *)
Definition quiet {A} (m : M A) : Prop := forall s, frame [] s (m s).2.


(** The sections the RW update writes, in order. *)
Definition rw_sections (image_to : firmware_image) : list (option string) :=
  [Some FMAP_RW_SECTION_A; Some FMAP_RW_SECTION_B; Some FMAP_RW_SHARED] ++
  (if firmware_section_exists image_to FMAP_RW_LEGACY
   then [Some FMAP_RW_LEGACY] else []).

(** What a sequence of writes that stops at the first failure looks like:
    a prefix of the expected sections, every write but the last successful,
    success iff all were written successfully. *)
Definition stops_at_first_failure (expected : list (option string))
    (writes : list (option string * Z)) (r : updater_error_codes) : Prop :=
  (r = UPDATE_ERR_DONE /\ writes.*1 = expected /\
   Forall (fun w => w.2 = 0) writes) \/
  (r = UPDATE_ERR_WRITE_FIRMWARE /\
   exists done failed,
     writes = done ++ [failed] /\ failed.2 <> 0 /\
     Forall (fun w => w.2 = 0) done /\ writes.*1 `prefix_of` expected).

(** A configuration from which [update_firmware] reaches the choice of its
    strategy: both images are loaded, no quirk is configured, the platforms
    match, and the legacy mode is off. *)
Definition ready (s : state) : Prop :=
  is_Some (data (image (st_cfg s))) /\
  is_Some (data (image_current (st_cfg s))) /\
  (forall q, quirk_value (quirks (st_cfg s) q) = 0) /\
  (check_compatible_platform s).1 = 0 /\
  legacy_update (st_cfg s) = 0.

(** The state in which the candidate image has been replaced. *)
Definition with_image (i : firmware_image) (s : state) : state :=
  {| st_cfg := set_image IMAGE i (st_cfg s);
     st_world := st_world s;
     debugging_enabled := debugging_enabled s |}.

(** Two 32-bit fields at these offsets of a structure do not overlap. *)
Definition fields_apart (a b : nat) : Prop := (a + 4 <= b \/ b + 4 <= a)%nat.

(** ** A test board

    A concrete layout, library, environment and pair of images on which the
    updater can be run: the structures as vb2_struct.h lays them out, a
    1024-byte flash, and a library whose checks are simple enough to
    compute. *)

Module Board.

(** The layout of vb2_struct.h (keyblock 112 bytes, firmware preamble 108
    bytes, GBB header 128 bytes). *)
Definition vb2_struct_h : vb2_struct :=
  {| sizeof_vb2_keyblock := 112;
     sizeof_vb2_fw_preamble := 108;
     keyblock_size_offset := 16;
     keyblock_sig_size_offset := 32;
     keyblock_key_version_offset := 104;
     preamble_firmware_version_offset := 40;
     gbb_flags_offset := 12;
     gbb_hwid_offset_offset := 16;
     gbb_hwid_size_offset := 20;
     gbb_rootkey_offset_offset := 24;
     gbb_rootkey_size_offset := 28 |}.

(** The flash map of the board. *)
Definition areas : list fmap_area :=
  [ {| area_name := "RO_SECTION"; area_offset := 0; area_size := 384 |};
    {| area_name := "RO_FRID"; area_offset := 0; area_size := 16 |};
    {| area_name := "GBB"; area_offset := 128; area_size := 256 |};
    {| area_name := "RW_SECTION_A"; area_offset := 384; area_size := 256 |};
    {| area_name := "VBLOCK_A"; area_offset := 384; area_size := 224 |};
    {| area_name := "RW_FWID_A"; area_offset := 608; area_size := 32 |};
    {| area_name := "RW_SECTION_B"; area_offset := 640; area_size := 256 |};
    {| area_name := "RW_FWID_B"; area_offset := 864; area_size := 32 |};
    {| area_name := "RW_SHARED"; area_offset := 896; area_size := 64 |};
    {| area_name := "RW_LEGACY"; area_offset := 960; area_size := 64 |} ].

Definition flash_size : nat := 1024.

(** The library of the board: the FMAP of a buffer of the board's flash
    size is the map above; a GBB is valid when its HWID lies behind the
    header and inside the section; a key block verifies against a key
    when both start with the same byte; the legacy payload carries an
    entry when its section starts with the byte 1. *)
Definition lib : vboot_lib :=
  {| fmap_find := fun d =>
       if Nat.eqb (length d) flash_size then Some areas else None;
     futil_valid_gbb_header := fun bs =>
       (128 <=? length bs)%nat &&
       (128 <=? Mem.read_u32 bs 16) &&
       (Mem.read_u32 bs 16 + Mem.read_u32 bs 20 <=? Z.of_nat (length bs));
     packed_key_looks_ok := fun _ _ => true;
     vb2_unpack_key := fun _ => true;
     vb2_verify_keyblock := fun blk _ key =>
       match blk, key with
       | b :: _, k :: _ => Byte.eqb b k
       | _, _ => false
       end;
     cbfstool_has_entry := fun d _ _ =>
       match d !! 960%nat with
       | Some b => Byte.eqb b Byte.x01
       | None => false
       end |}.

(** A host on which every call succeeds. *)
Definition env : environment :=
  {| env_mkstemp := fun w =>
       Some ("/tmp/fwupdater." +:+ pretty (length (w_trace w)));
     env_write_file := fun _ _ _ => true;
     env_flashrom := fun _ _ _ _ _ => 0;
     env_flash_contents := fun _ _ => [];
     env_set_property_int := fun _ _ _ => 0;
     env_set_property_string := fun _ _ _ => 0 |}.

(** A host on which flashrom fails to write RW_SECTION_B. *)
Definition env_b_fails : environment :=
  {| env_mkstemp := fun w =>
       Some ("/tmp/fwupdater." +:+ pretty (length (w_trace w)));
     env_write_file := fun _ _ _ => true;
     env_flashrom := fun _ _ _ _ section_name =>
       if bool_decide (section_name = Some FMAP_RW_SECTION_B) then 1 else 0;
     env_flash_contents := fun _ _ => [];
     env_set_property_int := fun _ _ _ => 0;
     env_set_property_string := fun _ _ _ => 0 |}.

(** No quirk has an [apply] function. *)
Definition no_quirks : quirk_table := fun _ => None.

Definition poke (off : nat) (bs : list byte) (d : list byte) : list byte :=
  Mem.write_bytes d off bs.

Definition poke_u32 (off : nat) (v : Z) (d : list byte) : list byte :=
  Mem.write_u32 d off v.

(** The bytes of a firmware: the RO version string, the GBB with its
    flags and HWID, the root key byte, the key block byte, the versions
    of data key and firmware, the first byte of RW_SECTION_A/B bodies, and
    the first byte of RW_LEGACY. *)
Definition firmware_bytes (frid : string) (flags : Z) (hwid : string)
    (rootkey keyblock : byte) (data_key_version firmware_version : Z)
    (body legacy : byte) : list byte :=
  poke 0 (list_byte_of_string frid)
  (poke_u32 140 flags
  (poke_u32 144 128
  (poke_u32 148 32
  (poke_u32 152 160
  (poke_u32 156 96
  (poke 256 (list_byte_of_string hwid)
  (poke 288 [rootkey]
  (poke 384 [keyblock]
  (poke_u32 400 112
  (poke_u32 416 1
  (poke_u32 488 data_key_version
  (poke_u32 536 firmware_version
  (poke 620 [body]
  (poke 876 [body]
  (poke 960 [legacy]
  (replicate flash_size Byte.x00)))))))))))))))).

Definition mk_image (name : string) (d : list byte) : firmware_image :=
  {| programmer := PROG_HOST; data := Some d; file_name := name;
     ro_version := strndup (take 16 d);
     rw_version_a := ""; rw_version_b := "";
     fmap_header := Some areas |}.

Definition no_image (prog : string) : firmware_image :=
  {| programmer := prog; data := None; file_name := "";
     ro_version := ""; rw_version_a := ""; rw_version_b := "";
     fmap_header := None |}.

(** The firmware in the flash and the candidate: same platform, same root
    key, newer body. *)
Definition current_bytes : list byte :=
  firmware_bytes "Google_Test.1.2" 57 "TEST A1B-C" Byte.x2a Byte.x2a 1 1
    Byte.x10 Byte.x01.
Definition candidate_bytes : list byte :=
  firmware_bytes "Google_Test.1.3" 0 "TEST" Byte.x2a Byte.x2a 1 1
    Byte.x11 Byte.x01.

Definition current : firmware_image := mk_image "current.bin" current_bytes.
Definition candidate : firmware_image := mk_image "image.bin" candidate_bytes.

Definition host0 : host :=
  {| crossystem_mainfw_act := Some "A"%string;
     crossystem_int := fun name =>
       if String.eqb name "tpm_fwver" then 65537
       else if String.eqb name "fw_vboot2" then 1
       else if String.eqb name "wpsw_cur" then 1
       else -1;
     mosys_platform_version := 1;
     flashrom_wp_status := 1 |}.

(** The property table of updater_new_config. *)
Definition new_properties (p : system_property_type) : system_property :=
  {| getter :=
       match p with
       | SYS_PROP_MAINFW_ACT => host_get_mainfw_act
       | SYS_PROP_TPM_FWVER => host_get_tpm_fwver
       | SYS_PROP_FW_VBOOT2 => host_get_fw_vboot2
       | SYS_PROP_PLATFORM_VER => host_get_platform_version
       | SYS_PROP_WP_HW => host_get_wp_hw
       | SYS_PROP_WP_SW => host_get_wp_sw
       end;
     value := 0; initialized := 0 |}.

(** A property table whose entries were all overridden. *)
Definition overridden (mainfw_act tpm_fwver fw_vboot2 wp_hw wp_sw : Z)
    (p : system_property_type) : system_property :=
  {| getter := getter (new_properties p);
     value :=
       match p with
       | SYS_PROP_MAINFW_ACT => mainfw_act
       | SYS_PROP_TPM_FWVER => tpm_fwver
       | SYS_PROP_FW_VBOOT2 => fw_vboot2
       | SYS_PROP_PLATFORM_VER => 1
       | SYS_PROP_WP_HW => wp_hw
       | SYS_PROP_WP_SW => wp_sw
       end;
     initialized := 1 |}.

Definition quirks0 (q : quirk_types) : quirk_entry :=
  {| quirk_name := ""; quirk_help := None; quirk_value := 0 |}.

Definition config (img cur : firmware_image)
    (props : system_property_type -> system_property)
    (try force legacy : Z) (emu : option string) : updater_config :=
  {| image := img; image_current := cur;
     ec_image := no_image PROG_EC; pd_image := no_image PROG_PD;
     system_properties := props; quirks := quirks0; tempfiles := [];
     try_update := try; force_update := force; legacy_update := legacy;
     verbosity := 0; emulation := emu |}.

Definition world0 : world :=
  {| w_host := host0; w_files := ∅; w_trace := [] |}.

Definition start (c : updater_config) (w : world) : state :=
  {| st_cfg := c; st_world := w; debugging_enabled := 0 |}.

(** A candidate whose VBLOCK_A is one byte too short for a key block and a
    preamble. *)
Definition areas_small_vblock : list fmap_area :=
  [ {| area_name := "RO_SECTION"; area_offset := 0; area_size := 384 |};
    {| area_name := "RO_FRID"; area_offset := 0; area_size := 16 |};
    {| area_name := "GBB"; area_offset := 128; area_size := 256 |};
    {| area_name := "VBLOCK_A"; area_offset := 384; area_size := 219 |} ].

Definition candidate_small_vblock : firmware_image :=
  {| programmer := PROG_HOST; data := Some candidate_bytes;
     file_name := "image.bin"; ro_version := "Google_Test.1.3";
     rw_version_a := ""; rw_version_b := "";
     fmap_header := Some areas_small_vblock |}.

(** A candidate whose GBB leaves 8 bytes for the HWID. *)
Definition candidate_small_hwid : firmware_image :=
  mk_image "image.bin" (poke_u32 148 8 candidate_bytes).

(** A flash whose legacy payload does not carry the entry that allows
    updates. *)
Definition current_untagged : firmware_image :=
  mk_image "current.bin"
    (firmware_bytes "Google_Test.1.2" 57 "TEST A1B-C" Byte.x2a Byte.x2a 1 1
       Byte.x10 Byte.x00).

(** The world in which the emulation file holds the current firmware. *)
Definition emu_file : string := "emu.bin".

Definition world_emu : world :=
  {| w_host := host0; w_files := {[ emu_file := current_bytes ]};
     w_trace := [] |}.

End Board.

(** ** More of updater.c *)

(** *** Releasing a configuration *)

(** [remove(path)] of the C library can fail: whether the call succeeds
    in a given world. *)
Class file_removal := env_remove : world -> string -> bool.

Section Release.

Context {R : file_removal}.

(** [remove(path)]: the file is gone if the call succeeds, and everything
    is as before if it fails. *)
Definition remove_file (path : string) (w : world) : world :=
  if env_remove w path
  then {| w_host := w_host w; w_files := delete path (w_files w);
          w_trace := w_trace w |}
  else w.

(** The loop of [updater_remove_all_temp_files] over the list of
    temporary files; what [remove] returns is not looked at. *)
Fixpoint remove_temp_files (tempfiles : list string) : M unit :=
  match tempfiles with
  | [] => mret tt
  | target :: next =>
      modify_world (remove_file target);;
      remove_temp_files next
  end.

(** [updater_remove_all_temp_files] *)
Definition updater_remove_all_temp_files : M unit :=
  c ← get_cfg;
  remove_temp_files (tempfiles c);;
  modify_cfg (set_tempfiles []).

(** [free_firmware_image]: the buffers are released and the structure is
    zeroed; a NULL string reads as the empty one. *)
Definition free_firmware_image (image : firmware_image) : firmware_image :=
  {| programmer := ""; data := None; file_name := "";
     ro_version := ""; rw_version_a := ""; rw_version_b := "";
     fmap_header := None |}.

(** [updater_delete_config], up to the release of the archive and of the
    configuration object itself. *)
Definition updater_delete_config : M unit :=
  c ← get_cfg;
  modify_cfg (set_image IMAGE (free_firmware_image (image c)));;
  c ← get_cfg;
  modify_cfg (set_image IMAGE_CURRENT (free_firmware_image (image_current c)));;
  c ← get_cfg;
  modify_cfg (set_image EC_IMAGE (free_firmware_image (ec_image c)));;
  c ← get_cfg;
  modify_cfg (set_image PD_IMAGE (free_firmware_image (pd_image c)));;
  updater_remove_all_temp_files.

End Release.

(** *** C strings as byte buffers

    The text a [char *] points to is the list of bytes from the pointer
    on; it ends before the first NUL, or with the list. *)

(** <ctype.h> in the C locale, on the value of an [unsigned char]. *)
Definition isascii (c : byte) : bool := Mem.byte_val c <? 128.

Definition isspace (c : byte) : bool :=
  let v := Mem.byte_val c in
  (v =? 32) || ((9 <=? v) && (v <=? 13)).

Definition isdigit (c : byte) : bool :=
  let v := Mem.byte_val c in
  (48 <=? v) && (v <=? 57).

(** The loop of [strip]: [len] is the value of the variable before the
    test [len-- > 0]. *)
Fixpoint strip_loop (len : nat) (s : list byte) : list byte :=
  match len with
  | O => s
  | S len' =>
      match s !! len' with
      | Some c =>
          if negb (isascii c) || negb (isspace c) then s
          else strip_loop len' (<[len' := Byte.x00]> s)
      | None => s
      end
  end.

(** [strip]: the buffer afterwards. *)
Definition strip (s : list byte) : list byte :=
  let len := CInt.to_int (Z.of_nat (Mem.strlen s)) in
  strip_loop (Z.to_nat len) s.

(** The value of a digit of [strtol], letters counting from 10. *)
Definition digit_value (c : byte) : option Z :=
  let v := Mem.byte_val c in
  if (48 <=? v) && (v <=? 57) then Some (v - 48)
  else if (97 <=? v) && (v <=? 122) then Some (v - 87)
  else if (65 <=? v) && (v <=? 90) then Some (v - 55)
  else None.

(** The digits of [strtol] in a base: the number they denote after [acc],
    and how many there are. *)
Fixpoint strtol_digits (base : Z) (s : list byte) (acc : Z) : Z * nat :=
  match s with
  | [] => (acc, O)
  | c :: s' =>
      match digit_value c with
      | Some d =>
          if d <? base
          then let '(v, n) := strtol_digits base s' (acc * base + d) in (v, S n)
          else (acc, O)
      | None => (acc, O)
      end
  end.

Fixpoint skip_space (s : list byte) : nat :=
  match s with
  | c :: s' => if isspace c then S (skip_space s') else O
  | [] => O
  end.

Definition LONG_MAX : Z := 2 ^ 63 - 1.
Definition LONG_MIN : Z := - 2 ^ 63.

(** [strtol(s, &e, 0)] of the C library, on a host whose [long] has 64
    bits: the number and the length [e - s] of the text converted (zero
    when there is no number to convert).  White space is skipped, a sign
    is taken, 0x or 0X before a hexadecimal digit selects base 16, another
    leading 0 base 8, and a number out of range is clamped. *)
Definition strtol (s : list byte) : Z * nat :=
  let ws := skip_space s in
  let s1 := drop ws s in
  let '(neg, sg) :=
    match s1 with
    | c :: _ =>
        if Byte.eqb c Byte.x2d then (true, 1%nat)
        else if Byte.eqb c Byte.x2b then (false, 1%nat)
        else (false, O)
    | [] => (false, O)
    end in
  let s2 := drop sg s1 in
  let '(base, pre) :=
    match s2 with
    | c0 :: x :: h :: _ =>
        if Byte.eqb c0 Byte.x30 then
          if (Byte.eqb x Byte.x78 || Byte.eqb x Byte.x58) &&
             match digit_value h with Some d => d <? 16 | None => false end
          then (16, 2%nat)
          else (8, O)
        else (10, O)
    | c0 :: _ => if Byte.eqb c0 Byte.x30 then (8, O) else (10, O)
    | [] => (10, O)
    end in
  let '(v, n) := strtol_digits base (drop pre s2) 0 in
  match n with
  | O => (0, O)
  | S _ =>
      let v := if neg : bool then - v else v in
      (Z.max LONG_MIN (Z.min LONG_MAX v), (ws + sg + pre + n)%nat)
  end.

(** *** Overriding properties from a list *)

(** The loop of [override_properties_from_list]: [pos] is the offset of
    the pointer [s] into the list.  One step of the recursion is one turn
    of the loop; the result tells that the loop came to its end within
    [fuel] turns.  After a number the pointer stands behind its text, a
    minus sign without a number leaving it where it is.  A property index
    beyond SYS_PROP_MAX ends the loop ("Too many fields"). *)
Fixpoint override_loop (fuel : nat) (s : list byte) (pos i : nat)
    (wait_comma : bool) : M bool :=
  match fuel with
  | O => mret false
  | S fuel' =>
      match s !! pos with
      | None => mret true
      | Some c =>
          if Byte.eqb c Byte.x00 then mret true
          else
            let i :=
              if Byte.eqb c Byte.x2c && negb wait_comma then S i else i in
            let wait_comma :=
              if Byte.eqb c Byte.x2c then false else wait_comma in
            if negb (isascii c) || negb (isdigit c || Byte.eqb c Byte.x2d)
            then override_loop fuel' s (S pos) i wait_comma
            else
              match all_system_properties !! i with
              | None => mret true
              | Some p =>
                  let '(v, n) := strtol (drop pos s) in
                  override_system_property p (CInt.to_int v);;
                  override_loop fuel' s (pos + n) (S i) true
              end
      end
  end.

(** [override_properties_from_list].  Seven turns for every byte of the
    list are enough for the loop, as is proved below. *)
Definition override_properties_from_list (override_list : list byte) : M bool :=
  override_loop (7 * (length override_list + 1)) override_list 0 0 false.

(** *** Quirk settings *)

Definition set_quirks (f : quirk_types -> quirk_entry) (c : updater_config) :
    updater_config :=
  {| image := image c; image_current := image_current c;
     ec_image := ec_image c; pd_image := pd_image c;
     system_properties := system_properties c; quirks := f;
     tempfiles := tempfiles c;
     try_update := try_update c; force_update := force_update c;
     legacy_update := legacy_update c; verbosity := verbosity c;
     emulation := emulation c |}.

(** The entries of [cfg->quirks], in the order of [enum quirk_types]. *)
Definition all_quirks : list quirk_types :=
  [QUIRK_ENLARGE_IMAGE; QUIRK_MIN_PLATFORM_VERSION;
   QUIRK_UNLOCK_ME_FOR_UPDATE; QUIRK_DAISY_SNOW_DUAL_MODEL;
   QUIRK_EVE_SMM_STORE].

(** The delimiters ", " given to [strtok]. *)
Definition is_delimiter (c : byte) : bool :=
  Byte.eqb c Byte.x2c || Byte.eqb c Byte.x20.

(** [strtok] on a text without NUL.  The delimiters before the token are
    skipped; the token runs up to the next delimiter, which is overwritten
    with NUL and behind which the next call goes on; a token that ends
    with the text leaves the empty text to the next call. *)
Fixpoint strtok_skip (s : list byte) : list byte :=
  match s with
  | c :: s' => if is_delimiter c then strtok_skip s' else s
  | [] => []
  end.

Fixpoint strtok_token (s : list byte) : list byte * list byte :=
  match s with
  | c :: s' =>
      if is_delimiter c then ([], s')
      else let '(token, next) := strtok_token s' in (c :: token, next)
  | [] => ([], [])
  end.

(** [strtok]: the token and the text left to the next call; [None] is
    NULL. *)
Definition strtok (s : list byte) : option (list byte * list byte) :=
  match strtok_skip s with
  | [] => None
  | s1 => Some (strtok_token s1)
  end.

(** [strchr(token, '=')], as the index of the first equals sign. *)
Fixpoint strchr_equ (s : list byte) : option nat :=
  match s with
  | c :: s' => if Byte.eqb c Byte.x3d then Some O else S <$> strchr_equ s'
  | [] => None
  end.

(** [strcmp] on texts without NUL: the end of a text compares as the NUL
    that terminates it. *)
Fixpoint strcmp (s1 s2 : list byte) : Z :=
  match s1, s2 with
  | [], [] => 0
  | [], c :: _ => - Mem.byte_val c
  | c :: _, [] => Mem.byte_val c
  | c1 :: s1', c2 :: s2' =>
      if Byte.eqb c1 c2 then strcmp s1' s2'
      else Mem.byte_val c1 - Mem.byte_val c2
  end.

(** The inner loop of [setup_config_quirks]: the first entry whose name
    is [name]. *)
Fixpoint find_quirk_entry (name : list byte) (entries : list quirk_types)
    (c : updater_config) : option quirk_types :=
  match entries with
  | [] => None
  | q :: entries' =>
      if decide (strcmp name (list_byte_of_string (quirk_name (quirks c q)))
                   <> 0)
      then find_quirk_entry name entries' c
      else Some q
  end.

(** The outer loop of [setup_config_quirks]: [buf] is the text [strtok]
    goes on with and [r] the number of unknown names so far.  One step of
    the recursion is one turn of the loop; [None] tells that [fuel] turns
    were not enough. *)
Fixpoint setup_config_quirks_loop (fuel : nat) (buf : list byte) (r : Z) :
    M (option Z) :=
  match fuel with
  | O => mret None
  | S fuel' =>
      match strtok buf with
      | None => mret (Some r)
      | Some (token, next) =>
          let '(name, v) :=
            match strchr_equ token with
            | Some equ =>
                (take equ token,
                 CInt.to_int (strtol (drop (S equ) token)).1)
            | None => (token, 1)
            end in
          c ← get_cfg;
          match find_quirk_entry name all_quirks c with
          | Some q =>
              let entry := quirks c q in
              modify_cfg (set_quirks
                (<[q := {| quirk_name := quirk_name entry;
                           quirk_help := quirk_help entry;
                           quirk_value := v |}]> (quirks c)));;
              setup_config_quirks_loop fuel' next r
          | None => setup_config_quirks_loop fuel' next (r + 1)
          end
      end
  end.

(** [setup_config_quirks]: the list is copied up to its NUL.  One turn
    for every byte of the copy and one more are enough for the loop, as is
    proved below. *)
Definition setup_config_quirks (quirk_list : list byte) : M (option Z) :=
  let buf := take (Mem.strlen quirk_list) quirk_list in
  setup_config_quirks_loop (length buf + 1) buf 0.

(** ** Vocabulary for whole runs *)

(** The temporary files a trace created, oldest first. *)
Fixpoint created (tr : list event) : list string :=
  match tr with
  | [] => []
  | EvTempFile (Some path) :: tr' => path :: created tr'
  | _ :: tr' => created tr'
  end.

(** What an event may be: a flashrom write or a change of a system
    property only if [hw] allows the hardware to be touched, a call of
    [write_firmware] only for a section that [sections] admits. *)
Definition event_ok (hw : bool) (sections : option string -> Prop) (e : event)
  : Prop :=
  match e with
  | EvFlashrom FLASHROM_WRITE _ _ _ _ => hw = true
  | EvSetPropertyInt _ _ _ => hw = true
  | EvSetPropertyString _ _ _ => hw = true
  | EvWriteFirmware _ section_name _ => sections section_name
  | _ => True
  end.


(** No quirk is switched on. *)
Definition quirks_off (c : updater_config) : Prop :=
  forall q, quirk_value (quirks c q) = 0.

(** [run_rel P s s'] relates the state before and after a part of a run
    that keeps the switches, the quirk table and every property value of
    the configuration, adds only events that satisfy [P] to the trace, and
    registers every temporary file it creates (newest first) in
    [cfg->tempfiles].  The images may change. *)
Record run_rel (P : event -> Prop) (s s' : state) : Prop := {
  rr_emulation : emulation (st_cfg s') = emulation (st_cfg s);
  rr_quirks : quirks (st_cfg s') = quirks (st_cfg s);
  rr_try_update : try_update (st_cfg s') = try_update (st_cfg s);
  rr_force_update : force_update (st_cfg s') = force_update (st_cfg s);
  rr_legacy_update : legacy_update (st_cfg s') = legacy_update (st_cfg s);
  rr_debugging : debugging_enabled s' = debugging_enabled s;
  rr_host : w_host (st_world s') = w_host (st_world s);
  rr_props : forall q, property_value q s' = property_value q s;
  rr_trace : exists evs,
    w_trace (st_world s') = w_trace (st_world s) ++ evs /\
    Forall P evs /\
    tempfiles (st_cfg s') = rev (created evs) ++ tempfiles (st_cfg s);
}.

(** The section [decide_rw_target] names, as a function of the active
    slot. *)
Definition rw_target (slot : Z) (target : target_type) (is_vboot2 : Z)
  : option string :=
  if decide (is_vboot2 = 0) then
    Some (if decide (target = TARGET_UPDATE)
          then FMAP_RW_SECTION_B else FMAP_RW_SECTION_A)
  else if decide (slot = SLOT_A) then
    Some (if decide (target = TARGET_UPDATE)
          then FMAP_RW_SECTION_B else FMAP_RW_SECTION_A)
  else if decide (slot = SLOT_B) then
    Some (if decide (target = TARGET_UPDATE)
          then FMAP_RW_SECTION_A else FMAP_RW_SECTION_B)
  else None.

(** The write protection state, as a function of the two switches. *)
Definition wp_state (wp_hw wp_sw : Z) : Z :=
  if decide (wp_hw = WP_DISABLED) then WP_DISABLED
  else if decide (wp_sw = WP_DISABLED) then WP_DISABLED else WP_ENABLED.

(** A computation that, started with the quirks off, the emulation switch
    at [emu] and the system properties at the values [pv], stays within
    [run_rel]. *)
Definition steady (emu : option string) (pv : system_property_type -> Z)
    (P : event -> Prop) {A} (m : M A) : Prop :=
  forall s, quirks_off (st_cfg s) -> emulation (st_cfg s) = emu ->
    (forall q, property_value q s = pv q) ->
    run_rel P s (m s).2.

(** Two images that differ at most in the bytes of the buffer: the same
    programmer, names, versions and FMAP, a buffer of the same length, and
    a buffer at all in both or in none. *)
Definition same_layout (i i' : firmware_image) : Prop :=
  programmer i' = programmer i /\
  file_name i' = file_name i /\
  ro_version i' = ro_version i /\
  rw_version_a i' = rw_version_a i /\
  rw_version_b i' = rw_version_b i /\
  fmap_header i' = fmap_header i /\
  image_size i' = image_size i /\
  (is_Some (data i') <-> is_Some (data i)).

(** The state after a computation that changed the candidate image at
    most, and of that only the bytes. *)
Definition bytes_only (s s' : state) : Prop :=
  exists img, s' = with_image img s /\ same_layout (image (st_cfg s)) img.

(** The calls of [write_firmware] in a trace with the programmer they
    went to: ((programmer, section), value returned), oldest first. *)
Fixpoint firmware_writes_by (tr : list event)
  : list ((string * option string) * Z) :=
  match tr with
  | [] => []
  | EvWriteFirmware prog section_name status :: tr' =>
      ((prog, section_name), status) :: firmware_writes_by tr'
  | _ :: tr' => firmware_writes_by tr'
  end.

(** A sequence of writes that stops at the first failure, for writes
    identified by a key of any kind. *)
Definition stops_at_first_failure_by {K} (expected : list K)
    (writes : list (K * Z)) (r : updater_error_codes) : Prop :=
  (r = UPDATE_ERR_DONE /\ writes.*1 = expected /\
   Forall (fun w => w.2 = 0) writes) \/
  (r = UPDATE_ERR_WRITE_FIRMWARE /\
   exists done failed,
     writes = done ++ [failed] /\ failed.2 <> 0 /\
     Forall (fun w => w.2 = 0) done /\ writes.*1 `prefix_of` expected).

(** The images the full update writes, in order: the candidate, then the
    EC and PD images that are loaded; each as a whole. *)
Definition whole_images (c : updater_config) : list (string * option string) :=
  [(programmer (image c), None)] ++
  (match data (ec_image c) with
   | Some _ => [(programmer (ec_image c), None)]
   | None => []
   end) ++
  (match data (pd_image c) with
   | Some _ => [(programmer (pd_image c), None)]
   | None => []
   end).

(** [logs_by ws s s']: from [s] to [s'] the trace grew by events whose
    calls of [write_firmware] are [ws]. *)
Definition logs_by (ws : list ((string * option string) * Z)) (s s' : state)
  : Prop :=
  exists evs,
    w_trace (st_world s') = w_trace (st_world s) ++ evs /\
    firmware_writes_by evs = ws.

(** A configuration from which [update_firmware] reaches the choice of its
    strategy, whatever the mode: both images are loaded, no quirk is
    switched on, and the platforms match. *)
Definition loaded (s : state) : Prop :=
  is_Some (data (image (st_cfg s))) /\
  is_Some (data (image_current (st_cfg s))) /\
  quirks_off (st_cfg s) /\
  (check_compatible_platform s).1 = 0.

(** The text of a buffer: the bytes before the first NUL. *)
Definition c_string (s : list byte) : list byte := take (Mem.strlen s) s.

(** A character that [strip] removes at the end of a text. *)
Definition ascii_space (c : byte) : bool := isascii c && isspace c.

(** From [s] to [s'] nothing but the property cache changed, and of that
    only values: every entry keeps its getter and is either as before or
    initialized. *)
Definition cache_only (s s' : state) : Prop :=
  st_world s' = st_world s /\
  debugging_enabled s' = debugging_enabled s /\
  (exists props, st_cfg s' = set_system_properties props (st_cfg s)) /\
  forall p,
    getter (system_properties (st_cfg s') p) =
      getter (system_properties (st_cfg s) p) /\
    (system_properties (st_cfg s') p = system_properties (st_cfg s) p \/
     initialized (system_properties (st_cfg s') p) = 1).

(** Decimal numerals: digits without a leading zero, the numeral 0
    apart. *)
Definition decimal_value (digits : list byte) : Z :=
  fold_left (fun acc c => acc * 10 + (Mem.byte_val c - 48)) digits 0.

Definition numeral (digits : list byte) : Prop :=
  digits <> [] /\
  Forall (fun c => isdigit c = true) digits /\
  (forall rest, digits = Byte.x30 :: rest -> rest = []).

(** A field of a list of integers: a sign and a numeral. *)
Definition field_text (f : bool * list byte) : list byte :=
  (if f.1 then [Byte.x2d] else []) ++ f.2.

Definition field_value (f : bool * list byte) : Z :=
  if f.1 then - decimal_value f.2 else decimal_value f.2.

(** The fields with a separator between them. *)
Fixpoint join (sep : byte) (fields : list (list byte)) : list byte :=
  match fields with
  | [] => []
  | [f] => f
  | f :: rest => f ++ sep :: join sep rest
  end.

(** What a computation that only sets quirks leaves alone: all but the
    values of the quirk table. *)
Definition quirks_only (s s' : state) : Prop :=
  st_world s' = st_world s /\
  debugging_enabled s' = debugging_enabled s /\
  (exists f, st_cfg s' = set_quirks f (st_cfg s)) /\
  forall q,
    quirk_name (quirks (st_cfg s') q) = quirk_name (quirks (st_cfg s) q) /\
    quirk_help (quirks (st_cfg s') q) = quirk_help (quirks (st_cfg s) q).

(** A setting of a list of quirks: a name and, if one is given, a
    value. *)
Definition setting_text (x : list byte * option (bool * list byte)) :
    list byte :=
  x.1 ++ match x.2 with
         | Some f => Byte.x3d :: field_text f
         | None => []
         end.

Definition setting_value (x : list byte * option (bool * list byte)) : Z :=
  match x.2 with
  | Some f => field_value f
  | None => 1
  end.

(** A name that can stand in a list of quirks: not empty, and free of
    NUL, the delimiters and the equals sign. *)
Definition setting_name (name : list byte) : Prop :=
  name <> [] /\
  Forall (fun c => c <> Byte.x00 /\ is_delimiter c = false /\
                   c <> Byte.x3d) name.

Definition setting_ok (x : list byte * option (bool * list byte)) : Prop :=
  setting_name x.1 /\
  match x.2 with
  | Some f => numeral f.2 /\ CInt.int_range (field_value f)
  | None => True
  end.

(** The value a list of settings gives to the quirk [q]: that of the last
    setting whose name finds [q], or [v] if there is none. *)
Definition quirk_setting (c : updater_config)
    (settings : list (list byte * option (bool * list byte)))
    (q : quirk_types) (v : Z) : Z :=
  fold_left
    (fun v x =>
       if decide (find_quirk_entry x.1 all_quirks c = Some q)
       then setting_value x else v)
    settings v.

(** The settings whose name finds no quirk. *)
Definition unknown_settings (c : updater_config)
    (settings : list (list byte * option (bool * list byte))) :
    list (list byte * option (bool * list byte)) :=
  filter (fun x => find_quirk_entry x.1 all_quirks c = None) settings.

(** A quirk table for examples: a name for every quirk, all values 0. *)
Definition example_quirks (q : quirk_types) : quirk_entry :=
  {| quirk_name :=
       match q with
       | QUIRK_ENLARGE_IMAGE => "enlarge_image"
       | QUIRK_MIN_PLATFORM_VERSION => "min_platform_version"
       | QUIRK_UNLOCK_ME_FOR_UPDATE => "unlock_me_for_update"
       | QUIRK_DAISY_SNOW_DUAL_MODEL => "daisy_snow_dual_model"
       | QUIRK_EVE_SMM_STORE => "eve_smm_store"
       end;
     quirk_help := None; quirk_value := 0 |}.

(** A small image for examples: a flash descriptor of four bytes [desc]
    and a management engine section of four bytes [me]. *)
Definition example_me_image (desc me : byte) : firmware_image :=
  {| programmer := PROG_HOST;
     data := Some (replicate 4 desc ++ replicate 4 me);
     file_name := "me.bin";
     ro_version := ""; rw_version_a := ""; rw_version_b := "";
     fmap_header :=
       Some [{| area_name := FMAP_SI_DESC; area_offset := 0;
                area_size := 4 |};
             {| area_name := FMAP_SI_ME; area_offset := 4;
                area_size := 4 |}] |}.

(** An event that is the call of a property getter. *)
Definition getter_event (e : event) : Prop :=
  match e with
  | EvGetter _ => True
  | _ => False
  end.

(** From [s] to [s'] the host and the files stayed as they were and the
    trace grew by calls of property getters only: nothing was written, no
    file was made, no program was run and no system property was set. *)
Definition reads_only (s s' : state) : Prop :=
  w_host (st_world s') = w_host (st_world s) /\
  w_files (st_world s') = w_files (st_world s) /\
  exists evs,
    w_trace (st_world s') = w_trace (st_world s) ++ evs /\
    Forall getter_event evs.

(** A computation that reads properties at most, whatever it returns. *)
Definition reading {A} (m : M A) : Prop := forall s, reads_only s (m s).2.

(** * Properties *)

(** ** C integers *)

Module CIntFacts.
Import CInt.

Lemma to_int_id z : int_range z -> to_int z = z.
Proof.
  unfold int_range, to_int. intros H.
  rewrite Z.mod_small by lia. lia.
Qed.

Lemma to_u32_id z : u32_range z -> to_u32 z = z.
Proof. unfold u32_range, to_u32. intros H. apply Z.mod_small. lia. Qed.

Lemma to_int_nonzero z : - 2 ^ 32 < z < 2 ^ 32 -> z <> 0 -> to_int z <> 0.
Proof.
  unfold to_int. intros Hr Hz.
  destruct (Z_lt_le_dec z (- 2 ^ 31)).
  - replace (z + 2 ^ 31) with ((z + 2 ^ 31 + 2 ^ 32) - 1 * 2 ^ 32) by lia.
    rewrite Zminus_mod, Z_mod_mult, Z.sub_0_r, Z.mod_mod by lia.
    rewrite Z.mod_small by lia. lia.
  - destruct (Z_lt_le_dec z (2 ^ 31)).
    + rewrite Z.mod_small by lia. lia.
    + replace (z + 2 ^ 31) with ((z + 2 ^ 31 - 2 ^ 32) + 1 * 2 ^ 32) by lia.
      rewrite Z_mod_plus_full, Z.mod_small by lia. lia.
Qed.

End CIntFacts.

(** ** The property cache *)

Section PropertyCache.

Implicit Types (p q : system_property_type) (s : state).

Lemma get_system_property_cached p s :
  initialized (system_properties (st_cfg s) p) <> 0 ->
  get_system_property p s = (value (system_properties (st_cfg s) p), s).
Proof.
  intros Hi. unfold get_system_property, mbind, M_bind, get_cfg. simpl.
  destruct (decide _) as [H0|_]; [contradiction|reflexivity].
Qed.

Lemma get_system_property_fresh p s :
  initialized (system_properties (st_cfg s) p) = 0 ->
  get_system_property p s =
    (getter (system_properties (st_cfg s) p) (w_host (st_world s)),
     {| st_cfg :=
          set_system_properties
            (<[p := {| getter := getter (system_properties (st_cfg s) p);
                       value := getter (system_properties (st_cfg s) p)
                                  (w_host (st_world s));
                       initialized := 1 |}]> (system_properties (st_cfg s)))
            (st_cfg s);
        st_world := log (EvGetter p) (st_world s);
        debugging_enabled := debugging_enabled s |}).
Proof.
  intros Hi. unfold get_system_property, mbind, M_bind, get_cfg. simpl.
  destruct (decide _) as [_|H0]; [reflexivity|contradiction].
Qed.

Lemma get_system_property_value p s :
  (get_system_property p s).1 = property_value p s.
Proof.
  unfold property_value.
  destruct (decide (initialized (system_properties (st_cfg s) p) = 0)) as [H|H].
  - rewrite get_system_property_fresh by exact H. reflexivity.
  - rewrite get_system_property_cached by exact H. reflexivity.
Qed.

Lemma get_system_property_initialized p s :
  initialized (system_properties (st_cfg (get_system_property p s).2) p) <> 0.
Proof.
  destruct (decide (initialized (system_properties (st_cfg s) p) = 0)) as [H|H].
  - rewrite get_system_property_fresh by exact H. simpl.
    rewrite fn_lookup_insert. simpl. discriminate.
  - rewrite get_system_property_cached by exact H. exact H.
Qed.

Lemma get_system_property_keeps p q s :
  property_value q (get_system_property p s).2 = property_value q s.
Proof.
  unfold property_value.
  destruct (decide (initialized (system_properties (st_cfg s) p) = 0)) as [H|H].
  - rewrite get_system_property_fresh by exact H. simpl.
    destruct (decide (p = q)) as [->|Hpq].
    + rewrite fn_lookup_insert. simpl.
      destruct (decide (1 = 0)); [discriminate|].
      destruct (decide _); [reflexivity|contradiction].
    + rewrite fn_lookup_insert_ne by exact Hpq. reflexivity.
  - rewrite get_system_property_cached by exact H. reflexivity.
Qed.

Lemma get_system_property_cfg p s :
  let c := st_cfg s in
  let c' := st_cfg (get_system_property p s).2 in
  image c' = image c /\ image_current c' = image_current c /\
  ec_image c' = ec_image c /\ pd_image c' = pd_image c /\
  quirks c' = quirks c /\ tempfiles c' = tempfiles c /\
  try_update c' = try_update c /\ force_update c' = force_update c /\
  legacy_update c' = legacy_update c /\ verbosity c' = verbosity c /\
  emulation c' = emulation c.
Proof.
  simpl.
  destruct (decide (initialized (system_properties (st_cfg s) p) = 0)) as [H|H].
  - rewrite get_system_property_fresh by exact H. simpl. repeat split.
  - rewrite get_system_property_cached by exact H. repeat split.
Qed.

Lemma get_system_property_world p s :
  let w := st_world s in
  let w' := st_world (get_system_property p s).2 in
  w_host w' = w_host w /\ w_files w' = w_files w /\
  firmware_writes (w_trace w') = firmware_writes (w_trace w).
Proof.
  simpl.
  destruct (decide (initialized (system_properties (st_cfg s) p) = 0)) as [H|H].
  - rewrite get_system_property_fresh by exact H. simpl. repeat split.
    induction (w_trace (st_world s)) as [|e tr IH]; simpl; [reflexivity|].
    destruct e; simpl; congruence.
  - rewrite get_system_property_cached by exact H. repeat split.
Qed.

End PropertyCache.

(** ** Running the monad *)

Lemma run_bind {A B} (m : M A) (f : A -> M B) (s : state) :
  (m ≫= f) s = f (m s).1 (m s).2.
Proof. unfold mbind, M_bind. destruct (m s); reflexivity. Qed.

Lemma run_ret {A} (a : A) (s : state) : (mret a : M A) s = (a, s).
Proof. reflexivity. Qed.

Lemma firmware_writes_app (tr1 tr2 : list event) :
  firmware_writes (tr1 ++ tr2) = firmware_writes tr1 ++ firmware_writes tr2.
Proof.
  induction tr1 as [|e tr1 IH]; simpl; [reflexivity|].
  destruct e; simpl; rewrite ?IH; reflexivity.
Qed.

Lemma getter_calls_app p (tr1 tr2 : list event) :
  getter_calls p (tr1 ++ tr2) = (getter_calls p tr1 + getter_calls p tr2)%nat.
Proof.
  induction tr1 as [|e tr1 IH]; simpl; [reflexivity|].
  destruct e; simpl; rewrite ?IH; try reflexivity.
  destruct (decide _); simpl; rewrite ?IH; reflexivity.
Qed.

Lemma new_events_app (s s' : state) (evs : list event) :
  w_trace (st_world s') = w_trace (st_world s) ++ evs ->
  new_events s s' = evs.
Proof. unfold new_events. intros ->. apply drop_app_length. Qed.

(** ** Frames *)

Lemma frame_refl s : frame [] s s.
Proof.
  split; try reflexivity.
  exists []. rewrite app_nil_r. split; reflexivity.
Qed.

Lemma frame_trans ws1 ws2 s s1 s2 :
  frame ws1 s s1 -> frame ws2 s1 s2 -> frame (ws1 ++ ws2) s s2.
Proof.
  intros [a1 a2 a3 a4 a5 a6 a7 a8 a9 a10 a11 a12 (e1 & H1 & <-)]
         [b1 b2 b3 b4 b5 b6 b7 b8 b9 b10 b11 b12 (e2 & H2 & <-)].
  split; [congruence.. | |].
  - intros q. rewrite b12. apply a12.
  - exists (e1 ++ e2). rewrite H2, H1, firmware_writes_app, app_assoc.
    split; reflexivity.
Qed.

Lemma frame_writes ws s s' :
  frame ws s s' -> firmware_writes (new_events s s') = ws.
Proof.
  intros [_ _ _ _ _ _ _ _ _ _ _ _ (evs & H & <-)].
  rewrite (new_events_app _ _ _ H). reflexivity.
Qed.

Lemma quiet_ret {A} (a : A) : quiet (mret a : M A).
Proof. intros s. apply frame_refl. Qed.

Lemma quiet_bind {A B} (m : M A) (f : A -> M B) :
  quiet m -> (forall a, quiet (f a)) -> quiet (m ≫= f).
Proof.
  intros Hm Hf s. rewrite run_bind.
  exact (frame_trans [] [] _ _ _ (Hm s) (Hf _ _)).
Qed.

Lemma quiet_get_cfg : quiet get_cfg.
Proof. intros s. apply frame_refl. Qed.

Lemma quiet_get_world : quiet get_world.
Proof. intros s. apply frame_refl. Qed.

Lemma quiet_emit (e : event) :
  firmware_writes [e] = [] -> quiet (emit e).
Proof.
  intros He s. split; try reflexivity.
  exists [e]. split; [reflexivity|exact He].
Qed.

Lemma quiet_put_file path d : quiet (modify_world (put_file path d)).
Proof.
  intros s. split; try reflexivity.
  exists []. simpl. rewrite app_nil_r. split; reflexivity.
Qed.

Lemma quiet_set_tempfiles t : quiet (modify_cfg (set_tempfiles t)).
Proof.
  intros s. split; try reflexivity.
  exists []. simpl. rewrite app_nil_r. split; reflexivity.
Qed.

Lemma get_system_property_trace p s :
  w_trace (st_world (get_system_property p s).2) =
  w_trace (st_world s) ++
    (if decide (initialized (system_properties (st_cfg s) p) = 0)
     then [EvGetter p] else []).
Proof.
  destruct (decide _) as [H|H].
  - rewrite get_system_property_fresh by exact H. reflexivity.
  - rewrite get_system_property_cached by exact H. simpl.
    rewrite app_nil_r. reflexivity.
Qed.

Lemma quiet_get_system_property p : quiet (get_system_property p).
Proof.
  intros s.
  pose proof (get_system_property_cfg p s) as Hc. simpl in Hc.
  pose proof (get_system_property_world p s) as Hw. simpl in Hw.
  split; try tauto.
  - destruct (decide (initialized (system_properties (st_cfg s) p) = 0)) as [H|H].
    + rewrite get_system_property_fresh by exact H. reflexivity.
    + rewrite get_system_property_cached by exact H. reflexivity.
  - intros q. apply get_system_property_keeps.
  - eexists. split; [apply get_system_property_trace|].
    destruct (decide _); reflexivity.
Qed.

Create HintDb quiet.

#[local] Hint Resolve quiet_ret quiet_get_cfg quiet_get_world quiet_put_file
  quiet_set_tempfiles quiet_get_system_property : quiet.

(** Splits a computation along its binds and case distinctions. *)
Ltac quiet_step :=
  lazymatch goal with
  | |- quiet (_ ≫= _) => apply quiet_bind; [|intros]
  | |- quiet (mret _) => apply quiet_ret
  | |- quiet (emit _) => apply quiet_emit; reflexivity
  | |- quiet (match ?x with _ => _ end) => destruct x
  | |- quiet (let '(_, _) := ?x in _) => destruct x
  | |- quiet _ => solve [auto with quiet]
  end.

Ltac quiet_solve := repeat quiet_step.

Section QuietUpdater.

Context {L : vb2_struct} {V : vboot_lib} {E : environment} {Q : quirk_table}.

Lemma quiet_updater_create_temp_file : quiet updater_create_temp_file.
Proof. unfold updater_create_temp_file. quiet_solve. Qed.

Lemma quiet_vb2_write_file path d : quiet (vb2_write_file path d).
Proof. unfold vb2_write_file. quiet_solve. Qed.

Lemma quiet_host_flashrom op path prog sec : quiet (host_flashrom op path prog sec).
Proof. unfold host_flashrom. quiet_solve. Qed.

Hint Resolve quiet_updater_create_temp_file quiet_vb2_write_file
  quiet_host_flashrom : quiet.

Lemma quiet_emulate_write_firmware filename image sec :
  quiet (emulate_write_firmware filename image sec).
Proof. unfold emulate_write_firmware. quiet_solve. Qed.

Hint Resolve quiet_emulate_write_firmware : quiet.

Lemma quiet_write_firmware_body image sec : quiet (write_firmware_body image sec).
Proof. unfold write_firmware_body. quiet_solve. Qed.

Lemma quiet_cbfs_file_exists f sec entry : quiet (cbfs_file_exists f sec entry).
Proof. unfold cbfs_file_exists. quiet_solve. Qed.

Hint Resolve quiet_write_firmware_body quiet_cbfs_file_exists : quiet.

Lemma quiet_legacy_needs_update : quiet legacy_needs_update.
Proof. unfold legacy_needs_update. quiet_solve. Qed.

Lemma quiet_do_check_compatible_tpm_keys image :
  quiet (do_check_compatible_tpm_keys image).
Proof. unfold do_check_compatible_tpm_keys. quiet_solve. Qed.

Hint Resolve quiet_do_check_compatible_tpm_keys : quiet.

Lemma quiet_check_compatible_tpm_keys image :
  quiet (check_compatible_tpm_keys image).
Proof. unfold check_compatible_tpm_keys. quiet_solve. Qed.

Lemma quiet_decide_rw_target target is_vboot2 :
  quiet (decide_rw_target target is_vboot2).
Proof. unfold decide_rw_target. quiet_solve. Qed.

Lemma quiet_is_write_protection_enabled : quiet is_write_protection_enabled.
Proof. unfold is_write_protection_enabled. quiet_solve. Qed.

Lemma quiet_set_try_cookies target is_vboot2 :
  quiet (set_try_cookies target is_vboot2).
Proof. unfold set_try_cookies. quiet_solve. Qed.

Lemma quiet_check_compatible_platform : quiet check_compatible_platform.
Proof. unfold check_compatible_platform. quiet_solve. Qed.

(** [write_firmware] adds one call to the log, with the value it returns. *)
Lemma frame_write_firmware image sec s :
  frame [(sec, (write_firmware image sec s).1)] s (write_firmware image sec s).2.
Proof.
  unfold write_firmware. rewrite run_bind.
  pose proof (quiet_write_firmware_body image sec s) as Hb.
  destruct (write_firmware_body image sec s) as [r s1]. simpl in *.
  apply (frame_trans [] [(sec, r)] _ _ _ Hb).
  split; try reflexivity.
  exists [EvWriteFirmware (programmer image) sec r]. split; reflexivity.
Qed.

End QuietUpdater.

(** ** Byte buffers *)

Module MemFacts.
Import Mem.

Lemma length_write_bytes (d : list byte) off bs :
  length (write_bytes d off bs) = length d.
Proof.
  unfold write_bytes.
  rewrite !length_app, !length_take, length_drop. lia.
Qed.

Lemma write_bytes_in_bounds (d : list byte) off bs :
  (off + length bs <= length d)%nat ->
  write_bytes d off bs = take off d ++ bs ++ drop (off + length bs) d.
Proof.
  intros H. unfold write_bytes. rewrite (take_ge bs) by lia. reflexivity.
Qed.

Lemma lookup_write_bytes_lt (d : list byte) off bs j :
  (j < off)%nat -> write_bytes d off bs !! j = d !! j.
Proof.
  intros H. unfold write_bytes.
  destruct (decide (j < length d)%nat) as [Hj|Hj].
  - rewrite lookup_app_l by (rewrite length_take; lia).
    apply lookup_take_lt. exact H.
  - rewrite (lookup_ge_None_2 d) by lia.
    apply lookup_ge_None_2.
    rewrite !length_app, !length_take, length_drop. lia.
Qed.

Lemma lookup_write_bytes_ge (d : list byte) off bs j :
  (off + length bs <= j)%nat -> write_bytes d off bs !! j = d !! j.
Proof.
  intros H.
  destruct (decide (j < length d)%nat) as [Hj|Hj].
  - rewrite write_bytes_in_bounds by lia.
    rewrite lookup_app_r by (rewrite length_take; lia).
    rewrite length_take, Nat.min_l by lia.
    rewrite lookup_app_r by lia.
    rewrite lookup_drop. f_equal. lia.
  - rewrite (lookup_ge_None_2 d) by lia.
    apply lookup_ge_None_2. rewrite length_write_bytes. lia.
Qed.

Lemma lookup_write_bytes_in (d : list byte) off bs i :
  (off + length bs <= length d)%nat -> (i < length bs)%nat ->
  write_bytes d off bs !! (off + i)%nat = bs !! i.
Proof.
  intros H Hi. rewrite write_bytes_in_bounds by exact H.
  rewrite lookup_app_r by (rewrite length_take; lia).
  rewrite length_take, Nat.min_l by lia.
  rewrite lookup_app_l by lia. f_equal. lia.
Qed.

Lemma length_read_bytes (d : list byte) off n :
  length (read_bytes d off n) = Nat.min n (length d - off).
Proof. unfold read_bytes. rewrite length_take, length_drop. reflexivity. Qed.

Lemma lookup_read_bytes (d : list byte) off n i :
  (i < n)%nat -> read_bytes d off n !! i = d !! (off + i)%nat.
Proof.
  intros H. unfold read_bytes. rewrite lookup_take_lt by exact H.
  apply lookup_drop.
Qed.

Lemma read_bytes_write_bytes_apart (d : list byte) off bs off' n :
  (off' + n <= off \/ off + length bs <= off')%nat ->
  read_bytes (write_bytes d off bs) off' n = read_bytes d off' n.
Proof.
  intros H. apply list_eq. intros i.
  destruct (decide (i < n)%nat) as [Hi|Hi].
  - rewrite !lookup_read_bytes by exact Hi.
    destruct H as [H|H].
    + apply lookup_write_bytes_lt. lia.
    + apply lookup_write_bytes_ge. lia.
  - unfold read_bytes. rewrite !lookup_take_ge by lia. reflexivity.
Qed.

Lemma read_bytes_write_bytes_same (d : list byte) off bs :
  (off + length bs <= length d)%nat ->
  read_bytes (write_bytes d off bs) off (length bs) = bs.
Proof.
  intros H. apply list_eq. intros i.
  destruct (decide (i < length bs)%nat) as [Hi|Hi].
  - rewrite lookup_read_bytes by exact Hi.
    apply lookup_write_bytes_in; assumption.
  - unfold read_bytes. rewrite lookup_take_ge by lia.
    symmetry. apply lookup_ge_None_2. lia.
Qed.

Lemma byte_val_range (b : byte) : 0 <= byte_val b < 256.
Proof.
  unfold byte_val. pose proof (Byte.to_N_bounded b). lia.
Qed.

Lemma byte_val_of_Z (z : Z) : byte_val (byte_of_Z z) = z mod 256.
Proof.
  unfold byte_val, byte_of_Z.
  pose proof (Z.mod_pos_bound z 256 ltac:(lia)) as Hz.
  destruct (Byte.of_N (Z.to_N (z mod 256))) as [b|] eqn:Hb.
  - apply Byte.to_of_N in Hb. rewrite Hb. lia.
  - apply Byte.of_N_None_iff in Hb. lia.
Qed.

Lemma le_combine_range (bs : list byte) :
  0 <= le_combine bs < 256 ^ Z.of_nat (length bs).
Proof.
  induction bs as [|b bs IH]; simpl le_combine; simpl length.
  - simpl. lia.
  - pose proof (byte_val_range b).
    rewrite Nat2Z.inj_succ, Z.pow_succ_r by lia. lia.
Qed.

Lemma length_le_split n v : length (le_split n v) = n.
Proof. revert v. induction n as [|n IH]; intros v; simpl; [|rewrite IH]; reflexivity. Qed.

Lemma le_combine_le_split n v :
  le_combine (le_split n v) = v mod 256 ^ Z.of_nat n.
Proof.
  revert v. induction n as [|n IH]; intros v.
  - simpl. rewrite Z.mod_1_r. reflexivity.
  - cbn [le_split le_combine]. rewrite IH, byte_val_of_Z.
    rewrite Nat2Z.inj_succ, Z.pow_succ_r by lia.
    rewrite Z.rem_mul_r by lia. reflexivity.
Qed.

Lemma read_u32_range (d : list byte) off : 0 <= read_u32 d off < 2 ^ 32.
Proof.
  unfold read_u32.
  pose proof (le_combine_range (read_bytes d off 4)) as H.
  rewrite length_read_bytes in H.
  assert (256 ^ Z.of_nat (Nat.min 4 (length d - off)) <= 256 ^ 4).
  { apply Z.pow_le_mono_r; lia. }
  change (2 ^ 32) with (256 ^ 4). lia.
Qed.

Lemma read_u32_write_u32_same (d : list byte) off v :
  (off + 4 <= length d)%nat -> 0 <= v < 2 ^ 32 ->
  read_u32 (write_u32 d off v) off = v.
Proof.
  intros H Hv. unfold read_u32, write_u32.
  rewrite <- (length_le_split 4 v) at 2.
  rewrite read_bytes_write_bytes_same by (rewrite length_le_split; exact H).
  rewrite le_combine_le_split. apply Z.mod_small.
  change (256 ^ Z.of_nat 4) with (2 ^ 32). exact Hv.
Qed.

Lemma read_u32_write_bytes_apart (d : list byte) off bs off' :
  (off' + 4 <= off \/ off + length bs <= off')%nat ->
  read_u32 (write_bytes d off bs) off' = read_u32 d off'.
Proof.
  intros H. unfold read_u32.
  rewrite read_bytes_write_bytes_apart by exact H. reflexivity.
Qed.

Lemma byte_val_inj (x y : byte) : byte_val x = byte_val y -> x = y.
Proof.
  unfold byte_val. intros H. apply N2Z.inj in H.
  pose proof (Byte.of_to_N x) as Hx. pose proof (Byte.of_to_N y) as Hy.
  congruence.
Qed.

Lemma memcmp_zero (a b : list byte) :
  length a = length b -> (memcmp a b = 0 <-> a = b).
Proof.
  revert b. induction a as [|x a IH]; intros [|y b]; simpl; try discriminate.
  - intros _. split; reflexivity.
  - intros [= Hl]. destruct (Byte.eqb x y) eqn:Hxy.
    + apply Byte.byte_dec_bl in Hxy. subst y. rewrite (IH b Hl).
      split; congruence.
    + split.
      * intros H. assert (Hv : byte_val x = byte_val y) by lia.
        apply byte_val_inj in Hv. subst y.
        rewrite Byte.byte_dec_lb in Hxy by reflexivity. discriminate.
      * intros [= -> _].
        rewrite Byte.byte_dec_lb in Hxy by reflexivity. discriminate.
Qed.

Lemma strlen_le (bs : list byte) : (strlen bs <= length bs)%nat.
Proof.
  induction bs as [|b bs IH]; simpl; [lia|].
  destruct (Byte.eqb b Byte.x00); lia.
Qed.

End MemFacts.

(** ** Sections of well-formed images *)

Lemma fmap_lookup_elem areas name a :
  fmap_lookup areas name = Some a -> a ∈ areas.
Proof.
  induction areas as [|x areas IH]; simpl; [discriminate|].
  destruct (String.eqb (area_name x) name).
  - intros [= ->]. left.
  - intros H. right. apply IH. exact H.
Qed.

Lemma find_firmware_section_in_bounds image name sec :
  wf_image image ->
  find_firmware_section image name = Some sec ->
  (sec_offset sec + sec_size sec <= image_size image)%nat /\
  Z.of_nat (sec_size sec) < 2 ^ 32.
Proof.
  intros Hwf. unfold find_firmware_section, fmap_find_by_name.
  destruct (data image) eqn:Hd; [|discriminate].
  destruct (fmap_header image) as [areas|] eqn:Hf; [|discriminate].
  destruct (fmap_lookup areas name) as [a|] eqn:Ha; [|discriminate].
  intros [= <-]. simpl.
  specialize (Hwf areas Hf).
  rewrite Forall_forall in Hwf.
  apply (Hwf a). apply fmap_lookup_elem with name. exact Ha.
Qed.

Lemma image_bytes_set_image_data image d :
  image_bytes (set_image_data image d) = d.
Proof. reflexivity. Qed.

Lemma section_in_bounds image name :
  wf_image image ->
  length (section_bytes image (find_firmware_section image name)) =
    section_size (find_firmware_section image name) /\
  Z.of_nat (section_size (find_firmware_section image name)) < 2 ^ 32.
Proof.
  intros Hwf.
  destruct (find_firmware_section image name) as [sec|] eqn:Hs; simpl.
  - destruct (find_firmware_section_in_bounds _ _ _ Hwf Hs) as [Hb Hz].
    unfold image_size in Hb. rewrite MemFacts.length_read_bytes.
    split; [lia|exact Hz].
  - split; [reflexivity|lia].
Qed.

(** ** Computations that only read properties *)

Lemma reads_only_refl s : reads_only s s.
Proof.
  split; [reflexivity|]. split; [reflexivity|].
  exists []. rewrite app_nil_r. split; [reflexivity|constructor].
Qed.

Lemma reads_only_trans s1 s2 s3 :
  reads_only s1 s2 -> reads_only s2 s3 -> reads_only s1 s3.
Proof.
  intros (A1 & B1 & e1 & H1 & G1) (A2 & B2 & e2 & H2 & G2).
  split; [congruence|]. split; [congruence|].
  exists (e1 ++ e2).
  rewrite H2, H1, app_assoc. split; [reflexivity|].
  apply Forall_app. split; assumption.
Qed.

Lemma reads_only_new_events s s' :
  reads_only s s' -> Forall getter_event (new_events s s').
Proof.
  intros (_ & _ & evs & H & G). rewrite (new_events_app _ _ _ H). exact G.
Qed.

Lemma reads_only_same_world s s' s'' :
  reads_only s s' -> st_world s'' = st_world s' -> reads_only s s''.
Proof. unfold reads_only. intros H ->. exact H. Qed.

Lemma reading_ret {A} (a : A) : reading (mret a : M A).
Proof. intros s. apply reads_only_refl. Qed.

Lemma reading_bind {A B} (m : M A) (f : A -> M B) :
  reading m -> (forall a, reading (f a)) -> reading (m ≫= f).
Proof.
  intros Hm Hf s. rewrite run_bind.
  exact (reads_only_trans _ _ _ (Hm s) (Hf _ _)).
Qed.

Lemma reading_get_cfg : reading get_cfg.
Proof. intros s. apply reads_only_refl. Qed.

Lemma reading_modify_cfg f : reading (modify_cfg f).
Proof.
  intros s. apply (reads_only_same_world s s); [apply reads_only_refl|].
  reflexivity.
Qed.

Lemma reading_get_system_property p : reading (get_system_property p).
Proof.
  intros s. destruct (get_system_property_world p s) as (Hh & Hf & _).
  split; [exact Hh|]. split; [exact Hf|].
  eexists. split; [apply get_system_property_trace|].
  destruct (decide _); repeat constructor.
Qed.

Create HintDb reading.

#[local] Hint Resolve reading_ret reading_get_cfg reading_modify_cfg
  reading_get_system_property : reading.

(** Splits a computation along its binds and case distinctions. *)
Ltac reading_step :=
  lazymatch goal with
  | |- reading (_ ≫= _) => apply reading_bind; [|intros]
  | |- reading (mret _) => apply reading_ret
  | |- reading (match ?x with _ => _ end) => destruct x
  | |- reading (let '(_, _) := ?x in _) => destruct x
  | |- reading _ => solve [auto with reading]
  end.

Ltac reading_solve := repeat reading_step.

Section ReadingUpdater.

Context {L : vb2_struct} {V : vboot_lib} {E : environment} {Q : quirk_table}.

Lemma reading_do_check_compatible_tpm_keys image :
  reading (do_check_compatible_tpm_keys image).
Proof. unfold do_check_compatible_tpm_keys. reading_solve. Qed.

Hint Resolve reading_do_check_compatible_tpm_keys : reading.

Lemma reading_check_compatible_tpm_keys image :
  reading (check_compatible_tpm_keys image).
Proof. unfold check_compatible_tpm_keys. reading_solve. Qed.

Lemma reading_decide_rw_target target is_vboot2 :
  reading (decide_rw_target target is_vboot2).
Proof. unfold decide_rw_target. reading_solve. Qed.

Lemma reading_is_write_protection_enabled :
  reading is_write_protection_enabled.
Proof. unfold is_write_protection_enabled. reading_solve. Qed.

Lemma reading_get_system_properties ps : reading (get_system_properties ps).
Proof. induction ps; simpl; reading_solve. Qed.

Hint Resolve reading_get_system_properties : reading.

Lemma reading_print_system_properties : reading print_system_properties.
Proof. unfold print_system_properties. reading_solve. Qed.

End ReadingUpdater.

(** ** Write protection and the slot selector *)

Section Selector.

Context {L : vb2_struct} {V : vboot_lib} {E : environment} {Q : quirk_table}.

Lemma is_write_protection_enabled_value (s : state) :
  (is_write_protection_enabled s).1 =
    if decide (property_value SYS_PROP_WP_HW s = WP_DISABLED) then WP_DISABLED
    else if decide (property_value SYS_PROP_WP_SW s = WP_DISABLED)
         then WP_DISABLED else WP_ENABLED.
Proof.
  unfold is_write_protection_enabled. rewrite run_bind.
  rewrite get_system_property_value.
  destruct (decide (property_value SYS_PROP_WP_HW s = WP_DISABLED)) as [H|H].
  - simpl. exact H.
  - rewrite run_bind, get_system_property_value, get_system_property_keeps.
    destruct (decide (property_value SYS_PROP_WP_SW s = WP_DISABLED)) as [H'|H'].
    + destruct (decide (_ <> _)); [contradiction|]. simpl. exact H'.
    + destruct (decide (_ <> _)); [reflexivity|contradiction].
Qed.

Lemma decide_rw_target_value (target : target_type) (is_vboot2 : Z) (s : state) :
  (decide_rw_target target is_vboot2 s).1 =
    let slot := property_value SYS_PROP_MAINFW_ACT s in
    if decide (is_vboot2 = 0) then
      Some (if decide (target = TARGET_UPDATE)
            then FMAP_RW_SECTION_B else FMAP_RW_SECTION_A)
    else if decide (slot = SLOT_A) then
      Some (if decide (target = TARGET_UPDATE)
            then FMAP_RW_SECTION_B else FMAP_RW_SECTION_A)
    else if decide (slot = SLOT_B) then
      Some (if decide (target = TARGET_UPDATE)
            then FMAP_RW_SECTION_A else FMAP_RW_SECTION_B)
    else None.
Proof.
  unfold decide_rw_target. rewrite run_bind, get_system_property_value.
  simpl. repeat (destruct (decide _)); reflexivity.
Qed.

End Selector.

Section SelectorClaims.

Context {L : vb2_struct} {V : vboot_lib} {E : environment} {Q : quirk_table}.

(** C3: the write protection is disabled when WP_HW is disabled; otherwise
    WP_SW is consulted, and the protection is disabled iff WP_SW is disabled,
    every other value of WP_SW (errors included) giving enabled.  WP_SW is
    not consulted when WP_HW is disabled.  In particular (HW disabled, SW
    enabled) and (HW error, SW disabled) give disabled, and (HW enabled, SW
    error) gives enabled. *)
Theorem C3_write_protection_predicate (s : state) :
  let hw := property_value SYS_PROP_WP_HW s in
  let sw := property_value SYS_PROP_WP_SW s in
  let r := (is_write_protection_enabled s).1 in
  r = (if decide (hw = WP_DISABLED) then WP_DISABLED
       else if decide (sw = WP_DISABLED) then WP_DISABLED else WP_ENABLED) /\
  (hw = WP_DISABLED ->
   getter_calls SYS_PROP_WP_SW
     (new_events s (is_write_protection_enabled s).2) = O) /\
  (hw = WP_DISABLED -> sw = WP_ENABLED -> r = WP_DISABLED) /\
  (hw < 0 -> sw = WP_DISABLED -> r = WP_DISABLED) /\
  (hw = WP_ENABLED -> sw < 0 -> r = WP_ENABLED).
Proof.
  intros hw sw r.
  assert (Hr : r = (if decide (hw = WP_DISABLED) then WP_DISABLED
                    else if decide (sw = WP_DISABLED) then WP_DISABLED
                         else WP_ENABLED))
    by apply is_write_protection_enabled_value.
  split; [exact Hr|]. split; [|rewrite Hr; clear Hr;
    repeat split; intros; unfold WP_DISABLED, WP_ENABLED in *;
    repeat (destruct (decide _)); lia].
  intros Hhw. unfold is_write_protection_enabled.
  rewrite run_bind, get_system_property_value.
  fold hw. destruct (decide (hw = WP_DISABLED)); [|contradiction]. simpl.
  erewrite new_events_app by apply get_system_property_trace.
  destruct (decide _); reflexivity.
Qed.

(** C3, on the test board: with WP_HW reading 1 and WP_SW reading an error
    the protection is enabled. *)
Lemma C3_write_protection_witness :
  (is_write_protection_enabled
     (Board.start
        (Board.config Board.candidate Board.current
           (Board.overridden 0 65537 1 1 (-1)) 0 0 0 None)
        Board.world0)).1 = WP_ENABLED.
Proof.
  pose proof (C3_write_protection_predicate
     (Board.start
        (Board.config Board.candidate Board.current
           (Board.overridden 0 65537 1 1 (-1)) 0 0 0 None)
        Board.world0)) as (_ & _ & _ & _ & H).
  apply H; reflexivity.
Defined.

Lemma property_value_set_image q r i s :
  property_value q (modify_cfg (set_image r i) s).2 = property_value q s.
Proof. reflexivity. Qed.

End SelectorClaims.


(** ** The property cache, once more: at most one getter call *)

Section CacheClaims.

Implicit Types (p q : system_property_type) (s : state).

Lemma get_system_property_init_mono p q s :
  initialized (system_properties (st_cfg s) p) <> 0 ->
  initialized (system_properties (st_cfg (get_system_property q s).2) p) <> 0.
Proof.
  intros Hp.
  destruct (decide (initialized (system_properties (st_cfg s) q) = 0)) as [H|H].
  - rewrite get_system_property_fresh by exact H. simpl.
    destruct (decide (q = p)) as [->|Hqp].
    + rewrite fn_lookup_insert. simpl. discriminate.
    + rewrite fn_lookup_insert_ne by exact Hqp. exact Hp.
  - rewrite get_system_property_cached by exact H. exact Hp.
Qed.

Lemma override_system_property_init p q v s :
  initialized (system_properties (st_cfg s) p) <> 0 \/ q = p ->
  initialized
    (system_properties (st_cfg (override_system_property q v s).2) p) <> 0.
Proof.
  intros Hp. unfold override_system_property. rewrite run_bind. simpl.
  destruct (decide (q = p)) as [->|Hqp].
  - rewrite fn_lookup_insert. simpl. discriminate.
  - rewrite fn_lookup_insert_ne by exact Hqp. destruct Hp; [assumption|contradiction].
Qed.

Lemma override_then_get p v s h :
  get_system_property p (with_host h (override_system_property p v s).2) =
  (v, with_host h (override_system_property p v s).2).
Proof.
  rewrite get_system_property_cached.
  - unfold override_system_property. rewrite run_bind. simpl.
    rewrite fn_lookup_insert. reflexivity.
  - simpl. apply override_system_property_init. right. reflexivity.
Qed.

Lemma get_then_get p s h :
  get_system_property p (with_host h (get_system_property p s).2) =
  ((get_system_property p s).1, with_host h (get_system_property p s).2).
Proof.
  rewrite get_system_property_cached
    by (simpl; apply get_system_property_initialized).
  simpl. f_equal.
  destruct (decide (initialized (system_properties (st_cfg s) p) = 0)) as [H|H].
  - rewrite get_system_property_fresh by exact H. simpl.
    rewrite fn_lookup_insert. reflexivity.
  - rewrite get_system_property_cached by exact H. reflexivity.
Qed.

(** One action adds at most one call of the getter of [p], none once the
    entry is initialized, and leaves the entry initialized if it was or if
    the getter ran. *)
Lemma run_action_calls p a s :
  exists evs,
    w_trace (st_world (run_action a s)) = w_trace (st_world s) ++ evs /\
    (getter_calls p evs <= 1)%nat /\
    (initialized (system_properties (st_cfg s) p) <> 0 ->
     getter_calls p evs = O) /\
    (initialized (system_properties (st_cfg s) p) <> 0 \/
     getter_calls p evs = 1%nat ->
     initialized (system_properties (st_cfg (run_action a s)) p) <> 0).
Proof.
  destruct a as [q|q v|h]; simpl.
  - eexists. split; [apply get_system_property_trace|].
    destruct (decide (initialized (system_properties (st_cfg s) q) = 0)) as [H|H];
      simpl.
    + destruct (decide (p = q)) as [->|Hpq].
      * repeat split; [lia|congruence|].
        intros _. apply get_system_property_initialized.
      * repeat split; [lia|].
        intros [Hp|Hp]; [|discriminate].
        apply get_system_property_init_mono. exact Hp.
    + repeat split; [lia|].
      intros [Hp|Hp]; [|discriminate].
      apply get_system_property_init_mono. exact Hp.
  - exists []. rewrite app_nil_r. simpl.
    repeat split; [lia|].
    intros [Hp|Hp]; [|discriminate].
    apply override_system_property_init. left. exact Hp.
  - exists []. rewrite app_nil_r. simpl.
    repeat split; [lia|]. intros [Hp|Hp]; [exact Hp|discriminate].
Qed.

Lemma run_actions_calls p l : forall s,
  exists evs,
    w_trace (st_world (run_actions l s)) = w_trace (st_world s) ++ evs /\
    (getter_calls p evs <= 1)%nat /\
    (initialized (system_properties (st_cfg s) p) <> 0 ->
     getter_calls p evs = O).
Proof.
  induction l as [|a l IH]; intros s.
  - exists []. rewrite app_nil_r. simpl. repeat split. lia.
  - simpl. destruct (run_action_calls p a s) as (e1 & T1 & B1 & Z1 & I1).
    destruct (IH (run_action a s)) as (e2 & T2 & B2 & Z2).
    exists (e1 ++ e2). unfold run_actions in *. rewrite T2, T1, app_assoc.
    rewrite getter_calls_app. repeat split.
    + destruct (decide (getter_calls p e1 = 1%nat)) as [H1|H1].
      * rewrite Z2; [lia|]. apply I1. right. exact H1.
      * lia.
    + intros Hp. rewrite Z1 by exact Hp. rewrite Z2; [reflexivity|].
      apply I1. left. exact Hp.
Qed.

(** C9: once the cache entry of a property is initialized, by a first call
    of get_system_property or by override_system_property, every later call
    returns the cached value and leaves the state as it is (the getter is
    not invoked), however the system has changed in between; so in any
    sequence of reads, overrides and changes of the system the getter of a
    property runs at most once, and never after an override. *)
Theorem C9_property_cache (p : system_property_type) (s : state) :
  (initialized (system_properties (st_cfg s) p) <> 0 ->
   forall h, get_system_property p (with_host h s) =
             (value (system_properties (st_cfg s) p), with_host h s)) /\
  (forall h, get_system_property p (with_host h (get_system_property p s).2) =
             ((get_system_property p s).1,
              with_host h (get_system_property p s).2)) /\
  (forall v h,
     get_system_property p (with_host h (override_system_property p v s).2) =
     (v, with_host h (override_system_property p v s).2)) /\
  (forall actions,
     (getter_calls p (new_events s (run_actions actions s)) <= 1)%nat) /\
  (forall v actions,
     let s1 := (override_system_property p v s).2 in
     getter_calls p (new_events s1 (run_actions actions s1)) = O).
Proof.
  repeat split.
  - intros Hp h. apply (get_system_property_cached p (with_host h s)). exact Hp.
  - intros h. apply get_then_get.
  - intros v h. apply override_then_get.
  - intros actions.
    destruct (run_actions_calls p actions s) as (evs & T & B & _).
    rewrite (new_events_app _ _ _ T). exact B.
  - intros v actions s1.
    destruct (run_actions_calls p actions s1) as (evs & T & _ & Z0).
    rewrite (new_events_app _ _ _ T). apply Z0.
    apply override_system_property_init. right. reflexivity.
Qed.

(** C9, on the test board: the active slot is read from a system that
    reports A, the system then reports B, and the second read still yields
    slot A with a single getter call. *)
Lemma C9_property_cache_witness :
  let s := Board.start
             (Board.config Board.candidate Board.current Board.new_properties
                0 0 0 None) Board.world0 in
  let h := {| crossystem_mainfw_act := Some "B"%string;
              crossystem_int := fun _ => 0;
              mosys_platform_version := 0;
              flashrom_wp_status := 0 |} in
  (get_system_property SYS_PROP_MAINFW_ACT
     (with_host h (get_system_property SYS_PROP_MAINFW_ACT s).2)).1 = SLOT_A /\
  (getter_calls SYS_PROP_MAINFW_ACT
     (new_events s
        (run_actions [ActGet SYS_PROP_MAINFW_ACT; ActSystemChange h;
                      ActGet SYS_PROP_MAINFW_ACT] s)) <= 1)%nat.
Proof.
  intros s h.
  pose proof (C9_property_cache SYS_PROP_MAINFW_ACT s) as (_ & H2 & _ & H4 & _).
  split.
  - rewrite H2. reflexivity.
  - apply H4.
Defined.

End CacheClaims.

(** ** TPM anti-rollback *)

Section TpmClaims.

Context {L : vb2_struct} {V : vboot_lib} {E : environment} {Q : quirk_table}.

Lemma do_check_compatible_tpm_keys_value rw_image s dkv fwv :
  get_key_versions rw_image FMAP_RW_VBLOCK_A = Some (dkv, fwv) ->
  (do_check_compatible_tpm_keys rw_image s).1 =
    let tpm_fwver := property_value SYS_PROP_TPM_FWVER s in
    if tpm_fwver <? 0 then -1
    else if CInt.to_u32 (Z.shiftr tpm_fwver 16) >? dkv then -1
    else if CInt.to_u32 (Z.land tpm_fwver 65535) >? fwv then -1
    else 0.
Proof.
  intros Hk. unfold do_check_compatible_tpm_keys. rewrite Hk.
  rewrite run_bind, get_system_property_value. cbv zeta.
  repeat (destruct (_ <? _) || destruct (_ >? _)); reflexivity.
Qed.

Lemma check_compatible_tpm_keys_value rw_image s :
  (check_compatible_tpm_keys rw_image s).1 =
    let r := (do_check_compatible_tpm_keys rw_image s).1 in
    if decide (r = 0) then 0
    else if decide (force_update (st_cfg s) = 0) then r else 0.
Proof.
  unfold check_compatible_tpm_keys. rewrite run_bind.
  pose proof (quiet_do_check_compatible_tpm_keys rw_image s) as Hq.
  destruct (do_check_compatible_tpm_keys rw_image s) as [r s1]. simpl in *.
  destruct (decide (r = 0)) as [->|Hr]; [reflexivity|].
  rewrite run_bind. simpl.
  destruct Hq. rewrite frame_force_update0.
  destruct (decide _); reflexivity.
Qed.

Lemma tpm_fwver_fields (t : Z) :
  0 <= t -> CInt.int_range t ->
  CInt.to_u32 (Z.shiftr t 16) = Z.shiftr t 16 /\
  CInt.to_u32 (Z.land t 65535) = Z.land t 65535.
Proof.
  intros H0 [_ H1]. split; apply CIntFacts.to_u32_id; unfold CInt.u32_range.
  - rewrite Z.shiftr_div_pow2 by lia. split.
    + apply Z.div_pos; lia.
    + apply Z.div_lt_upper_bound; lia.
  - change 65535 with (Z.ones 16). rewrite Z.land_ones by lia.
    pose proof (Z.mod_pos_bound t (2 ^ 16)). lia.
Qed.

(** C1: for a candidate whose VBLOCK_A decodes to (data_key_version,
    firmware_version) and a cached tpm_fwver (an int): a negative tpm_fwver
    fails the check; otherwise the check passes iff data_key_version >=
    tpm_fwver >> 16 and firmware_version >= tpm_fwver & 0xffff; and with
    force_update set the wrapper returns success whatever the check said
    (without it, the wrapper returns what the check returned). *)
Theorem C1_tpm_anti_rollback (s : state) (rw_image : firmware_image)
    (data_key_version firmware_version : Z) :
  get_key_versions rw_image FMAP_RW_VBLOCK_A =
    Some (data_key_version, firmware_version) ->
  CInt.int_range (property_value SYS_PROP_TPM_FWVER s) ->
  let tpm_fwver := property_value SYS_PROP_TPM_FWVER s in
  let check := (do_check_compatible_tpm_keys rw_image s).1 in
  let wrapper := (check_compatible_tpm_keys rw_image s).1 in
  (tpm_fwver < 0 -> check <> 0) /\
  (0 <= tpm_fwver ->
   (check = 0 <->
    data_key_version >= Z.shiftr tpm_fwver 16 /\
    firmware_version >= Z.land tpm_fwver 65535)) /\
  (force_update (st_cfg s) <> 0 -> wrapper = 0) /\
  (force_update (st_cfg s) = 0 -> wrapper = check).
Proof.
  intros Hk Hr tpm_fwver check wrapper.
  assert (Hc : check =
    if tpm_fwver <? 0 then -1
    else if CInt.to_u32 (Z.shiftr tpm_fwver 16) >? data_key_version then -1
    else if CInt.to_u32 (Z.land tpm_fwver 65535) >? firmware_version then -1
    else 0) by (apply do_check_compatible_tpm_keys_value; exact Hk).
  assert (Hw : wrapper =
    if decide (check = 0) then 0
    else if decide (force_update (st_cfg s) = 0) then check else 0)
    by apply check_compatible_tpm_keys_value.
  split; [|split; [|split]].
  - intros Hneg. rewrite Hc.
    destruct (Z.ltb_spec tpm_fwver 0); [discriminate|lia].
  - intros H. rewrite Hc. destruct (tpm_fwver_fields tpm_fwver H Hr) as [-> ->].
    destruct (Z.ltb_spec tpm_fwver 0); [lia|].
    destruct (Z.gtb_spec (Z.shiftr tpm_fwver 16) data_key_version);
      [split; [discriminate|lia]|].
    destruct (Z.gtb_spec (Z.land tpm_fwver 65535) firmware_version);
      [split; [discriminate|lia]|].
    split; [lia|reflexivity].
  - intros Hf. rewrite Hw. repeat (destruct (decide _)); try reflexivity.
    contradiction.
  - intros Hf. rewrite Hw. repeat (destruct (decide _)); congruence.
Qed.

End TpmClaims.

(** C1, on the test board: the candidate carries versions (1, 1); a TPM at
    0x00010001 accepts it, a TPM at 0x00010002 refuses it, and the refusal
    is waived under force. *)
Lemma C1_tpm_anti_rollback_witness :
  let run tpm force :=
    (@check_compatible_tpm_keys Board.vb2_struct_h Board.candidate
       (Board.start
          (Board.config Board.candidate Board.current
             (Board.overridden 0 tpm 1 1 1) 0 force 0 None)
          Board.world0)).1 in
  run 65537 0 = 0 /\ run 65538 0 = -1 /\ run 65538 1 = 0.
Proof.
  intros run. split; [|split].
  - pose proof (@C1_tpm_anti_rollback Board.vb2_struct_h
      (Board.start
          (Board.config Board.candidate Board.current
             (Board.overridden 0 65537 1 1 1) 0 0 0 None)
          Board.world0) Board.candidate 1 1 eq_refl) as H.
    destruct H as (_ & H2 & _ & H4); [vm_compute; split; [discriminate|reflexivity]|].
    unfold run. rewrite H4 by reflexivity.
    apply H2; vm_compute; repeat split; discriminate.
  - reflexivity.
  - pose proof (@C1_tpm_anti_rollback Board.vb2_struct_h
      (Board.start
          (Board.config Board.candidate Board.current
             (Board.overridden 0 65538 1 1 1) 0 1 0 None)
          Board.world0) Board.candidate 1 1 eq_refl) as H.
    destruct H as (_ & _ & H3 & _); [vm_compute; split; [discriminate|reflexivity]|].
    apply H3. discriminate.
Defined.

(** ** Preserving a section *)

Lemma Board_current_size : image_size Board.current = 1024%nat.
Proof. vm_compute. reflexivity. Qed.

Lemma Board_candidate_size : image_size Board.candidate = 1024%nat.
Proof. vm_compute. reflexivity. Qed.

Ltac board_wf size_eq :=
  intros areas [= <-]; unfold Board.areas;
  repeat match goal with
         | |- Forall _ (_ :: _) => constructor
         | |- Forall _ [] => constructor
         end;
  unfold area_in_bounds; rewrite size_eq; simpl area_offset; simpl area_size;
  (split; [lia|reflexivity]).

Lemma Board_current_wf : wf_image Board.current.
Proof. board_wf Board_current_size. Qed.

Lemma Board_candidate_wf : wf_image Board.candidate.
Proof. board_wf Board_candidate_size. Qed.

(** C8: when both images contain the section, preserve_firmware_section
    succeeds; afterwards the first min(from size, to size) bytes of the
    section in [to] are those of the section in [from], the rest of the
    section and every byte outside it are as before (as are the size of the
    buffer and the fields of the image), a larger source being truncated.
    It fails exactly when one of the images lacks the section, and then
    [to] is unchanged. *)
Theorem C8_preserve_firmware_section (image_from image_to : firmware_image)
    (n : string) :
  wf_image image_from -> wf_image image_to ->
  let r := preserve_firmware_section image_from image_to n in
  (r.1 = 0 <->
   is_Some (find_firmware_section image_from n) /\
   is_Some (find_firmware_section image_to n)) /\
  (r.1 <> 0 -> r.1 = -1 /\ r.2 = image_to) /\
  (forall from to,
     find_firmware_section image_from n = Some from ->
     find_firmware_section image_to n = Some to ->
     let m := Nat.min (sec_size from) (sec_size to) in
     r.1 = 0 /\
     image_size r.2 = image_size image_to /\
     fmap_header r.2 = fmap_header image_to /\
     find_firmware_section r.2 n = Some to /\
     (forall i, (i < m)%nat ->
        image_bytes r.2 !! (sec_offset to + i)%nat =
        image_bytes image_from !! (sec_offset from + i)%nat) /\
     (forall i, (m <= i < sec_size to)%nat ->
        image_bytes r.2 !! (sec_offset to + i)%nat =
        image_bytes image_to !! (sec_offset to + i)%nat) /\
     (forall j, (j < sec_offset to \/ sec_offset to + sec_size to <= j)%nat ->
        image_bytes r.2 !! j = image_bytes image_to !! j)).
Proof.
  intros Hwf_from Hwf_to r. subst r. unfold preserve_firmware_section.
  destruct (find_firmware_section image_from n) as [from|] eqn:Hfrom;
    [destruct (find_firmware_section image_to n) as [to|] eqn:Hto|].
  - simpl.
    destruct (find_firmware_section_in_bounds _ _ _ Hwf_from Hfrom) as [Bf _].
    destruct (find_firmware_section_in_bounds _ _ _ Hwf_to Hto) as [Bt _].
    unfold image_size in *.
    set (m := Nat.min (sec_size from) (sec_size to)).
    assert (Hlen : length (Mem.read_bytes (image_bytes image_from)
                             (sec_offset from) m) = m).
    { rewrite MemFacts.length_read_bytes. lia. }
    split; [split; [eauto|reflexivity]|]. split; [intros H; contradiction|].
    intros from' to' [= <-] [= <-]. fold m.
    split; [reflexivity|].
    split; [rewrite image_bytes_set_image_data; apply MemFacts.length_write_bytes|].
    split; [reflexivity|]. split.
    { unfold find_firmware_section, fmap_find_by_name in *. simpl.
      destruct (data image_to); [exact Hto|discriminate]. }
    rewrite image_bytes_set_image_data.
    split; [|split].
    + intros i Hi.
      rewrite MemFacts.lookup_write_bytes_in by lia.
      apply MemFacts.lookup_read_bytes. exact Hi.
    + intros i Hi. apply MemFacts.lookup_write_bytes_ge. lia.
    + intros j [Hj|Hj].
      * apply MemFacts.lookup_write_bytes_lt. exact Hj.
      * apply MemFacts.lookup_write_bytes_ge. lia.
  - simpl. split; [split; [discriminate|intros [_ [x Hx]]; discriminate]|].
    split; [split; reflexivity|]. intros from' to' _ [=].
  - simpl. split; [split; [discriminate|intros [[x Hx] _]; discriminate]|].
    split; [split; reflexivity|]. intros from' to' [=].
Qed.

(** C8, on the test board: the GBB of the flash is copied into the
    candidate, whose flags (byte 140) become those of the flash. *)
Lemma C8_preserve_firmware_section_witness :
  let r := preserve_firmware_section Board.current Board.candidate FMAP_RO_GBB in
  r.1 = 0 /\
  image_bytes r.2 !! 140%nat = image_bytes Board.current !! 140%nat /\
  image_bytes r.2 !! 0%nat = image_bytes Board.candidate !! 0%nat.
Proof.
  intros r.
  pose proof (C8_preserve_firmware_section Board.current Board.candidate
                FMAP_RO_GBB Board_current_wf Board_candidate_wf) as (_ & _ & H).
  destruct (H {| sec_offset := 128; sec_size := 256 |}
              {| sec_offset := 128; sec_size := 256 |} eq_refl eq_refl)
    as (H1 & _ & _ & _ & H2 & _ & H3).
  split; [exact H1|]. split.
  - apply (H2 12%nat). vm_compute. lia.
  - apply (H3 0%nat). left. vm_compute. lia.
Defined.

(** ** The guard of the key block *)

Section KeyblockClaims.

Context {L : vb2_struct} {V : vboot_lib} {E : environment} {Q : quirk_table}.

Lemma get_keyblock_some image name keyblock :
  get_keyblock image name = Some keyblock ->
  exists section,
    find_firmware_section image name = Some section /\
    keyblock = sec_offset section /\
    (sizeof_vb2_keyblock + sizeof_vb2_fw_preamble <= sec_size section)%nat.
Proof.
  unfold get_keyblock.
  destruct (Nat.ltb_spec (section_size (find_firmware_section image name))
              (sizeof_vb2_keyblock + sizeof_vb2_fw_preamble)) as [Hlt|Hge];
    [discriminate|].
  destruct (find_firmware_section image name) as [section|]; [|discriminate].
  intros [= <-]. exists section. simpl in Hge. auto.
Qed.

Lemma get_keyblock_none image name :
  find_firmware_section image name = None \/
  (section_size (find_firmware_section image name) <
   sizeof_vb2_keyblock + sizeof_vb2_fw_preamble)%nat ->
  get_keyblock image name = None.
Proof.
  unfold get_keyblock. intros [H|H].
  - rewrite H. destruct (_ <? _)%nat; reflexivity.
  - destruct (Nat.ltb_spec (section_size (find_firmware_section image name))
                (sizeof_vb2_keyblock + sizeof_vb2_fw_preamble));
      [reflexivity|lia].
Qed.

(** C10: when VBLOCK_A is absent or smaller than a key block followed by a
    firmware preamble, get_keyblock returns NULL, whatever the bytes of the
    image are; then get_key_versions fails, the TPM check fails without
    consulting the TPM, and check_compatible_root_key fails.  Conversely a
    key block pointer, a pair of versions or a passed root key check exist
    only for a VBLOCK_A that is present and has at least that size, the
    pointer being the start of the section. *)
Theorem C10_keyblock_guard (image : firmware_image) :
  let too_small image :=
    find_firmware_section image FMAP_RW_VBLOCK_A = None \/
    (section_size (find_firmware_section image FMAP_RW_VBLOCK_A) <
     sizeof_vb2_keyblock + sizeof_vb2_fw_preamble)%nat in
  let large_enough image keyblock :=
    exists section,
      find_firmware_section image FMAP_RW_VBLOCK_A = Some section /\
      keyblock = sec_offset section /\
      (sizeof_vb2_keyblock + sizeof_vb2_fw_preamble <= sec_size section)%nat in
  (too_small image ->
   get_keyblock image FMAP_RW_VBLOCK_A = None /\
   (forall image',
      find_firmware_section image' FMAP_RW_VBLOCK_A =
      find_firmware_section image FMAP_RW_VBLOCK_A ->
      get_keyblock image' FMAP_RW_VBLOCK_A = None) /\
   get_key_versions image FMAP_RW_VBLOCK_A = None /\
   (forall s, do_check_compatible_tpm_keys image s = (-1, s)) /\
   (forall ro_image, check_compatible_root_key ro_image image = -1)) /\
  (forall keyblock,
     get_keyblock image FMAP_RW_VBLOCK_A = Some keyblock ->
     large_enough image keyblock) /\
  (forall versions,
     get_key_versions image FMAP_RW_VBLOCK_A = Some versions ->
     exists keyblock, large_enough image keyblock) /\
  (forall ro_image,
     check_compatible_root_key ro_image image = 0 ->
     exists keyblock, large_enough image keyblock).
Proof.
  intros too_small large_enough. split; [|split; [|split]].
  - intros Hs. pose proof (get_keyblock_none _ _ Hs) as Hk.
    split; [exact Hk|]. split; [|split; [|split]].
    + intros image' Hf. apply get_keyblock_none. rewrite Hf. exact Hs.
    + unfold get_key_versions. rewrite Hk. reflexivity.
    + intros s. unfold do_check_compatible_tpm_keys, get_key_versions.
      rewrite Hk. reflexivity.
    + intros ro_image. unfold check_compatible_root_key. rewrite Hk.
      destruct (find_gbb ro_image); [|reflexivity].
      destruct (get_rootkey _ _); reflexivity.
  - intros keyblock Hk. apply get_keyblock_some. exact Hk.
  - intros versions. unfold get_key_versions.
    destruct (get_keyblock image FMAP_RW_VBLOCK_A) as [keyblock|] eqn:Hk;
      [|discriminate].
    intros _. exists keyblock. apply get_keyblock_some. exact Hk.
  - intros ro_image. unfold check_compatible_root_key.
    destruct (find_gbb ro_image); [|discriminate].
    destruct (get_rootkey _ _); [|discriminate].
    destruct (get_keyblock image FMAP_RW_VBLOCK_A) as [keyblock|] eqn:Hk;
      [|discriminate].
    intros _. exists keyblock. apply get_keyblock_some. exact Hk.
Qed.

End KeyblockClaims.

(** C10, on the test board: a VBLOCK_A of 219 bytes is refused by both
    checks, one of 224 bytes yields the versions. *)
Lemma C10_keyblock_guard_witness :
  @get_key_versions Board.vb2_struct_h Board.candidate_small_vblock
    FMAP_RW_VBLOCK_A = None /\
  @check_compatible_root_key Board.vb2_struct_h Board.lib Board.current
    Board.candidate_small_vblock = -1 /\
  exists keyblock section,
    find_firmware_section Board.candidate FMAP_RW_VBLOCK_A = Some section /\
    keyblock = sec_offset section /\ (220 <= sec_size section)%nat.
Proof.
  pose proof (@C10_keyblock_guard Board.vb2_struct_h Board.lib
                Board.candidate_small_vblock) as (H1 & _).
  pose proof (@C10_keyblock_guard Board.vb2_struct_h Board.lib
                Board.candidate) as (_ & _ & H3 & _).
  destruct H1 as (_ & _ & Hv & _ & Hr).
  { right. vm_compute. lia. }
  split; [exact Hv|]. split; [apply Hr|].
  destruct (H3 (1, 1) eq_refl) as (keyblock & section & Hs).
  exists keyblock, section. exact Hs.
Defined.

(** ** The order of the writes of the RW update *)

Section WriteOrder.

Context {L : vb2_struct} {V : vboot_lib} {E : environment} {Q : quirk_table}.

Lemma frame_get_image ws s s' r :
  frame ws s s' -> get_image r (st_cfg s') = get_image r (st_cfg s).
Proof. intros []. destruct r; assumption. Qed.

(** [write_optional_firmware] of a section: one call of [write_firmware] if
    the image has the section, none and success otherwise. *)
Lemma frame_write_optional_firmware image name s :
  let r := write_optional_firmware image (Some name) s in
  frame (if firmware_section_exists image name then [(Some name, r.1)] else [])
        s r.2 /\
  (firmware_section_exists image name = false -> r.1 = 0).
Proof.
  unfold write_optional_firmware, firmware_section_exists,
    find_firmware_section, fmap_find_by_name.
  destruct (data image).
  - destruct (fmap_header image) as [areas|].
    + destruct (fmap_lookup areas name); simpl.
      * split; [apply frame_write_firmware|discriminate].
      * split; [apply frame_refl|reflexivity].
    + simpl. split; [apply frame_refl|reflexivity].
  - simpl. split; [apply frame_refl|reflexivity].
Qed.

Lemma rw_update_sections_spec image_to s :
  exists writes,
    frame writes s (rw_update_sections image_to s).2 /\
    stops_at_first_failure (rw_sections image_to) writes
      (rw_update_sections image_to s).1.
Proof.
  unfold rw_update_sections, rw_sections.
  rewrite run_bind.
  pose proof (frame_write_firmware image_to (Some FMAP_RW_SECTION_A) s) as F1.
  destruct (write_firmware image_to (Some FMAP_RW_SECTION_A) s) as [w1 s1].
  simpl in F1. simpl fst. simpl snd.
  destruct (decide (w1 <> 0)) as [N1|Z1].
  { eexists. split; [exact F1|]. right. split; [reflexivity|].
    exists [], (Some FMAP_RW_SECTION_A, w1). simpl.
    repeat split; [exact N1|constructor|]. eexists. reflexivity. }
  assert (w1 = 0) as -> by lia. clear Z1.
  rewrite run_bind.
  pose proof (frame_write_firmware image_to (Some FMAP_RW_SECTION_B) s1) as F2.
  destruct (write_firmware image_to (Some FMAP_RW_SECTION_B) s1) as [w2 s2].
  simpl in F2. simpl fst. simpl snd.
  pose proof (frame_trans _ _ _ _ _ F1 F2) as F12. simpl in F12.
  destruct (decide (w2 <> 0)) as [N2|Z2].
  { eexists. split; [exact F12|]. right. split; [reflexivity|].
    exists [(Some FMAP_RW_SECTION_A, 0)], (Some FMAP_RW_SECTION_B, w2). simpl.
    repeat split; [exact N2|repeat constructor|]. eexists. reflexivity. }
  assert (w2 = 0) as -> by lia. clear Z2.
  rewrite run_bind.
  pose proof (frame_write_firmware image_to (Some FMAP_RW_SHARED) s2) as F3.
  destruct (write_firmware image_to (Some FMAP_RW_SHARED) s2) as [w3 s3].
  simpl in F3. simpl fst. simpl snd.
  pose proof (frame_trans _ _ _ _ _ F12 F3) as F123. simpl in F123.
  destruct (decide (w3 <> 0)) as [N3|Z3].
  { eexists. split; [exact F123|]. right. split; [reflexivity|].
    exists [(Some FMAP_RW_SECTION_A, 0); (Some FMAP_RW_SECTION_B, 0)],
           (Some FMAP_RW_SHARED, w3). simpl.
    repeat split; [exact N3|repeat constructor|]. eexists. reflexivity. }
  assert (w3 = 0) as -> by lia. clear Z3.
  rewrite run_bind.
  destruct (frame_write_optional_firmware image_to FMAP_RW_LEGACY s3) as [F4 O4].
  destruct (write_optional_firmware image_to (Some FMAP_RW_LEGACY) s3) as [w4 s4].
  simpl in F4, O4. simpl fst. simpl snd.
  pose proof (frame_trans _ _ _ _ _ F123 F4) as F. simpl in F.
  destruct (firmware_section_exists image_to FMAP_RW_LEGACY).
  - destruct (decide (w4 <> 0)) as [N4|Z4].
    + eexists. split; [exact F|]. right. split; [reflexivity|].
      exists [(Some FMAP_RW_SECTION_A, 0); (Some FMAP_RW_SECTION_B, 0);
              (Some FMAP_RW_SHARED, 0)], (Some FMAP_RW_LEGACY, w4). simpl.
      repeat split; [exact N4|repeat constructor|]. exists []. reflexivity.
    + assert (w4 = 0) as -> by lia.
      eexists. split; [exact F|]. left. simpl.
      repeat split. repeat constructor.
  - rewrite O4 by reflexivity.
    destruct (decide (0 <> 0)) as [N4|_]; [contradiction|].
    eexists. split; [exact F|]. left. simpl.
    repeat split. repeat constructor.
Qed.

Lemma update_rw_firmrware_spec image_from image_to s :
  check_compatible_root_key (get_image image_from (st_cfg s))
    (get_image image_to (st_cfg s)) = 0 ->
  (check_compatible_tpm_keys (get_image image_to (st_cfg s)) s).1 = 0 ->
  exists writes,
    frame writes s (update_rw_firmrware image_from image_to s).2 /\
    stops_at_first_failure (rw_sections (get_image image_to (st_cfg s)))
      writes (update_rw_firmrware image_from image_to s).1.
Proof.
  intros Hroot Htpm. unfold update_rw_firmrware.
  rewrite run_bind. simpl (get_cfg s).1. simpl (get_cfg s).2.
  destruct (decide (_ <> 0)) as [N|_]; [contradiction|].
  rewrite run_bind.
  pose proof (quiet_check_compatible_tpm_keys
                (get_image image_to (st_cfg s)) s) as F0.
  destruct (check_compatible_tpm_keys (get_image image_to (st_cfg s)) s)
    as [r s0].
  simpl in Htpm, F0. simpl fst. simpl snd. subst r.
  destruct (decide (0 <> 0)) as [N|_]; [contradiction|].
  rewrite run_bind. simpl (get_cfg s0).1. simpl (get_cfg s0).2.
  rewrite (frame_get_image _ _ _ image_to F0).
  destruct (rw_update_sections_spec (get_image image_to (st_cfg s)) s0)
    as (writes & F & Hs).
  exists writes. split; [|exact Hs].
  exact (frame_trans [] writes _ _ _ F0 F).
Qed.

(** C4: in the RW update, once the root key check and the TPM check have
    passed, the calls of write_firmware are, in this order, RW_SECTION_A,
    RW_SECTION_B, RW_SHARED and then RW_LEGACY, the last one only if the
    candidate has that section; the sequence stops at the first write that
    fails, with UPDATE_ERR_WRITE_FIRMWARE and no later write; and the
    result is UPDATE_ERR_DONE exactly when every write of the sequence was
    issued and succeeded. *)
Theorem C4_rw_update_write_order (image_from image_to : image_ref) (s : state) :
  check_compatible_root_key (get_image image_from (st_cfg s))
    (get_image image_to (st_cfg s)) = 0 ->
  (check_compatible_tpm_keys (get_image image_to (st_cfg s)) s).1 = 0 ->
  let run := update_rw_firmrware image_from image_to s in
  let writes := firmware_writes (new_events s run.2) in
  let expected :=
    [Some FMAP_RW_SECTION_A; Some FMAP_RW_SECTION_B; Some FMAP_RW_SHARED] ++
    (if firmware_section_exists (get_image image_to (st_cfg s)) FMAP_RW_LEGACY
     then [Some FMAP_RW_LEGACY] else []) in
  writes.*1 `prefix_of` expected /\
  (run.1 = UPDATE_ERR_DONE <->
   writes.*1 = expected /\ Forall (fun w => w.2 = 0) writes) /\
  (run.1 <> UPDATE_ERR_DONE <->
   run.1 = UPDATE_ERR_WRITE_FIRMWARE /\
   exists done failed,
     writes = done ++ [failed] /\ failed.2 <> 0 /\
     Forall (fun w => w.2 = 0) done).
Proof.
  intros Hroot Htpm run writes expected.
  destruct (update_rw_firmrware_spec image_from image_to s Hroot Htpm)
    as (ws & Hw & Hs).
  apply frame_writes in Hw.
  fold run in Hw, Hs. fold writes in Hw. subst ws.
  fold expected in Hs. unfold rw_sections in Hs.
  destruct Hs as [(Hr & He & Hz)|(Hr & done & failed & Hd & Hf & Hz & Hp)].
  - rewrite Hr. split; [rewrite He; reflexivity|]. split.
    + split; [intros _; split; assumption|reflexivity].
    + split; [intros N; contradiction|intros [[=] _]].
  - rewrite Hr. split; [exact Hp|]. split.
    + split; [discriminate|]. intros [_ Hall]. exfalso.
      rewrite Hd in Hall. apply Forall_app in Hall as [_ Hall].
      inversion Hall; subst. contradiction.
    + split; [|discriminate]. intros _. split; [reflexivity|].
      exists done, failed. auto.
Qed.

End WriteOrder.

(** C4, on the test board: on a host where every write succeeds the four
    sections are written in order; on a host where the write of
    RW_SECTION_B fails, the update stops there. *)
Lemma C4_rw_update_write_order_witness :
  let s := Board.start
             (Board.config Board.candidate Board.current
                (Board.overridden 0 65537 1 1 1) 0 0 0 None) Board.world0 in
  let good := @update_rw_firmrware Board.vb2_struct_h Board.lib Board.env
                IMAGE_CURRENT IMAGE s in
  let bad := @update_rw_firmrware Board.vb2_struct_h Board.lib
               Board.env_b_fails IMAGE_CURRENT IMAGE s in
  (good.1 = UPDATE_ERR_DONE /\
   (firmware_writes (new_events s good.2)).*1 =
     [Some FMAP_RW_SECTION_A; Some FMAP_RW_SECTION_B; Some FMAP_RW_SHARED;
      Some FMAP_RW_LEGACY]) /\
  (bad.1 = UPDATE_ERR_WRITE_FIRMWARE /\
   firmware_writes (new_events s bad.2) =
     [(Some FMAP_RW_SECTION_A, 0); (Some FMAP_RW_SECTION_B, 1)]).
Proof.
  intros s good bad.
  pose proof (@C4_rw_update_write_order Board.vb2_struct_h Board.lib Board.env
                IMAGE_CURRENT IMAGE s eq_refl eq_refl) as (_ & Hdone & _).
  pose proof (@C4_rw_update_write_order Board.vb2_struct_h Board.lib
                Board.env_b_fails IMAGE_CURRENT IMAGE s eq_refl eq_refl)
    as (_ & _ & Hfail).
  split.
  - assert (Hg : good.1 = UPDATE_ERR_DONE) by (vm_compute; reflexivity).
    split; [exact Hg|]. apply Hdone in Hg as [Hg _]. exact Hg.
  - assert (Hb : bad.1 <> UPDATE_ERR_DONE) by (vm_compute; discriminate).
    apply Hfail in Hb as [Hb _]. split; [exact Hb|].
    vm_compute. reflexivity.
Defined.

(** ** The legacy step of the try-RW update *)

Section Legacy.

Context {L : vb2_struct} {V : vboot_lib} {E : environment} {Q : quirk_table}.

Lemma vb2_write_file_stored path d s :
  (vb2_write_file path d s).1 = true ->
  w_files (st_world (vb2_write_file path d s).2) !! path = Some d.
Proof.
  unfold vb2_write_file. rewrite !run_bind. simpl.
  destruct (env_write_file (st_world s) path d); [|discriminate].
  intros _. simpl. apply lookup_insert_eq.
Qed.

Lemma cbfs_file_exists_value f sec entry s d :
  w_files (st_world s) !! f = Some d ->
  (cbfs_file_exists f sec entry s).1 =
    (if cbfstool_has_entry d sec entry then 1 else 0) /\
  w_files (st_world (cbfs_file_exists f sec entry s).2) = w_files (st_world s).
Proof.
  intros Hf. unfold cbfs_file_exists. rewrite !run_bind. simpl. rewrite Hf.
  destruct (cbfstool_has_entry d sec entry); split; reflexivity.
Qed.

(** [legacy_needs_update] asks for an update only if the candidate carries
    the entry and RW_LEGACY differs; the current image is never examined
    for the entry. *)
Lemma legacy_needs_update_nonzero s :
  (legacy_needs_update s).1 <> 0 ->
  cbfstool_has_entry (image_bytes (image (st_cfg s))) FMAP_RW_LEGACY
    "cros_allow_auto_update" = true /\
  section_needs_update (image_current (st_cfg s)) (image (st_cfg s))
    (Some FMAP_RW_LEGACY) <> 0.
Proof.
  unfold legacy_needs_update. rewrite run_bind.
  pose proof (quiet_updater_create_temp_file s) as F1.
  destruct (updater_create_temp_file s) as [[tmp|] s1];
    simpl fst; simpl snd; [|intros N; contradiction N; reflexivity].
  simpl in F1.
  rewrite run_bind. simpl (get_cfg s1).1. simpl (get_cfg s1).2.
  rewrite run_bind.
  pose proof (quiet_vb2_write_file tmp (image_bytes (image (st_cfg s1))) s1) as F2.
  pose proof (vb2_write_file_stored tmp (image_bytes (image (st_cfg s1))) s1) as W.
  destruct (vb2_write_file tmp (image_bytes (image (st_cfg s1))) s1) as [ok s2].
  simpl in F2, W. simpl fst. simpl snd.
  destruct ok; simpl (negb _); cbv iota; [|intros N; contradiction N; reflexivity].
  specialize (W eq_refl).
  rewrite run_bind.
  destruct (cbfs_file_exists_value tmp FMAP_RW_LEGACY "cros_allow_auto_update"
              s2 _ W) as [V1 W1].
  pose proof (quiet_cbfs_file_exists tmp FMAP_RW_LEGACY
                "cros_allow_auto_update" s2) as F3.
  destruct (cbfs_file_exists tmp FMAP_RW_LEGACY "cros_allow_auto_update" s2)
    as [has_to s3].
  simpl in V1, W1, F3. simpl fst. simpl snd.
  rewrite run_bind. rewrite <- W1 in W.
  destruct (cbfs_file_exists_value tmp FMAP_RW_LEGACY "cros_allow_auto_update"
              s3 _ W) as [V2 W2].
  pose proof (quiet_cbfs_file_exists tmp FMAP_RW_LEGACY
                "cros_allow_auto_update" s3) as F4.
  destruct (cbfs_file_exists tmp FMAP_RW_LEGACY "cros_allow_auto_update" s3)
    as [has_from s4].
  simpl in V2, W2, F4. simpl fst. simpl snd.
  destruct (decide (has_from = 0 \/ has_to = 0)) as [Hz|Hnz];
    [intros N; contradiction N; reflexivity|].
  rewrite run_bind. simpl.
  pose proof (frame_trans _ _ _ _ _ F1
               (frame_trans _ _ _ _ _ F2 (frame_trans _ _ _ _ _ F3 F4))) as F.
  destruct F. rewrite frame_image0, frame_image_current0.
  intros N. split; [|exact N].
  destruct F1. rewrite <- frame_image1.
  destruct (cbfstool_has_entry (image_bytes (image (st_cfg s1))) FMAP_RW_LEGACY
              "cros_allow_auto_update"); [reflexivity|].
  exfalso. apply Hnz. right. exact V1.
Qed.

Lemma try_rw_legacy_spec image_to s :
  (try_rw_legacy image_to s).1 = UPDATE_ERR_DONE /\
  exists writes,
    frame writes s (try_rw_legacy image_to s).2 /\
    (writes = [] \/ exists w, writes = [(Some FMAP_RW_LEGACY, w)]) /\
    (writes <> [] ->
     cbfstool_has_entry (image_bytes (image (st_cfg s))) FMAP_RW_LEGACY
       "cros_allow_auto_update" = true /\
     section_needs_update (image_current (st_cfg s)) (image (st_cfg s))
       (Some FMAP_RW_LEGACY) <> 0).
Proof.
  unfold try_rw_legacy. rewrite run_bind.
  pose proof (quiet_legacy_needs_update s) as F1.
  pose proof (legacy_needs_update_nonzero s) as N1.
  destruct (legacy_needs_update s) as [l s1]. simpl in F1, N1.
  simpl fst. simpl snd.
  destruct (decide (l <> 0)) as [Hl|Hl].
  - rewrite !run_bind. simpl (get_cfg s1).1. simpl (get_cfg s1).2.
    pose proof (frame_write_firmware (get_image image_to (st_cfg s1))
                  (Some FMAP_RW_LEGACY) s1) as F2.
    destruct (write_firmware (get_image image_to (st_cfg s1))
                (Some FMAP_RW_LEGACY) s1) as [w s2].
    simpl in F2. simpl. split; [reflexivity|].
    eexists. split; [exact (frame_trans _ _ _ _ _ F1 F2)|].
    split; [right; eexists; reflexivity|]. intros _. apply N1. exact Hl.
  - simpl. split; [reflexivity|]. exists []. split; [exact F1|].
    split; [left; reflexivity|]. intros N. contradiction.
Qed.

End Legacy.

(** C6 (the code departs from the claim): on the test board the flash does
    not carry cros_allow_auto_update in RW_LEGACY, the candidate does and
    its RW_LEGACY differs; the try-RW update writes RW_LEGACY all the same,
    and returns UPDATE_ERR_DONE. *)
Theorem C6_legacy_update_ignores_current :
  let s := Board.start
             (Board.config Board.candidate Board.current_untagged
                (Board.overridden 0 65537 1 1 1) 1 0 0 None) Board.world0 in
  let run := @update_firmware Board.vb2_struct_h Board.lib Board.env
               Board.no_quirks s in
  @cbfstool_has_entry Board.lib (image_bytes Board.current_untagged)
    FMAP_RW_LEGACY "cros_allow_auto_update" = false /\
  @cbfstool_has_entry Board.lib (image_bytes Board.candidate)
    FMAP_RW_LEGACY "cros_allow_auto_update" = true /\
  section_needs_update Board.current_untagged Board.candidate
    (Some FMAP_RW_LEGACY) = -1 /\
  run.1 = UPDATE_ERR_DONE /\
  firmware_writes (new_events s run.2) =
    [(Some FMAP_RW_SECTION_B, 0); (Some FMAP_RW_LEGACY, 0)].
Proof.
  intros s run. split; [reflexivity|]. split; [reflexivity|].
  split; [vm_compute; reflexivity|]. split; vm_compute; reflexivity.
Qed.

(** ** Running the updater again *)

Section Rerun.

Context {L : vb2_struct} {V : vboot_lib} {E : environment} {Q : quirk_table}.

Lemma try_apply_quirk_off q s :
  quirk_value (quirks (st_cfg s) q) = 0 -> try_apply_quirk q s = (0, s).
Proof.
  intros H. unfold try_apply_quirk. rewrite run_bind. simpl.
  destruct (decide _); [reflexivity|contradiction].
Qed.

Lemma check_compatible_platform_state s : (check_compatible_platform s).2 = s.
Proof.
  unfold check_compatible_platform. rewrite run_bind. simpl.
  destruct (strchr_dot _); [destruct (strchr_dot _)|]; reflexivity.
Qed.

Lemma quiet_get_system_properties ps : quiet (get_system_properties ps).
Proof.
  induction ps as [|p ps IH]; simpl; [apply quiet_ret|].
  apply quiet_bind; [apply quiet_get_system_property|intros _; exact IH].
Qed.

Lemma quiet_print_system_properties : quiet print_system_properties.
Proof.
  unfold print_system_properties.
  apply quiet_bind; [|intros _]; apply quiet_get_system_properties.
Qed.

(** From a ready configuration [update_firmware] goes straight to the
    choice of the strategy, having written nothing. *)
Lemma update_firmware_ready s :
  ready s ->
  exists s',
    frame [] s s' /\
    update_firmware s =
      select_strategy IMAGE_CURRENT IMAGE (is_write_protection_enabled s).1 s'.
Proof.
  intros ([d Hd] & [d' Hd'] & Hq & Hp & _).
  pose proof (quiet_is_write_protection_enabled s) as F1.
  set (s1 := (is_write_protection_enabled s).2) in *.
  pose proof (quiet_get_system_property SYS_PROP_WP_HW s1) as F2.
  set (s2 := (get_system_property SYS_PROP_WP_HW s1).2) in *.
  pose proof (quiet_get_system_property SYS_PROP_WP_SW s2) as F3.
  set (s3 := (get_system_property SYS_PROP_WP_SW s2).2) in *.
  pose proof (frame_trans _ _ _ _ _ F1 (frame_trans _ _ _ _ _ F2 F3)) as F.
  simpl in F.
  assert (Hq3 : forall q, quirk_value (quirks (st_cfg s3) q) = 0).
  { intros q. destruct F. rewrite frame_quirks0. apply Hq. }
  exists ((if decide (debugging_enabled s3 <> 0)
           then print_system_properties else mret tt) s3).2.
  split.
  { destruct (decide _); [|exact F].
    exact (frame_trans _ _ _ _ _ F (quiet_print_system_properties s3)). }
  unfold update_firmware. cbv zeta. rewrite run_bind. simpl (get_cfg s).1.
  simpl (get_cfg s).2. simpl (get_image _ _). rewrite Hd. cbv beta iota.
  rewrite run_bind, try_apply_quirk_off by apply Hq. cbn [fst snd].
  destruct (decide (0 <> 0)) as [N|_]; [contradiction|].
  rewrite run_bind, try_apply_quirk_off by apply Hq. cbn [fst snd].
  destruct (decide (0 <> 0)) as [N|_]; [contradiction|].
  rewrite run_bind. simpl (get_cfg s).1. simpl (get_cfg s).2.
  simpl (get_image _ _). rewrite Hd'. cbv beta iota.
  rewrite run_bind, !run_ret. cbn [fst snd].
  destruct (decide (0 <> 0)) as [N|_]; [contradiction|].
  rewrite run_bind, check_compatible_platform_state, Hp.
  destruct (decide (0 <> 0)) as [N|_]; [contradiction|].
  rewrite run_bind. fold s1.
  rewrite run_bind. fold s2.
  rewrite run_bind. fold s3.
  rewrite run_bind, try_apply_quirk_off by apply Hq3. cbn [fst snd].
  destruct (decide (0 <> 0)) as [N|_]; [contradiction|].
  rewrite run_bind, try_apply_quirk_off by apply Hq3. cbn [fst snd].
  destruct (decide (0 <> 0)) as [N|_]; [contradiction|].
  rewrite run_bind. cbn [fst snd]. rewrite run_bind.
  reflexivity.
Qed.

Lemma do_check_compatible_tpm_keys_frame ws s s' rw_image :
  frame ws s s' ->
  (do_check_compatible_tpm_keys rw_image s').1 =
  (do_check_compatible_tpm_keys rw_image s).1.
Proof.
  intros F. unfold do_check_compatible_tpm_keys.
  destruct (get_key_versions rw_image FMAP_RW_VBLOCK_A) as [[dkv fwv]|];
    [|reflexivity].
  rewrite !run_bind, !get_system_property_value.
  destruct F. rewrite frame_props0.
  destruct (_ <? _); [reflexivity|].
  destruct (_ >? _); [reflexivity|].
  destruct (_ >? _); reflexivity.
Qed.

Lemma check_compatible_tpm_keys_frame ws s s' rw_image :
  frame ws s s' ->
  (check_compatible_tpm_keys rw_image s').1 =
  (check_compatible_tpm_keys rw_image s).1.
Proof.
  intros F. rewrite !check_compatible_tpm_keys_value. cbv zeta.
  rewrite (do_check_compatible_tpm_keys_frame _ _ _ _ F).
  destruct F. rewrite frame_force_update0. reflexivity.
Qed.

Lemma decide_rw_target_frame ws s s' t v :
  frame ws s s' -> (decide_rw_target t v s').1 = (decide_rw_target t v s).1.
Proof.
  intros F. rewrite !decide_rw_target_value. cbv zeta.
  destruct F. rewrite frame_props0. reflexivity.
Qed.

Lemma writes_head (expected : list (option string)) x
    (writes : list (option string * Z)) :
  writes.*1 `prefix_of` (x :: expected) -> writes <> [] ->
  exists w rest, writes = (x, w) :: rest.
Proof.
  destruct writes as [|[y w] rest]; [intros _ N; contradiction|].
  intros [k Hk] _. simpl in Hk. injection Hk as -> _.
  exists w, rest. reflexivity.
Qed.

(** The try-RW update behind its checks: the UPDATE slot is written iff the
    SELF slot differs. *)
Lemma try_rw_update_spec image_from image_to is_vboot2 s self :
  force_update (st_cfg s) = 0 ->
  (decide_rw_target TARGET_SELF is_vboot2 s).1 = Some self ->
  firmware_section_exists (get_image image_to (st_cfg s)) self = true ->
  let run := try_rw_update image_from image_to is_vboot2 s in
  exists writes,
    frame writes s run.2 /\
    run.1 <> UPDATE_ERR_NEED_RO_UPDATE /\
    (section_needs_update (get_image image_from (st_cfg s))
       (get_image image_to (st_cfg s)) (Some self) = 0 ->
     run.1 = UPDATE_ERR_DONE /\
     (writes = [] \/ exists w, writes = [(Some FMAP_RW_LEGACY, w)])) /\
    (section_needs_update (get_image image_from (st_cfg s))
       (get_image image_to (st_cfg s)) (Some self) <> 0 ->
     exists w rest,
       writes = ((decide_rw_target TARGET_UPDATE is_vboot2 s).1, w) :: rest).
Proof.
  intros Hforce Hself Hexists run. subst run. unfold try_rw_update.
  rewrite run_bind, Hself.
  pose proof (quiet_decide_rw_target TARGET_SELF is_vboot2 s) as F1.
  set (s1 := (decide_rw_target TARGET_SELF is_vboot2 s).2) in *.
  rewrite run_bind. simpl (get_cfg s1).1. simpl (get_cfg s1).2.
  rewrite !(frame_get_image _ _ _ _ F1), Hexists. simpl (negb true).
  cbv iota.
  assert (Hf1 : force_update (st_cfg s1) = 0)
    by (destruct F1; congruence).
  rewrite Hf1. destruct (decide (0 = 0)) as [_|N]; [|contradiction].
  set (differs := section_needs_update (get_image image_from (st_cfg s))
                    (get_image image_to (st_cfg s)) (Some self)).
  destruct (decide (differs <> 0)) as [Hd|Hd].
  - rewrite run_bind, (decide_rw_target_frame _ _ _ _ _ F1).
    pose proof (quiet_decide_rw_target TARGET_UPDATE is_vboot2 s1) as F2.
    set (s2 := (decide_rw_target TARGET_UPDATE is_vboot2 s1).2) in *.
    set (target := (decide_rw_target TARGET_UPDATE is_vboot2 s).1).
    rewrite run_bind.
    pose proof (frame_write_firmware (get_image image_to (st_cfg s)) target s2)
      as F3.
    destruct (write_firmware (get_image image_to (st_cfg s)) target s2)
      as [w s3].
    simpl in F3. simpl fst. simpl snd.
    pose proof (frame_trans _ _ _ _ _ F1 (frame_trans _ _ _ _ _ F2 F3)) as F13.
    simpl in F13.
    destruct (decide (w <> 0)).
    { eexists. split; [exact F13|]. split; [discriminate|].
      split; [intros Z0; contradiction|].
      intros _. eexists _, _. reflexivity. }
    rewrite run_bind.
    pose proof (quiet_set_try_cookies target is_vboot2 s3) as F4.
    destruct (set_try_cookies target is_vboot2 s3) as [k s4].
    simpl in F4. simpl fst. simpl snd.
    pose proof (frame_trans _ _ _ _ _ F13 F4) as F14. simpl in F14.
    destruct (decide (k <> 0)).
    { eexists. split; [exact F14|]. split; [discriminate|].
      split; [intros Z0; contradiction|].
      intros _. eexists _, _. reflexivity. }
    destruct (try_rw_legacy_spec image_to s4) as (Hr & ws & F5 & _).
    eexists. split; [exact (frame_trans _ _ _ _ _ F14 F5)|].
    split; [rewrite Hr; discriminate|].
    split; [intros Z0; contradiction|].
    intros _. eexists _, _. reflexivity.
  - assert (Hz : differs = 0) by lia.
    lazymatch goal with
    | |- context [(?m ≫= _) s1] => set (clear_cookies := m)
    end.
    assert (F2 : frame [] s1 (clear_cookies s1).2).
    { unfold clear_cookies. destruct (decide _); [|apply frame_refl].
      rewrite run_bind. simpl. split; try reflexivity.
      eexists. split; reflexivity. }
    rewrite run_bind.
    set (s2 := (clear_cookies s1).2) in *.
    destruct (try_rw_legacy_spec image_to s2) as (Hr & ws & F3 & Hshape & _).
    exists ws. split.
    + exact (frame_trans _ _ _ _ _ F1 (frame_trans _ _ _ _ _ F2 F3)).
    + split; [rewrite Hr; discriminate|].
      split; [|intros N; contradiction].
      intros _. split; [exact Hr|exact Hshape].
Qed.

Lemma frame_with_image ws i s s1 :
  frame ws s s1 -> frame ws (with_image i s) (with_image i s1).
Proof.
  intros [a1 a2 a3 a4 a5 a6 a7 a8 a9 a10 a11 a12 a13].
  split; simpl; try assumption; reflexivity.
Qed.

Lemma check_compatible_tpm_keys_with_image i s rw_image :
  (check_compatible_tpm_keys rw_image (with_image i s)).1 =
  (check_compatible_tpm_keys rw_image s).1.
Proof.
  rewrite !check_compatible_tpm_keys_value. cbv zeta.
  replace ((do_check_compatible_tpm_keys rw_image (with_image i s)).1)
    with ((do_check_compatible_tpm_keys rw_image s).1); [reflexivity|].
  unfold do_check_compatible_tpm_keys.
  destruct (get_key_versions rw_image FMAP_RW_VBLOCK_A) as [[dkv fwv]|];
    [|reflexivity].
  rewrite !run_bind, !get_system_property_value.
  change (property_value SYS_PROP_TPM_FWVER (with_image i s))
    with (property_value SYS_PROP_TPM_FWVER s).
  destruct (_ <? _); [reflexivity|].
  destruct (_ >? _); [reflexivity|].
  destruct (_ >? _); reflexivity.
Qed.

(** The try-RW update whose checks pass arrives at the choice of its target
    with the preserved candidate and nothing written. *)
Lemma update_try_rw_firmware_reach wp_enabled s :
  let cur := image_current (st_cfg s) in
  let img := (preserve_gbb cur (image (st_cfg s))).2 in
  ~ (wp_enabled = 0 /\
     section_needs_update cur img (Some FMAP_RO_SECTION) <> 0) ->
  check_compatible_root_key cur img = 0 ->
  (check_compatible_tpm_keys img s).1 = 0 ->
  exists s3,
    frame [] (with_image img s) s3 /\
    update_try_rw_firmware IMAGE_CURRENT IMAGE wp_enabled s =
    try_rw_update IMAGE_CURRENT IMAGE (property_value SYS_PROP_FW_VBOOT2 s) s3.
Proof.
  intros cur img Hro Hroot Htpm.
  pose proof (quiet_get_system_property SYS_PROP_FW_VBOOT2 s) as F1.
  set (s1 := (get_system_property SYS_PROP_FW_VBOOT2 s).2) in *.
  assert (Hcur : image_current (st_cfg s1) = cur) by (destruct F1; assumption).
  assert (Himg : image (st_cfg s1) = image (st_cfg s)) by (destruct F1; assumption).
  pose proof (frame_with_image _ img _ _ F1) as F2.
  pose proof (quiet_check_compatible_tpm_keys img (with_image img s1)) as F3.
  exists (check_compatible_tpm_keys img (with_image img s1)).2.
  split; [exact (frame_trans _ _ _ _ _ F2 F3)|].
  unfold update_try_rw_firmware.
  rewrite run_bind, get_system_property_value. fold s1.
  rewrite run_bind. simpl (get_cfg s1).1. simpl (get_cfg s1).2.
  simpl (get_image _ _). rewrite Hcur, Himg. fold img.
  rewrite run_bind.
  change ((modify_cfg (set_image IMAGE img) s1).2) with (with_image img s1).
  rewrite run_bind.
  cbn [get_cfg fst snd get_image with_image st_cfg set_image image
       image_current].
  rewrite Hcur.
  destruct (decide (wp_enabled = 0 /\ _)) as [N|_]; [contradiction|].
  destruct (decide (check_compatible_root_key cur img <> 0)) as [N|_];
    [contradiction|].
  rewrite run_bind.
  rewrite (check_compatible_tpm_keys_frame _ _ _ _ F2).
  rewrite check_compatible_tpm_keys_with_image, Htpm.
  destruct (decide (0 <> 0)) as [N|_]; [contradiction|].
  reflexivity.
Qed.

End Rerun.

Section RerunClaim.

Context {L : vb2_struct} {V : vboot_lib} {E : environment} {Q : quirk_table}.

Lemma new_events_with_image i s s' :
  new_events (with_image i s) s' = new_events s s'.
Proof. reflexivity. Qed.

Lemma decide_rw_target_with_image i t v s :
  (decide_rw_target t v (with_image i s)).1 = (decide_rw_target t v s).1.
Proof. rewrite !decide_rw_target_value. reflexivity. Qed.

(** C7, as the code has it: from a ready configuration with force_update
    == 0, the RW-only strategy (no try mode, write protection enabled,
    checks passed) starts writing at RW_SECTION_A on every run and goes
    through its sections up to the first failure, whatever the flash holds;
    the try-RW strategy (checks passed, SELF slot present in the candidate)
    writes nothing but possibly RW_LEGACY and returns UPDATE_ERR_DONE when
    the SELF slot of the current image equals the candidate's, and begins
    by writing the UPDATE slot when it differs. *)
Theorem C7_rerun_repeats_writes (s : state) :
  ready s -> force_update (st_cfg s) = 0 ->
  let c := st_cfg s in
  let cur := image_current c in
  let wp_enabled := (is_write_protection_enabled s).1 in
  let run := update_firmware s in
  let writes := firmware_writes (new_events s run.2) in
  (try_update c = 0 -> wp_enabled <> 0 ->
   check_compatible_root_key cur (image c) = 0 ->
   (check_compatible_tpm_keys (image c) s).1 = 0 ->
   (exists w rest, writes = (Some FMAP_RW_SECTION_A, w) :: rest) /\
   stops_at_first_failure (rw_sections (image c)) writes run.1) /\
  (try_update c <> 0 ->
   let is_vboot2 := property_value SYS_PROP_FW_VBOOT2 s in
   let img := (preserve_gbb cur (image c)).2 in
   ~ (wp_enabled = 0 /\
      section_needs_update cur img (Some FMAP_RO_SECTION) <> 0) ->
   check_compatible_root_key cur img = 0 ->
   (check_compatible_tpm_keys img s).1 = 0 ->
   forall self,
     (decide_rw_target TARGET_SELF is_vboot2 s).1 = Some self ->
     firmware_section_exists img self = true ->
     (section_needs_update cur img (Some self) = 0 ->
      run.1 = UPDATE_ERR_DONE /\
      (writes = [] \/ exists w, writes = [(Some FMAP_RW_LEGACY, w)])) /\
     (section_needs_update cur img (Some self) <> 0 ->
      exists w rest,
        writes =
          ((decide_rw_target TARGET_UPDATE is_vboot2 s).1, w) :: rest)).
Proof.
  intros Hready Hforce c cur wp_enabled run writes.
  destruct (update_firmware_ready s Hready) as (s' & F & Hrun).
  fold wp_enabled in Hrun.
  assert (Hlegacy : legacy_update (st_cfg s') = 0).
  { destruct F, Hready as (_ & _ & _ & _ & Hl). congruence. }
  assert (Htry : try_update (st_cfg s') = try_update c) by (destruct F; assumption).
  assert (Himg : image (st_cfg s') = image c) by (destruct F; assumption).
  assert (Hcur : image_current (st_cfg s') = cur) by (destruct F; assumption).
  assert (Hf' : force_update (st_cfg s') = 0) by (destruct F; congruence).
  unfold select_strategy in Hrun. rewrite run_bind in Hrun.
  simpl (get_cfg s').1 in Hrun. simpl (get_cfg s').2 in Hrun.
  rewrite Hlegacy, Htry in Hrun.
  destruct (decide (0 <> 0)) as [N|_]; [contradiction|].
  split.
  - (* the RW-only strategy *)
    intros Ht Hwp Hroot Htpm. rewrite Ht in Hrun.
    destruct (decide (0 <> 0)) as [N|_]; [contradiction|].
    rewrite run_bind, run_ret in Hrun. cbn [fst snd] in Hrun.
    destruct (decide (0 <> 0 /\ _)) as [[N _]|_]; [contradiction|].
    destruct (decide (wp_enabled <> 0)) as [_|N]; [|contradiction].
    assert (Hroot' : check_compatible_root_key
                       (get_image IMAGE_CURRENT (st_cfg s'))
                       (get_image IMAGE (st_cfg s')) = 0)
      by (simpl; rewrite Hcur, Himg; exact Hroot).
    assert (Htpm' : (check_compatible_tpm_keys
                       (get_image IMAGE (st_cfg s')) s').1 = 0).
    { simpl. rewrite Himg, (check_compatible_tpm_keys_frame _ _ _ _ F).
      exact Htpm. }
    destruct (update_rw_firmrware_spec IMAGE_CURRENT IMAGE s' Hroot' Htpm')
      as (ws & Fw & Hs).
    assert (Hwrites : writes = ws).
    { unfold writes, run. rewrite Hrun.
      apply frame_writes. exact (frame_trans _ _ _ _ _ F Fw). }
    rewrite Hwrites. unfold run. rewrite Hrun. simpl in Hs. rewrite Himg in Hs.
    split; [|exact Hs].
    destruct Hs as [(_ & He & _)|(_ & done & failed & Hd & _ & _ & Hp)].
    + destruct ws as [|[x w] rest]; [discriminate|].
      injection He as -> _. exists w, rest. reflexivity.
    + apply (writes_head _ _ _ Hp). rewrite Hd. intros N.
      apply app_eq_nil in N as [_ [=]].
  - (* the try-RW strategy *)
    intros Ht is_vboot2 img Hro Hroot Htpm self Hself Hexists.
    destruct (decide (try_update c <> 0)) as [_|N]; [|contradiction].
    rewrite run_bind in Hrun.
    assert (Hwp' : (is_write_protection_enabled s).1 = wp_enabled) by reflexivity.
    destruct (update_try_rw_firmware_reach wp_enabled s') as (s3 & F3 & Hreach).
    { rewrite Hcur, Himg. exact Hro. }
    { rewrite Hcur, Himg. exact Hroot. }
    { rewrite Hcur, Himg, (check_compatible_tpm_keys_frame _ _ _ _ F).
      exact Htpm. }
    rewrite Hcur, Himg in F3. fold img in F3.
    assert (Hv : property_value SYS_PROP_FW_VBOOT2 s' = is_vboot2)
      by (destruct F; apply frame_props0).
    rewrite Hv in Hreach. rewrite Hreach in Hrun.
    pose proof (frame_trans _ _ _ _ _ (frame_with_image _ img _ _ F) F3) as F03.
    simpl in F03.
    assert (H3f : force_update (st_cfg s3) = 0)
      by (destruct F03; simpl in *; congruence).
    assert (H3i : get_image IMAGE (st_cfg s3) = img)
      by (destruct F03; simpl in *; assumption).
    assert (H3c : get_image IMAGE_CURRENT (st_cfg s3) = cur)
      by (destruct F03; simpl in *; assumption).
    assert (H3s : (decide_rw_target TARGET_SELF is_vboot2 s3).1 = Some self).
    { rewrite (decide_rw_target_frame _ _ _ _ _ F03),
        decide_rw_target_with_image. exact Hself. }
    assert (H3u : (decide_rw_target TARGET_UPDATE is_vboot2 s3).1 =
                  (decide_rw_target TARGET_UPDATE is_vboot2 s).1).
    { rewrite (decide_rw_target_frame _ _ _ _ _ F03).
      apply decide_rw_target_with_image. }
    destruct (try_rw_update_spec IMAGE_CURRENT IMAGE is_vboot2 s3 self H3f H3s)
      as (ws & Fw & Hne & Hsame & Hdiff).
    { rewrite H3i. exact Hexists. }
    rewrite H3i, H3c in Hsame, Hdiff. rewrite H3u in Hdiff.
    destruct (decide (_ /\ _)) as [_|N]; [|exfalso; apply N; split; assumption].
    rewrite run_ret in Hrun.
    assert (Hwrites : writes = ws).
    { unfold writes, run. rewrite Hrun. cbn [snd].
      rewrite <- (new_events_with_image img).
      apply frame_writes. exact (frame_trans _ _ _ _ _ F03 Fw). }
    assert (Hres : run.1 = (try_rw_update IMAGE_CURRENT IMAGE is_vboot2 s3).1)
      by (unfold run; rewrite Hrun; reflexivity).
    rewrite Hwrites, Hres. split; assumption.
Qed.

End RerunClaim.

Lemma Board_ready try :
  ready (Board.start
           (Board.config Board.candidate Board.current
              (Board.overridden 0 65537 1 1 1) try 0 0 None) Board.world0).
Proof.
  unfold ready. simpl. split; [eexists; reflexivity|].
  split; [eexists; reflexivity|]. split; [intros q; reflexivity|].
  split; [vm_compute; reflexivity|reflexivity].
Qed.

(** C7 as amended, on the test board: with the write protection enabled and
    no try mode the update starts by writing RW_SECTION_A; in try mode with
    slot A active and a differing RW_SECTION_A it starts by writing
    RW_SECTION_B. *)
Lemma C7_rerun_repeats_writes_witness :
  let s try :=
    Board.start
      (Board.config Board.candidate Board.current
         (Board.overridden 0 65537 1 1 1) try 0 0 None) Board.world0 in
  let writes try :=
    firmware_writes
      (new_events (s try)
         (@update_firmware Board.vb2_struct_h Board.lib Board.env
            Board.no_quirks (s try)).2) in
  (exists w rest, writes 0 = (Some FMAP_RW_SECTION_A, w) :: rest) /\
  (exists w rest, writes 1 = (Some FMAP_RW_SECTION_B, w) :: rest).
Proof.
  intros s writes. split.
  - destruct (@C7_rerun_repeats_writes Board.vb2_struct_h Board.lib Board.env
                Board.no_quirks (s 0) (Board_ready 0) eq_refl) as [HC _].
    destruct HC as [Hhead _]; try reflexivity.
    + vm_compute. discriminate.
    + exact Hhead.
  - destruct (@C7_rerun_repeats_writes Board.vb2_struct_h Board.lib Board.env
                Board.no_quirks (s 1) (Board_ready 1) eq_refl) as [_ HB].
    destruct (HB ltac:(vm_compute; discriminate)
                 ltac:(vm_compute; intros [N _]; discriminate N)
                 ltac:(vm_compute; reflexivity)
                 ltac:(vm_compute; reflexivity)
                 FMAP_RW_SECTION_A
                 ltac:(vm_compute; reflexivity)
                 ltac:(vm_compute; reflexivity)) as [_ Hdiff].
    destruct Hdiff as (w & rest & Hw); [vm_compute; discriminate|].
    exists w, rest. exact Hw.
Defined.

(** C7 fails as stated: under emulation, with force_update == 0, the same
    update is run twice on the test board, the host unchanged; both runs
    return UPDATE_ERR_DONE, and the second run writes again: all four
    sections in the RW-only strategy, RW_SECTION_B in the try-RW
    strategy. *)
Lemma C7_second_run_writes_again :
  let run try w :=
    @emulated_run Board.vb2_struct_h Board.lib Board.env Board.no_quirks
      (Board.config Board.candidate (Board.no_image PROG_HOST)
         (Board.overridden 0 65537 1 1 1) try 0 0 None)
      Board.emu_file w in
  let second try :=
    let r1 := run try Board.world_emu in
    let r2 := run try r1.2 in
    (r1.1, r2.1, w_host r2.2,
     firmware_writes (drop (length (w_trace r1.2)) (w_trace r2.2))) in
  second 0 =
    (UPDATE_ERR_DONE, UPDATE_ERR_DONE, Board.host0,
     [(Some FMAP_RW_SECTION_A, 0); (Some FMAP_RW_SECTION_B, 0);
      (Some FMAP_RW_SHARED, 0); (Some FMAP_RW_LEGACY, 0)]) /\
  second 1 =
    (UPDATE_ERR_DONE, UPDATE_ERR_DONE, Board.host0,
     [(Some FMAP_RW_SECTION_B, 0)]).
Proof. split; vm_compute; reflexivity. Qed.

(** ** Preserving the GBB *)

Section Gbb.

Context {L : vb2_struct} {V : vboot_lib}.

Lemma int_of_length (d : list byte) (n : nat) :
  Z.of_nat (length d) < 2 ^ 31 -> (n <= length d)%nat ->
  CInt.to_int (Z.of_nat n) = Z.of_nat n /\
  CInt.to_u32 (Z.of_nat n) = Z.of_nat n /\
  CInt.to_size_t (Z.of_nat n) = Z.of_nat n.
Proof.
  intros Hd Hn. split; [|split].
  - apply CIntFacts.to_int_id. unfold CInt.int_range. lia.
  - apply CIntFacts.to_u32_id. unfold CInt.u32_range. lia.
  - unfold CInt.to_size_t. apply Z.mod_small. lia.
Qed.

(** C5, as the code has it: preserve_gbb fails, leaving the destination as
    it is, when one of the images has no valid GBB header.  With two valid
    headers (the header fields laid out apart from each other, the
    destination HWID area behind the flags and inside the buffer, the
    source buffer below 2 GiB) it succeeds iff strlen(source HWID) + 1 <=
    destination hwid_size; in both outcomes the destination flags are those
    of the source; on the failure nothing but the flags has changed; on
    success the HWID area holds the source HWID followed by zeros and
    nothing outside the flags and the HWID area has changed. *)
Theorem C5_preserve_gbb (image_from image_to : firmware_image) :
  let r := preserve_gbb image_from image_to in
  (find_gbb image_from = None \/ find_gbb image_to = None ->
   r = (-1, image_to)) /\
  (forall gbb_from gbb_to,
     find_gbb image_from = Some gbb_from ->
     find_gbb image_to = Some gbb_to ->
     let d_from := image_bytes image_from in
     let d_to := image_bytes image_to in
     let d' := image_bytes r.2 in
     let flags := (gbb_to + gbb_flags_offset)%nat in
     let hwid_size := Mem.read_u32 d_to (gbb_to + gbb_hwid_size_offset) in
     let hwid_to :=
       (gbb_to + Z.to_nat (Mem.read_u32 d_to (gbb_to + gbb_hwid_offset_offset)))%nat in
     let hwid_from :=
       (gbb_from +
        Z.to_nat (Mem.read_u32 d_from (gbb_from + gbb_hwid_offset_offset)))%nat in
     let len := Mem.strlen (drop hwid_from d_from) in
     fields_apart gbb_flags_offset gbb_hwid_offset_offset ->
     fields_apart gbb_flags_offset gbb_hwid_size_offset ->
     Z.of_nat (length d_from) < 2 ^ 31 ->
     (flags + 4 <= hwid_to)%nat ->
     (hwid_to + Z.to_nat hwid_size <= length d_to)%nat ->
     (r.1 = 0 <-> Z.of_nat len + 1 <= hwid_size) /\
     (r.1 <> 0 -> r.1 = -1) /\
     Mem.read_u32 d' flags =
       Mem.read_u32 d_from (gbb_from + gbb_flags_offset) /\
     (r.1 <> 0 ->
      forall j, (j < flags \/ flags + 4 <= j)%nat -> d' !! j = d_to !! j) /\
     (r.1 = 0 ->
      Mem.read_bytes d' hwid_to (Z.to_nat hwid_size) =
        take len (drop hwid_from d_from) ++
        replicate (Z.to_nat hwid_size - len) Byte.x00 /\
      forall j, (j < flags \/ flags + 4 <= j)%nat ->
                (j < hwid_to \/ hwid_to + Z.to_nat hwid_size <= j)%nat ->
                d' !! j = d_to !! j)).
Proof.
  intros r. subst r. split.
  { unfold preserve_gbb. intros [H|H]; rewrite H; [reflexivity|].
    destruct (find_gbb image_from); reflexivity. }
  intros gbb_from gbb_to Hfrom Hto d_from d_to d' flags hwid_size hwid_to
    hwid_from len Ha1 Ha2 Hsmall Hflags Harea.
  assert (Hlen : (len <= length d_from)%nat).
  { unfold len. pose proof (MemFacts.strlen_le (drop hwid_from d_from)) as H.
    rewrite length_drop in H. lia. }
  destruct (int_of_length d_from len Hsmall Hlen) as (Hint & Hu32 & Hsz).
  set (v := Mem.read_u32 d_from (gbb_from + gbb_flags_offset)).
  set (d1 := Mem.write_u32 d_to flags v).
  assert (Hl1 : length d1 = length d_to) by apply MemFacts.length_write_bytes.
  assert (Hv : 0 <= v < 2 ^ 32) by apply MemFacts.read_u32_range.
  assert (Hs : 0 <= hwid_size < 2 ^ 32) by apply MemFacts.read_u32_range.
  assert (F1 : Mem.read_u32 d1 (gbb_to + gbb_hwid_offset_offset) =
               Mem.read_u32 d_to (gbb_to + gbb_hwid_offset_offset)).
  { apply MemFacts.read_u32_write_bytes_apart.
    rewrite MemFacts.length_le_split. unfold flags, fields_apart in *. lia. }
  assert (F2 : Mem.read_u32 d1 (gbb_to + gbb_hwid_size_offset) = hwid_size).
  { apply MemFacts.read_u32_write_bytes_apart.
    rewrite MemFacts.length_le_split. unfold flags, fields_apart in *. lia. }
  assert (F3 : Mem.read_u32 d1 flags = v).
  { apply MemFacts.read_u32_write_u32_same; [lia|exact Hv]. }
  assert (Hr : preserve_gbb image_from image_to =
    if Z.of_nat len >=? hwid_size then (-1, set_image_data image_to d1)
    else (0, set_image_data image_to
               (Mem.write_bytes
                  (Mem.write_bytes d1 hwid_to
                     (replicate (Z.to_nat hwid_size) Byte.x00))
                  hwid_to (take len (drop hwid_from d_from))))).
  { unfold preserve_gbb. rewrite Hfrom, Hto.
    fold d_from d_to flags v d1. rewrite F1, F2.
    fold hwid_to hwid_from len. rewrite Hint, Hu32, Hsz, Nat2Z.id.
    reflexivity. }
  unfold d'. rewrite Hr. clear Hr d'.
  destruct (Z.geb_spec (Z.of_nat len) hwid_size) as [Hge|Hlt].
  - (* the HWID does not fit *)
    cbn [fst snd]. rewrite image_bytes_set_image_data.
    split; [split; [discriminate|lia]|]. split; [reflexivity|].
    split; [exact F3|]. split; [|intros [=]].
    intros _ j [Hj|Hj].
    + apply MemFacts.lookup_write_bytes_lt. exact Hj.
    + apply MemFacts.lookup_write_bytes_ge.
      rewrite MemFacts.length_le_split. exact Hj.
  - (* the HWID fits *)
    cbn [fst snd]. rewrite image_bytes_set_image_data.
    set (zeros := replicate (Z.to_nat hwid_size) Byte.x00).
    set (src := take len (drop hwid_from d_from)).
    assert (Hlz : length zeros = Z.to_nat hwid_size) by apply length_replicate.
    assert (Hls : length src = len).
    { unfold src. rewrite length_take.
      pose proof (MemFacts.strlen_le (drop hwid_from d_from)). fold len in H.
      lia. }
    set (d2 := Mem.write_bytes d1 hwid_to zeros).
    assert (Hl2 : length d2 = length d_to).
    { unfold d2. rewrite MemFacts.length_write_bytes. exact Hl1. }
    split; [split; [lia|reflexivity]|]. split; [intros N; contradiction|].
    split; [|split; [intros N; contradiction|intros _; split]].
    + rewrite MemFacts.read_u32_write_bytes_apart by lia. unfold d2.
      rewrite MemFacts.read_u32_write_bytes_apart by lia. exact F3.
    + apply list_eq. intros i.
      destruct (decide (i < Z.to_nat hwid_size)%nat) as [Hi|Hi].
      * rewrite MemFacts.lookup_read_bytes by exact Hi.
        destruct (decide (i < len)%nat) as [Hil|Hil].
        -- rewrite MemFacts.lookup_write_bytes_in by lia.
           rewrite lookup_app_l by lia. reflexivity.
        -- rewrite MemFacts.lookup_write_bytes_ge by lia.
           unfold d2. rewrite MemFacts.lookup_write_bytes_in by lia.
           rewrite lookup_app_r by lia. unfold zeros.
           rewrite !lookup_replicate_2 by lia. reflexivity.
      * unfold Mem.read_bytes. rewrite lookup_take_ge by lia.
        symmetry. apply lookup_ge_None_2.
        rewrite length_app, length_replicate. lia.
    + intros j Hjf Hjh.
      assert (Hj2 : Mem.write_bytes d2 hwid_to src !! j = d2 !! j).
      { destruct Hjh; [apply MemFacts.lookup_write_bytes_lt
                      |apply MemFacts.lookup_write_bytes_ge]; lia. }
      assert (Hj1 : d2 !! j = d1 !! j).
      { unfold d2.
        destruct Hjh; [apply MemFacts.lookup_write_bytes_lt
                      |apply MemFacts.lookup_write_bytes_ge]; lia. }
      rewrite Hj2, Hj1. unfold d1, Mem.write_u32.
      destruct Hjf; [apply MemFacts.lookup_write_bytes_lt
                    |apply MemFacts.lookup_write_bytes_ge]; 
        rewrite ?MemFacts.length_le_split; lia.
Qed.

End Gbb.

(** C5 as amended, on the test board: the GBB of the flash (flags 0x39,
    HWID "TEST A1B-C") is preserved into the candidate, whose HWID area has
    32 bytes. *)
Lemma C5_preserve_gbb_witness :
  let r := @preserve_gbb Board.vb2_struct_h Board.lib Board.current
             Board.candidate in
  r.1 = 0 /\ Mem.read_u32 (image_bytes r.2) 140 = 57.
Proof.
  intros r.
  destruct (@C5_preserve_gbb Board.vb2_struct_h Board.lib Board.current
              Board.candidate) as [_ H].
  destruct (H 128%nat 128%nat eq_refl eq_refl) as (H1 & _ & H3 & _).
  - unfold fields_apart. simpl. lia.
  - unfold fields_apart. simpl. lia.
  - vm_compute. reflexivity.
  - vm_compute. lia.
  - vm_compute. lia.
  - split; [apply H1; vm_compute; discriminate|exact H3].
Defined.

(** C5 fails as stated: the HWID of the flash (10 characters) does not fit
    the 8 bytes the candidate has for it, preserve_gbb fails, and the flags
    of the candidate have changed from 0 to those of the flash. *)
Lemma C5_failure_changes_flags :
  let r := @preserve_gbb Board.vb2_struct_h Board.lib Board.current
             Board.candidate_small_hwid in
  r.1 = -1 /\
  Mem.strlen (drop 256 (image_bytes Board.current)) = 10%nat /\
  Mem.read_u32 (image_bytes Board.candidate_small_hwid) 148 = 8 /\
  Mem.read_u32 (image_bytes Board.candidate_small_hwid) 140 = 0 /\
  Mem.read_u32 (image_bytes r.2) 140 = 57.
Proof. repeat split; vm_compute; reflexivity. Qed.

(** ** The RW target *)

Section TargetClaim.

Context {L : vb2_struct} {V : vboot_lib} {E : environment} {Q : quirk_table}.

(** The TPM check looks at the property values and at the force flag of
    the state only. *)
Lemma check_compatible_tpm_keys_same rw_image s s' :
  (forall q, property_value q s' = property_value q s) ->
  force_update (st_cfg s') = force_update (st_cfg s) ->
  (check_compatible_tpm_keys rw_image s').1 =
  (check_compatible_tpm_keys rw_image s).1.
Proof.
  intros Hp Hf. rewrite !check_compatible_tpm_keys_value. cbv zeta.
  rewrite Hf.
  replace ((do_check_compatible_tpm_keys rw_image s').1)
    with ((do_check_compatible_tpm_keys rw_image s).1); [reflexivity|].
  unfold do_check_compatible_tpm_keys.
  destruct (get_key_versions rw_image FMAP_RW_VBLOCK_A) as [[dkv fwv]|];
    [|reflexivity].
  rewrite !run_bind, !get_system_property_value, Hp.
  destruct (_ <? _); [reflexivity|].
  destruct (_ >? _); [reflexivity|].
  destruct (_ >? _); reflexivity.
Qed.

(** The try-RW update when no slot is known to be active: the checks that
    come before the choice of the target decide, and UPDATE_ERR_TARGET is
    the result only if all of them pass.  Nothing happens but reads of
    properties. *)
Lemma update_try_rw_firmware_unknown_slot image_from image_to wp_enabled s :
  property_value SYS_PROP_FW_VBOOT2 s <> 0 ->
  property_value SYS_PROP_MAINFW_ACT s <> SLOT_A ->
  property_value SYS_PROP_MAINFW_ACT s <> SLOT_B ->
  let c := st_cfg s in
  let c' := set_image image_to
              (preserve_gbb (get_image image_from c)
                 (get_image image_to c)).2 c in
  let from := get_image image_from c' in
  let to := get_image image_to c' in
  let run := update_try_rw_firmware image_from image_to wp_enabled s in
  run.1 =
    (if decide (wp_enabled = 0 /\
                section_needs_update from to (Some FMAP_RO_SECTION) <> 0)
     then UPDATE_ERR_NEED_RO_UPDATE
     else if decide (check_compatible_root_key from to <> 0)
     then UPDATE_ERR_ROOT_KEY
     else if decide ((check_compatible_tpm_keys to s).1 <> 0)
     then UPDATE_ERR_TPM_ROLLBACK
     else UPDATE_ERR_TARGET) /\
  reads_only s run.2.
Proof.
  intros Hv Ha Hb c c' from to run. subst run.
  unfold update_try_rw_firmware.
  rewrite run_bind, get_system_property_value.
  pose proof (quiet_get_system_property SYS_PROP_FW_VBOOT2 s) as F1.
  pose proof (reading_get_system_property SYS_PROP_FW_VBOOT2 s) as R1.
  set (s1 := (get_system_property SYS_PROP_FW_VBOOT2 s).2) in *.
  rewrite run_bind. simpl (get_cfg s1).1. simpl (get_cfg s1).2.
  rewrite !(frame_get_image _ _ _ _ F1). fold c.
  set (img := (preserve_gbb (get_image image_from c) (get_image image_to c)).2)
    in *.
  rewrite run_bind.
  set (s2 := (modify_cfg (set_image image_to img) s1).2).
  assert (H2 : forall q, property_value q s2 = property_value q s).
  { intros q. unfold s2. rewrite property_value_set_image.
    apply (frame_props _ _ _ F1). }
  assert (Hf2 : force_update (st_cfg s2) = force_update (st_cfg s)).
  { unfold s2. destruct image_to; simpl; apply (frame_force_update _ _ _ F1). }
  assert (Hg2 : forall r, get_image r (st_cfg s2) = get_image r c').
  { intros r. unfold s2, c'. destruct F1.
    destruct r, image_to; simpl; assumption || reflexivity. }
  assert (R2 : reads_only s s2).
  { apply (reads_only_same_world _ _ _ R1). reflexivity. }
  rewrite run_bind. simpl (get_cfg s2).1. simpl (get_cfg s2).2.
  rewrite !Hg2. fold from to.
  destruct (decide (wp_enabled = 0 /\ _)).
  { rewrite run_ret. split; [reflexivity|exact R2]. }
  destruct (decide (check_compatible_root_key from to <> 0)).
  { rewrite run_ret. split; [reflexivity|exact R2]. }
  rewrite run_bind.
  rewrite (check_compatible_tpm_keys_same to s s2 H2 Hf2).
  pose proof (quiet_check_compatible_tpm_keys to s2) as F3.
  pose proof (reading_check_compatible_tpm_keys to s2) as R3.
  set (s3 := (check_compatible_tpm_keys to s2).2) in *.
  pose proof (reads_only_trans _ _ _ R2 R3) as R23.
  destruct (decide ((check_compatible_tpm_keys to s).1 <> 0)).
  { rewrite run_ret. split; [reflexivity|exact R23]. }
  unfold try_rw_update. rewrite run_bind, decide_rw_target_value.
  cbv zeta. rewrite (frame_props _ _ _ F3), H2.
  destruct (decide (property_value SYS_PROP_FW_VBOOT2 s = 0));
    [contradiction|].
  destruct (decide (property_value SYS_PROP_MAINFW_ACT s = SLOT_A));
    [contradiction|].
  destruct (decide (property_value SYS_PROP_MAINFW_ACT s = SLOT_B));
    [contradiction|].
  rewrite run_ret. split; [reflexivity|].
  exact (reads_only_trans _ _ _ R23
           (reading_decide_rw_target TARGET_SELF _ s3)).
Qed.

(** C2: the RW target is a function of the vboot generation, the active
    slot and the target type.  vboot1: UPDATE is RW_SECTION_B and SELF is
    RW_SECTION_A, whatever the slot.  vboot2 with slot A: UPDATE is B, SELF
    is A; with slot B: UPDATE is A, SELF is B; with any other slot there is
    no target.  The try-RW updater chooses its target behind its checks:
    without a target it returns UPDATE_ERR_NEED_RO_UPDATE,
    UPDATE_ERR_ROOT_KEY or UPDATE_ERR_TPM_ROLLBACK if the check of that
    name is the first to fail, and UPDATE_ERR_TARGET if all of them pass;
    in every case it has done nothing but read properties.  For every
    generation and known slot the two targets exist and differ. *)
Theorem C2_rw_target_selector (s : state) (is_vboot2 : Z)
    (image_from image_to : image_ref) (wp_enabled : Z) :
  let slot := property_value SYS_PROP_MAINFW_ACT s in
  let sel t := (decide_rw_target t is_vboot2 s).1 in
  let a := Some FMAP_RW_SECTION_A in
  let b := Some FMAP_RW_SECTION_B in
  (forall s' t, property_value SYS_PROP_MAINFW_ACT s' = slot ->
     (decide_rw_target t is_vboot2 s').1 = sel t) /\
  (is_vboot2 = 0 -> sel TARGET_UPDATE = b /\ sel TARGET_SELF = a) /\
  (is_vboot2 <> 0 -> slot = SLOT_A ->
     sel TARGET_UPDATE = b /\ sel TARGET_SELF = a) /\
  (is_vboot2 <> 0 -> slot = SLOT_B ->
     sel TARGET_UPDATE = a /\ sel TARGET_SELF = b) /\
  (is_vboot2 <> 0 -> slot <> SLOT_A -> slot <> SLOT_B ->
     sel TARGET_UPDATE = None /\ sel TARGET_SELF = None /\
     (is_vboot2 = property_value SYS_PROP_FW_VBOOT2 s ->
      let c := st_cfg s in
      let c' := set_image image_to
                  (preserve_gbb (get_image image_from c)
                     (get_image image_to c)).2 c in
      let from := get_image image_from c' in
      let to := get_image image_to c' in
      let run := update_try_rw_firmware image_from image_to wp_enabled s in
      run.1 =
        (if decide (wp_enabled = 0 /\
                    section_needs_update from to (Some FMAP_RO_SECTION) <> 0)
         then UPDATE_ERR_NEED_RO_UPDATE
         else if decide (check_compatible_root_key from to <> 0)
         then UPDATE_ERR_ROOT_KEY
         else if decide ((check_compatible_tpm_keys to s).1 <> 0)
         then UPDATE_ERR_TPM_ROLLBACK
         else UPDATE_ERR_TARGET) /\
      Forall getter_event (new_events s run.2))) /\
  (is_vboot2 = 0 \/ slot = SLOT_A \/ slot = SLOT_B ->
     sel TARGET_UPDATE <> sel TARGET_SELF /\
     is_Some (sel TARGET_UPDATE) /\ is_Some (sel TARGET_SELF)).
Proof.
  intros slot sel a b. subst sel. cbv beta.
  split; [|split; [|split; [|split; [|split]]]].
  - intros s' t Hs'. rewrite !decide_rw_target_value. simpl. rewrite Hs'.
    reflexivity.
  - intros H0. rewrite !decide_rw_target_value. simpl.
    destruct (decide (is_vboot2 = 0)); [split; reflexivity|contradiction].
  - intros Hv Hs. rewrite !decide_rw_target_value. simpl. fold slot.
    rewrite Hs.
    destruct (decide (is_vboot2 = 0)); [contradiction|split; reflexivity].
  - intros Hv Hs. rewrite !decide_rw_target_value. simpl. fold slot.
    rewrite Hs.
    destruct (decide (is_vboot2 = 0)); [contradiction|split; reflexivity].
  - intros Hv Ha Hb. rewrite !decide_rw_target_value. simpl. fold slot.
    destruct (decide (is_vboot2 = 0)); [contradiction|].
    destruct (decide (slot = SLOT_A)); [contradiction|].
    destruct (decide (slot = SLOT_B)); [contradiction|].
    split; [reflexivity|]. split; [reflexivity|].
    intros Heq. subst is_vboot2.
    destruct (update_try_rw_firmware_unknown_slot image_from image_to
                wp_enabled s Hv Ha Hb) as [Hr Hread].
    split; [exact Hr|]. apply reads_only_new_events. exact Hread.
  - intros Hk. rewrite !decide_rw_target_value. simpl. fold slot.
    unfold SLOT_A, SLOT_B in *.
    repeat split;
      repeat (destruct (decide _); try discriminate);
      try (eexists; reflexivity); try lia.
Qed.

End TargetClaim.

(** C2, on the test board: vboot1 selects RW_SECTION_B for the update, and
    under vboot2 with an unknown slot the try-RW update, all checks
    passed, stops with UPDATE_ERR_TARGET. *)
Lemma C2_rw_target_selector_witness :
  let s := Board.start
             (Board.config Board.candidate Board.current
                (Board.overridden (-1) 65537 1 1 1) 1 0 0 None)
             Board.world0 in
  (decide_rw_target TARGET_UPDATE 0 s).1 = Some FMAP_RW_SECTION_B /\
  (@update_try_rw_firmware Board.vb2_struct_h Board.lib Board.env
     IMAGE_CURRENT IMAGE 1 s).1 = UPDATE_ERR_TARGET.
Proof.
  intros s.
  destruct (@C2_rw_target_selector Board.vb2_struct_h Board.lib Board.env s 0
              IMAGE_CURRENT IMAGE 1) as (_ & H1 & _).
  destruct (@C2_rw_target_selector Board.vb2_struct_h Board.lib Board.env s 1
              IMAGE_CURRENT IMAGE 1) as (_ & _ & _ & _ & H5 & _).
  split.
  - apply H1. reflexivity.
  - destruct H5 as (_ & _ & H); [discriminate|discriminate|discriminate|].
    destruct (H eq_refl) as [Hr _]. rewrite Hr. vm_compute. reflexivity.
Defined.

(** C2 fails as stated: on the test board under vboot2, no slot known to
    be active, a candidate whose key block does not verify against the
    root key of the flash: there is no target, and the try-RW updater
    returns UPDATE_ERR_ROOT_KEY, not UPDATE_ERR_TARGET; so does
    [update_firmware] in try mode. *)
Lemma C2_unknown_slot_stops_at_root_key :
  let bad_key :=
    Board.mk_image "image.bin"
      (Board.firmware_bytes "Google_Test.1.3" 0 "TEST" Byte.x2a Byte.x2b 1 1
         Byte.x11 Byte.x01) in
  let s := Board.start
             (Board.config bad_key Board.current
                (Board.overridden (-1) 65537 1 1 1) 1 0 0 None)
             Board.world0 in
  (decide_rw_target TARGET_SELF 1 s).1 = None /\
  (@update_try_rw_firmware Board.vb2_struct_h Board.lib Board.env
     IMAGE_CURRENT IMAGE 1 s).1 = UPDATE_ERR_ROOT_KEY /\
  (@update_firmware Board.vb2_struct_h Board.lib Board.env Board.no_quirks
     s).1 = UPDATE_ERR_ROOT_KEY.
Proof. vm_compute. repeat split; reflexivity. Qed.

(** * Further properties of the updater *)

(** ** Comparing images *)

(** X1: [section_needs_update] on a named section of well-formed images: the
    result is zero exactly when the section has the same size and the same
    bytes in both images, a section that an image lacks counting as an empty
    one.  In particular a section missing from both images needs no update,
    and one that only one image has (with a size that is not zero) does. *)
Theorem section_needs_update_named (image_from image_to : firmware_image)
    (name : string) :
  wf_image image_from -> wf_image image_to ->
  section_needs_update image_from image_to (Some name) = 0 <->
  section_size (find_firmware_section image_from name) =
    section_size (find_firmware_section image_to name) /\
  section_bytes image_from (find_firmware_section image_from name) =
    section_bytes image_to (find_firmware_section image_to name).
Proof.
  intros Hf Ht. unfold section_needs_update, compare_section.
  destruct (section_in_bounds image_from name Hf) as [Lf Bf].
  destruct (section_in_bounds image_to name Ht) as [Lt Bt].
  set (sf := section_size (find_firmware_section image_from name)) in *.
  set (st := section_size (find_firmware_section image_to name)) in *.
  destruct (decide (sf <> st)) as [Hne|He].
  - split; [|intros [He _]; contradiction].
    intros H. exfalso. revert H. apply CIntFacts.to_int_nonzero; lia.
  - assert (He' : sf = st) by lia.
    rewrite !take_ge by lia.
    rewrite MemFacts.memcmp_zero by lia. tauto.
Qed.

(** On the test board RW_SECTION_A of the flash differs from the
    candidate's, and RW_SHARED does not. *)
Lemma section_needs_update_named_witness :
  section_needs_update Board.current Board.candidate (Some FMAP_RW_SHARED) = 0 /\
  section_bytes Board.current
    (find_firmware_section Board.current FMAP_RW_SECTION_A) <>
  section_bytes Board.candidate
    (find_firmware_section Board.candidate FMAP_RW_SECTION_A).
Proof.
  split.
  - apply (section_needs_update_named Board.current Board.candidate
             FMAP_RW_SHARED Board_current_wf Board_candidate_wf).
    split; vm_compute; reflexivity.
  - intros Heq.
    assert (H : section_needs_update Board.current Board.candidate
                  (Some FMAP_RW_SECTION_A) = 0).
    { apply (section_needs_update_named Board.current Board.candidate
               FMAP_RW_SECTION_A Board_current_wf Board_candidate_wf).
      split; [vm_compute; reflexivity|exact Heq]. }
    vm_compute in H. discriminate H.
Defined.

(** X2: [section_needs_update] with a NULL section name compares whole images:
    the result is zero exactly when the two buffers hold the same bytes. *)
Theorem section_needs_update_whole (image_from image_to : firmware_image) :
  section_needs_update image_from image_to None = 0 <->
  image_bytes image_from = image_bytes image_to.
Proof.
  unfold section_needs_update, image_size.
  destruct (decide _) as [Hne|He].
  - split; [discriminate|]. intros H. rewrite H in Hne. contradiction.
  - assert (He' : length (image_bytes image_from) = length (image_bytes image_to))
      by lia.
    rewrite !take_ge by lia.
    apply MemFacts.memcmp_zero. exact He'.
Qed.

(** ** The platform check *)

Lemma strchr_dot_cons (c : Ascii.ascii) (s : string) :
  strchr_dot (String c s) =
  if Ascii.eqb c "."%char then Some O else S <$> strchr_dot s.
Proof.
  unfold strchr_dot. cbn -[Ascii.ascii_dec].
  destruct (Ascii.ascii_dec "."%char c) as [<-|Hne].
  - destruct s; reflexivity.
  - destruct (Ascii.eqb_spec c "."%char) as [->|_]; [contradiction Hne; reflexivity|].
    destruct (String.index 0 "." s); reflexivity.
Qed.

Lemma strchr_dot_Some (s : string) (n : nat) :
  strchr_dot s = Some n ->
  exists p r, s = (p +:+ String "."%char r)%string /\ String.length p = n /\
              strchr_dot p = None.
Proof.
  revert n. induction s as [|c s IH]; intros n.
  - discriminate.
  - rewrite strchr_dot_cons.
    destruct (Ascii.eqb_spec c "."%char) as [->|Hne].
    + intros [= <-]. exists ""%string, s. repeat split. 
    + destruct (strchr_dot s) as [m|] eqn:Hs; [|discriminate].
      intros [= <-]. destruct (IH m eq_refl) as (p & r & -> & <- & Hp).
      exists (String c p), r. repeat split.
      rewrite strchr_dot_cons, Hp.
      destruct (Ascii.eqb_spec c "."%char); [contradiction|reflexivity].
Qed.

Lemma strchr_dot_app (p r : string) :
  strchr_dot p = None ->
  strchr_dot (p +:+ String "."%char r) = Some (String.length p).
Proof.
  induction p as [|c p IH].
  - intros _. change (strchr_dot (String "."%char r) = Some O).
    rewrite strchr_dot_cons. reflexivity.
  - rewrite strchr_dot_cons. simpl.
    destruct (Ascii.eqb_spec c "."%char) as [->|Hne]; [discriminate|].
    destruct (strchr_dot p) eqn:Hp; [discriminate|]. intros _.
    change (String c p +:+ String "."%char r)%string
      with (String c (p +:+ String "."%char r)).
    rewrite strchr_dot_cons.
    destruct (Ascii.eqb_spec c "."%char); [contradiction|].
    rewrite IH by reflexivity. reflexivity.
Qed.

Lemma string_length_app (s1 s2 : string) :
  String.length (s1 +:+ s2) = (String.length s1 + String.length s2)%nat.
Proof. induction s1 as [|c s1 IH]; simpl; [reflexivity|]. rewrite IH. reflexivity. Qed.

Lemma N_of_ascii_diff (a b : Ascii.ascii) :
  a <> b -> Z.of_N (Ascii.N_of_ascii a) - Z.of_N (Ascii.N_of_ascii b) <> 0.
Proof.
  intros Hne H. apply Hne.
  rewrite <- (Ascii.ascii_N_embedding a), <- (Ascii.ascii_N_embedding b).
  f_equal. lia.
Qed.

Lemma strncmp_same_prefix (p r1 r2 : string) (c : Ascii.ascii) :
  strncmp (p +:+ String c r1) (p +:+ String c r2) (S (String.length p)) = 0.
Proof.
  induction p as [|a p IH]; simpl.
  - rewrite Ascii.eqb_refl. destruct r1; reflexivity.
  - rewrite Ascii.eqb_refl. exact IH.
Qed.

Lemma strncmp_cons (c1 c2 : ascii) (r1 r2 : string) (n : nat) :
  strncmp (String c1 r1) (String c2 r2) (S n) =
  if Ascii.eqb c1 c2 then strncmp r1 r2 n
  else Z.of_N (N_of_ascii c1) - Z.of_N (N_of_ascii c2).
Proof. reflexivity. Qed.

Lemma strncmp_dot_inv (p r1 t : string) :
  strchr_dot p = None -> is_Some (strchr_dot t) ->
  strncmp (p +:+ String "."%char r1) t (S (String.length p)) = 0 ->
  exists r2, t = (p +:+ String "."%char r2)%string.
Proof.
  revert t. induction p as [|a p IH]; intros t Hp Ht.
  - destruct t as [|c t]; [discriminate|].
    change (strncmp (String "."%char r1) (String c t) 1 = 0 ->
            exists r2, String c t = String "."%char r2).
    rewrite strncmp_cons.
    destruct (Ascii.eqb_spec "."%char c) as [<-|Hne].
    + intros _. exists t. reflexivity.
    + intros H. exfalso. revert H. apply N_of_ascii_diff. exact Hne.
  - rewrite strchr_dot_cons in Hp.
    destruct (Ascii.eqb_spec a "."%char) as [->|Ha]; [discriminate|].
    destruct (strchr_dot p) eqn:Hp'; [discriminate|].
    destruct t as [|c t].
    + destruct Ht as [x Hx]. discriminate Hx.
    + change (strncmp (String a (p +:+ String "."%char r1)) (String c t)
                (S (S (String.length p))) = 0 ->
              exists r2, String c t = String a (p +:+ String "."%char r2)).
      rewrite strncmp_cons.
      destruct (Ascii.eqb_spec a c) as [<-|Hne].
      * intros H. destruct (IH t eq_refl) as [r2 ->]; [|exact H|].
        -- rewrite strchr_dot_cons in Ht.
           destruct (Ascii.eqb_spec a "."%char); [contradiction|].
           destruct (strchr_dot t); [eexists; reflexivity|].
           destruct Ht as [x Hx]. discriminate Hx.
        -- exists r2. reflexivity.
      * intros H. exfalso. revert H. apply N_of_ascii_diff. exact Hne.
Qed.

(** X3: [check_compatible_platform] accepts the two images exactly when their
    RO versions name the same platform: both contain a dot and agree up to
    and including the first dot of the current image's version.  The check
    changes nothing. *)
Theorem check_compatible_platform_same_name (s : state) :
  let from := ro_version (image_current (st_cfg s)) in
  let to := ro_version (image (st_cfg s)) in
  Z.of_nat (String.length from) < 2 ^ 31 ->
  ((check_compatible_platform s).1 = 0 <->
   exists platform rest_from rest_to,
     strchr_dot platform = None /\
     from = (platform +:+ String "."%char rest_from)%string /\
     to = (platform +:+ String "."%char rest_to)%string) /\
  (check_compatible_platform s).2 = s.
Proof.
  intros from to Hlen. split; [|apply check_compatible_platform_state].
  unfold check_compatible_platform. rewrite run_bind. simpl (get_cfg s).1.
  simpl (get_cfg s).2. cbv zeta. fold from to.
  destruct (strchr_dot from) as [n|] eqn:Hf.
  - destruct (strchr_dot_Some _ _ Hf) as (p & r1 & Hfrom & Hn & Hp).
    assert (Hbound : Z.of_nat n + 1 < 2 ^ 31).
    { rewrite Hfrom, string_length_app in Hlen. simpl in Hlen. lia. }
    assert (Hconv : Z.to_nat (CInt.to_size_t (CInt.to_int (Z.of_nat n + 1))) = S n).
    { rewrite CIntFacts.to_int_id by (unfold CInt.int_range; lia).
      unfold CInt.to_size_t. rewrite Z.mod_small by lia. lia. }
    destruct (strchr_dot to) as [m|] eqn:Ht.
    + rewrite run_ret. cbn [fst]. rewrite Hconv, Hfrom, <- Hn. split.
      * intros H. destruct (strncmp_dot_inv p r1 to Hp) as [r2 Hto].
        -- rewrite Ht. eexists. reflexivity.
        -- exact H.
        -- exists p, r1, r2. repeat split; [exact Hp|exact Hto].
      * intros (p' & r1' & r2 & Hp' & Hf' & Hto).
        assert (p' = p) as ->.
        { pose proof (strchr_dot_app p r1 Hp) as H1.
          pose proof (strchr_dot_app p' r1' Hp') as H2.
          rewrite Hf' in H1. rewrite H1 in H2. injection H2 as Hl.
          clear - Hf' Hl. revert p' Hf' Hl.
          induction p as [|a p IH]; intros [|a' p']; simpl; try discriminate.
          - reflexivity.
          - intros [= -> H] [= Hl]. f_equal. apply IH; assumption. }
        rewrite Hto. apply strncmp_same_prefix.
    + rewrite run_ret. cbn [fst]. split; [discriminate|].
      intros (p' & r1' & r2 & Hp' & _ & Hto).
      rewrite Hto, strchr_dot_app in Ht by exact Hp'. discriminate.
  - rewrite run_ret. cbn [fst]. split; [discriminate|].
    intros (p' & r1' & r2 & Hp' & Hf' & _).
    rewrite Hf', strchr_dot_app in Hf by exact Hp'. discriminate.
Qed.

(** On the test board the flash and the candidate are both firmware of
    the platform Google_Test. *)
Lemma check_compatible_platform_same_name_witness :
  let s := Board.start
             (Board.config Board.candidate Board.current
                (Board.overridden 0 65537 1 1 1) 0 0 0 None) Board.world0 in
  (@check_compatible_platform s).1 = 0.
Proof.
  intros s.
  apply (check_compatible_platform_same_name s); [vm_compute; reflexivity|].
  exists "Google_Test"%string, "1.2"%string, "1.3"%string.
  repeat split.
Defined.

(** ** Whole runs *)

Lemma created_app (tr1 tr2 : list event) :
  created (tr1 ++ tr2) = created tr1 ++ created tr2.
Proof.
  induction tr1 as [|e tr1 IH]; simpl; [reflexivity|].
  destruct e as [| [p|] | | | | | | |]; simpl; rewrite ?IH; reflexivity.
Qed.

Lemma run_rel_refl P s : run_rel P s s.
Proof.
  split; try reflexivity.
  exists []. rewrite app_nil_r. repeat split. constructor.
Qed.

Lemma run_rel_trans P s s1 s2 :
  run_rel P s s1 -> run_rel P s1 s2 -> run_rel P s s2.
Proof.
  intros [a1 a2 a3 a4 a5 a6 a7 a8 (e1 & H1 & P1 & T1)]
         [b1 b2 b3 b4 b5 b6 b7 b8 (e2 & H2 & P2 & T2)].
  split; [congruence.. | |].
  - intros q. rewrite b8. apply a8.
  - exists (e1 ++ e2). rewrite H2, H1, app_assoc. split; [reflexivity|].
    split; [apply Forall_app; split; assumption|].
    rewrite T2, T1, created_app, rev_app_distr, app_assoc. reflexivity.
Qed.

Lemma run_rel_weaken (P P' : event -> Prop) s s' :
  (forall e, P e -> P' e) -> run_rel P s s' -> run_rel P' s s'.
Proof.
  intros HP [a1 a2 a3 a4 a5 a6 a7 a8 (e1 & H1 & P1 & T1)].
  split; try assumption.
  exists e1. repeat split; try assumption.
  eapply Forall_impl; [exact P1|exact HP].
Qed.

Lemma run_rel_quirks_off P s s' :
  run_rel P s s' -> quirks_off (st_cfg s) -> quirks_off (st_cfg s').
Proof. intros R H q. rewrite (rr_quirks _ _ _ R). apply H. Qed.

(** A step that adds the events [evs], none of them a temporary file, and
    keeps the configuration up to the images and the property cache. *)
Lemma run_rel_step P s s' evs :
  emulation (st_cfg s') = emulation (st_cfg s) ->
  quirks (st_cfg s') = quirks (st_cfg s) ->
  try_update (st_cfg s') = try_update (st_cfg s) ->
  force_update (st_cfg s') = force_update (st_cfg s) ->
  legacy_update (st_cfg s') = legacy_update (st_cfg s) ->
  tempfiles (st_cfg s') = tempfiles (st_cfg s) ->
  debugging_enabled s' = debugging_enabled s ->
  w_host (st_world s') = w_host (st_world s) ->
  (forall q, property_value q s' = property_value q s) ->
  w_trace (st_world s') = w_trace (st_world s) ++ evs ->
  Forall P evs -> created evs = [] ->
  run_rel P s s'.
Proof.
  intros. split; try assumption.
  exists evs. repeat split; try assumption.
  rewrite H10. assumption.
Qed.

Create HintDb steady.

Section Steady.

Context {L : vb2_struct} {V : vboot_lib} {E : environment} {Q : quirk_table}.

Variable emu : option string.
Variable pv : system_property_type -> Z.
Variable hw : bool.
Variable sections : option string -> Prop.

(** Outside emulation the hardware may be touched. *)
Hypothesis hw_ok : emu = None -> hw = true.

Abbreviation ok := (event_ok hw sections).

Lemma steady_ret {A} (a : A) : steady emu pv ok (mret a : M A).
Proof. intros s _ _ _. apply run_rel_refl. Qed.

Lemma steady_bind {A B} (m : M A) (f : A -> M B) :
  steady emu pv ok m -> (forall a, steady emu pv ok (f a)) ->
  steady emu pv ok (m ≫= f).
Proof.
  intros Hm Hf s Hq He Hp. rewrite run_bind.
  pose proof (Hm s Hq He Hp) as R1.
  apply (run_rel_trans _ _ _ _ R1). apply Hf.
  - exact (run_rel_quirks_off _ _ _ R1 Hq).
  - destruct R1. congruence.
  - intros q. rewrite (rr_props _ _ _ R1). apply Hp.
Qed.

(** A bind whose first computation returns a value that the property
    values determine. *)
Lemma steady_bind_value {A B} (m : M A) (f : A -> M B) (a : A) :
  (forall s, (forall q, property_value q s = pv q) -> (m s).1 = a) ->
  steady emu pv ok m -> steady emu pv ok (f a) ->
  steady emu pv ok (m ≫= f).
Proof.
  intros Hv Hm Hf s Hq He Hp. rewrite run_bind, (Hv s Hp).
  pose proof (Hm s Hq He Hp) as R1.
  apply (run_rel_trans _ _ _ _ R1). apply Hf.
  - exact (run_rel_quirks_off _ _ _ R1 Hq).
  - destruct R1. congruence.
  - intros q. rewrite (rr_props _ _ _ R1). apply Hp.
Qed.

Lemma steady_get_cfg {B} (f : updater_config -> M B) :
  (forall c, emulation c = emu -> quirks_off c -> steady emu pv ok (f c)) ->
  steady emu pv ok (get_cfg ≫= f).
Proof.
  intros Hf s Hq He Hp. rewrite run_bind. simpl. apply Hf; assumption.
Qed.

Lemma steady_get_world : steady emu pv ok get_world.
Proof. intros s _ _ _. apply run_rel_refl. Qed.

Lemma steady_emit (e : event) :
  ok e -> created [e] = [] -> steady emu pv ok (emit e).
Proof.
  intros He Hc s _ _ _.
  apply (run_rel_step _ _ _ [e]); try reflexivity; try assumption.
  constructor; [exact He|constructor].
Qed.

Lemma steady_put_file path d :
  steady emu pv ok (modify_world (put_file path d)).
Proof.
  intros s _ _ _.
  apply (run_rel_step _ _ _ []); try reflexivity.
  - simpl. rewrite app_nil_r. reflexivity.
  - constructor.
Qed.

Lemma steady_set_image r i : steady emu pv ok (modify_cfg (set_image r i)).
Proof.
  intros s _ _ _.
  apply (run_rel_step _ _ _ []); try reflexivity.
  - simpl. rewrite app_nil_r. reflexivity.
  - constructor.
Qed.

Lemma steady_get_system_property p : steady emu pv ok (get_system_property p).
Proof.
  intros s _ _ _.
  pose proof (get_system_property_cfg p s) as Hc. simpl in Hc.
  pose proof (get_system_property_world p s) as Hw. simpl in Hw.
  apply (run_rel_step _ _ _
           (if decide (initialized (system_properties (st_cfg s) p) = 0)
            then [EvGetter p] else [])); try tauto.
  - destruct (decide (initialized (system_properties (st_cfg s) p) = 0)) as [H|H].
    + rewrite get_system_property_fresh by exact H. reflexivity.
    + rewrite get_system_property_cached by exact H. reflexivity.
  - intros q. apply get_system_property_keeps.
  - apply get_system_property_trace.
  - destruct (decide _); repeat constructor.
  - destruct (decide _); reflexivity.
Qed.

Lemma steady_updater_create_temp_file :
  steady emu pv ok updater_create_temp_file.
Proof.
  intros s _ _ _. unfold updater_create_temp_file.
  rewrite run_bind. simpl (get_world s).1. simpl (get_world s).2.
  cbv zeta. rewrite run_bind.
  destruct (env_mkstemp (st_world s)) as [path|] eqn:Hm.
  - split; try reflexivity.
    exists [EvTempFile (Some path)]. repeat split. repeat constructor.
  - split; try reflexivity.
    exists [EvTempFile None]. repeat split. repeat constructor.
Qed.

Lemma steady_try_apply_quirk q : steady emu pv ok (try_apply_quirk q).
Proof.
  intros s Hq _ _. rewrite try_apply_quirk_off by apply Hq. apply run_rel_refl.
Qed.

#[local] Hint Resolve steady_ret steady_get_world steady_put_file steady_set_image
  steady_get_system_property steady_updater_create_temp_file
  steady_try_apply_quirk : steady.

(** Splits a computation along its binds and case distinctions. *)
Ltac steady_step :=
  lazymatch goal with
  | |- steady _ _ _ (get_cfg ≫= _) =>
      apply steady_get_cfg;
      let c := fresh "c" in
      let Hemu := fresh "Hemu" in
      let Hquirks := fresh "Hquirks" in
      intros c Hemu Hquirks
  | |- steady _ _ _ (_ ≫= _) => apply steady_bind; [|intros]
  | |- steady _ _ _ (mret _) => apply steady_ret
  | |- steady _ _ _ (emit _) =>
      apply steady_emit;
      [first [exact I | assumption | apply hw_ok; congruence]|reflexivity]
  | |- steady _ _ _ (match ?x with _ => _ end) => destruct x eqn:?
  | |- steady _ _ _ (let '(_, _) := ?x in _) => destruct x eqn:?
  | |- steady _ _ _ _ => solve [auto with steady]
  end.

Ltac steady_solve := repeat steady_step.

Lemma steady_vb2_write_file path d : steady emu pv ok (vb2_write_file path d).
Proof. unfold vb2_write_file. steady_solve. Qed.

Lemma steady_host_flashrom op path prog sec :
  (op = FLASHROM_WRITE -> hw = true) ->
  steady emu pv ok (host_flashrom op path prog sec).
Proof.
  intros Hop. unfold host_flashrom. cbv zeta.
  destruct op; steady_solve.
  apply steady_emit; [apply Hop; reflexivity|reflexivity].
Qed.

#[local] Hint Resolve steady_vb2_write_file : steady.

Lemma steady_load_system_firmware r : steady emu pv ok (load_system_firmware r).
Proof.
  unfold load_system_firmware. steady_solve.
  apply steady_host_flashrom. discriminate.
Qed.

Lemma steady_set_try_cookies target is_vboot2 :
  steady emu pv ok (set_try_cookies target is_vboot2).
Proof.
  unfold set_try_cookies. steady_step. cbv zeta.
  steady_step; [|steady_solve].
  destruct (bool_decide (is_Some (emulation c))) eqn:Hb; [steady_solve|].
  assert (Hnone : emulation c = None).
  { apply bool_decide_eq_false in Hb. destruct (emulation c); [|reflexivity].
    exfalso. apply Hb. eexists. reflexivity. }
  steady_solve.
Qed.

Lemma steady_emulate_write_firmware filename image sec :
  steady emu pv ok (emulate_write_firmware filename image sec).
Proof. unfold emulate_write_firmware. steady_solve. Qed.

#[local] Hint Resolve steady_load_system_firmware steady_set_try_cookies
  steady_emulate_write_firmware : steady.

Lemma steady_write_firmware_body image sec :
  steady emu pv ok (write_firmware_body image sec).
Proof.
  unfold write_firmware_body. steady_solve.
  apply steady_host_flashrom. intros _. apply hw_ok. congruence.
Qed.

Lemma steady_write_firmware image sec :
  sections sec -> steady emu pv ok (write_firmware image sec).
Proof.
  intros Hs. unfold write_firmware.
  apply steady_bind; [apply steady_write_firmware_body|intros r].
  steady_solve.
Qed.

Lemma steady_write_optional_firmware image sec :
  sections sec -> steady emu pv ok (write_optional_firmware image sec).
Proof.
  intros Hs. unfold write_optional_firmware.
  steady_solve; apply steady_write_firmware; exact Hs.
Qed.

Lemma steady_preserve_into_image f : steady emu pv ok (preserve_into_image f).
Proof. unfold preserve_into_image. steady_solve. Qed.

#[local] Hint Resolve steady_preserve_into_image : steady.

Lemma steady_preserve_management_engine :
  steady emu pv ok preserve_management_engine.
Proof. unfold preserve_management_engine. steady_solve. Qed.

Lemma steady_preserve_optional names errcnt :
  steady emu pv ok (preserve_optional names errcnt).
Proof.
  revert errcnt. induction names as [|name names IH]; intros errcnt; simpl.
  - apply steady_ret.
  - steady_step. steady_step; [apply IH|].
    steady_step; [auto with steady|apply IH].
Qed.

#[local] Hint Resolve steady_preserve_management_engine
  steady_preserve_optional : steady.

Lemma steady_preserve_images : steady emu pv ok preserve_images.
Proof. unfold preserve_images. steady_solve. Qed.

Lemma steady_cbfs_file_exists f sec entry :
  steady emu pv ok (cbfs_file_exists f sec entry).
Proof. unfold cbfs_file_exists. steady_solve. Qed.

#[local] Hint Resolve steady_preserve_images steady_cbfs_file_exists : steady.

Lemma steady_legacy_needs_update : steady emu pv ok legacy_needs_update.
Proof. unfold legacy_needs_update. steady_solve. Qed.

Lemma steady_do_check_compatible_tpm_keys image :
  steady emu pv ok (do_check_compatible_tpm_keys image).
Proof. unfold do_check_compatible_tpm_keys. steady_solve. Qed.

#[local] Hint Resolve steady_legacy_needs_update
  steady_do_check_compatible_tpm_keys : steady.

Lemma steady_check_compatible_tpm_keys image :
  steady emu pv ok (check_compatible_tpm_keys image).
Proof. unfold check_compatible_tpm_keys. steady_solve. Qed.

Lemma steady_decide_rw_target target is_vboot2 :
  steady emu pv ok (decide_rw_target target is_vboot2).
Proof. unfold decide_rw_target. steady_solve. Qed.

Lemma steady_is_write_protection_enabled :
  steady emu pv ok is_write_protection_enabled.
Proof. unfold is_write_protection_enabled. steady_solve. Qed.

Lemma steady_check_compatible_platform : steady emu pv ok check_compatible_platform.
Proof. unfold check_compatible_platform. steady_solve. Qed.

#[local] Hint Resolve steady_check_compatible_tpm_keys steady_decide_rw_target
  steady_is_write_protection_enabled steady_check_compatible_platform : steady.

Lemma decide_rw_target_pv target is_vboot2 s :
  (forall q, property_value q s = pv q) ->
  (decide_rw_target target is_vboot2 s).1 =
    rw_target (pv SYS_PROP_MAINFW_ACT) target is_vboot2.
Proof.
  intros Hp. rewrite decide_rw_target_value. cbv zeta. rewrite Hp. reflexivity.
Qed.

Lemma is_write_protection_enabled_pv s :
  (forall q, property_value q s = pv q) ->
  (is_write_protection_enabled s).1 =
    wp_state (pv SYS_PROP_WP_HW) (pv SYS_PROP_WP_SW).
Proof.
  intros Hp. rewrite is_write_protection_enabled_value, !Hp. reflexivity.
Qed.

(** Once [decide_rw_target] has named the slot to check, it names
    RW_SECTION_A or RW_SECTION_B as the slot to update. *)
Lemma rw_target_update slot is_vboot2 self :
  rw_target slot TARGET_SELF is_vboot2 = Some self ->
  rw_target slot TARGET_UPDATE is_vboot2 = Some FMAP_RW_SECTION_A \/
  rw_target slot TARGET_UPDATE is_vboot2 = Some FMAP_RW_SECTION_B.
Proof.
  unfold rw_target. repeat (destruct (decide _)); try discriminate; auto.
Qed.

Section Strategies.

Hypothesis sections_a : sections (Some FMAP_RW_SECTION_A).
Hypothesis sections_b : sections (Some FMAP_RW_SECTION_B).
Hypothesis sections_shared : sections (Some FMAP_RW_SHARED).
Hypothesis sections_legacy : sections (Some FMAP_RW_LEGACY).

Lemma steady_try_rw_legacy image_to : steady emu pv ok (try_rw_legacy image_to).
Proof.
  unfold try_rw_legacy. steady_solve.
  apply steady_write_firmware. exact sections_legacy.
Qed.

#[local] Hint Resolve steady_try_rw_legacy : steady.

Lemma steady_try_rw_update image_from image_to is_vboot2 :
  steady emu pv ok (try_rw_update image_from image_to is_vboot2).
Proof.
  unfold try_rw_update.
  apply (steady_bind_value _ _
           (rw_target (pv SYS_PROP_MAINFW_ACT) TARGET_SELF is_vboot2));
    [intros s Hp; apply decide_rw_target_pv; exact Hp|auto with steady|].
  destruct (rw_target (pv SYS_PROP_MAINFW_ACT) TARGET_SELF is_vboot2)
    as [self|] eqn:Hself; [|apply steady_ret].
  steady_step. steady_step; [apply steady_ret|]. cbv zeta.
  steady_step.
  - apply (steady_bind_value _ _
             (rw_target (pv SYS_PROP_MAINFW_ACT) TARGET_UPDATE is_vboot2));
      [intros s Hp; apply decide_rw_target_pv; exact Hp|auto with steady|].
    steady_step; [|steady_solve].
    apply steady_write_firmware.
    destruct (rw_target_update _ _ _ Hself) as [-> | ->]; assumption.
  - steady_step; [|auto with steady].
    steady_step; [|apply steady_ret].
    match goal with H : _ /\ _ |- _ => pose proof (proj2 H) as Hnone end.
    steady_solve.
Qed.

Lemma steady_update_try_rw_firmware image_from image_to wp_enabled :
  steady emu pv ok (update_try_rw_firmware image_from image_to wp_enabled).
Proof.
  unfold update_try_rw_firmware. steady_solve.
  apply steady_try_rw_update.
Qed.

Lemma steady_rw_update_sections image_to :
  steady emu pv ok (rw_update_sections image_to).
Proof.
  unfold rw_update_sections.
  steady_solve;
    (apply steady_write_firmware || apply steady_write_optional_firmware);
    assumption.
Qed.

#[local] Hint Resolve steady_rw_update_sections : steady.

Lemma steady_update_rw_firmrware image_from image_to :
  steady emu pv ok (update_rw_firmrware image_from image_to).
Proof. unfold update_rw_firmrware. steady_solve. Qed.

Lemma steady_update_legacy_firmware image_to :
  steady emu pv ok (update_legacy_firmware image_to).
Proof.
  unfold update_legacy_firmware. steady_solve.
  apply steady_write_firmware. assumption.
Qed.

Lemma steady_update_whole_firmware image_to :
  sections None -> steady emu pv ok (update_whole_firmware image_to).
Proof.
  intros Hn. unfold update_whole_firmware.
  steady_solve;
    (apply steady_write_firmware || apply steady_write_optional_firmware);
    assumption.
Qed.

Lemma steady_get_system_properties ps :
  steady emu pv ok (get_system_properties ps).
Proof.
  induction ps as [|p ps IH]; simpl; [apply steady_ret|].
  apply steady_bind; [auto with steady|intros _; exact IH].
Qed.

Lemma steady_print_system_properties : steady emu pv ok print_system_properties.
Proof.
  unfold print_system_properties.
  apply steady_bind; [|intros _]; apply steady_get_system_properties.
Qed.

Lemma steady_select_strategy image_from image_to wp_enabled :
  (wp_enabled = 0 -> sections None) ->
  steady emu pv ok (select_strategy image_from image_to wp_enabled).
Proof.
  intros Hwp. unfold select_strategy.
  steady_step. steady_step; [apply steady_update_legacy_firmware|].
  steady_step.
  - steady_step; [apply steady_update_try_rw_firmware|apply steady_ret].
  - steady_step; [apply steady_ret|].
    steady_step; [apply steady_update_rw_firmrware|].
    apply steady_update_whole_firmware. apply Hwp. lia.
Qed.

Lemma steady_read_debugging :
  steady emu pv ok (fun s => (debugging_enabled s, s)).
Proof. intros s _ _ _. apply run_rel_refl. Qed.

#[local] Hint Resolve steady_print_system_properties steady_read_debugging
  : steady.

(** The whole of [update_firmware]: with the quirks off, every event of a
    run is admitted as soon as the four RW sections are, and the whole
    image too in case the write protection is off. *)
Lemma steady_update_firmware :
  (wp_state (pv SYS_PROP_WP_HW) (pv SYS_PROP_WP_SW) = 0 -> sections None) ->
  steady emu pv ok update_firmware.
Proof.
  intros Hwp. unfold update_firmware. cbv zeta.
  steady_step. steady_step; [|apply steady_ret].
  steady_step; [auto with steady|]. steady_step; [apply steady_ret|].
  steady_step; [auto with steady|]. steady_step; [apply steady_ret|].
  steady_step. steady_step; [steady_solve|].
  steady_step; [apply steady_ret|].
  steady_step; [auto with steady|]. steady_step; [apply steady_ret|].
  apply (steady_bind_value _ _
           (wp_state (pv SYS_PROP_WP_HW) (pv SYS_PROP_WP_SW)));
    [intros s Hp; apply is_write_protection_enabled_pv; exact Hp
    |auto with steady|].
  steady_step; [auto with steady|]. steady_step; [auto with steady|].
  steady_step; [auto with steady|]. steady_step; [apply steady_ret|].
  steady_step; [auto with steady|]. steady_step; [apply steady_ret|].
  steady_step; [auto with steady|]. steady_step; [steady_solve|].
  apply steady_select_strategy. exact Hwp.
Qed.

End Strategies.

End Steady.

(** ** What a run never does *)


Lemma run_rel_new_events P s s' :
  run_rel P s s' ->
  Forall P (new_events s s') /\
  tempfiles (st_cfg s') = rev (created (new_events s s')) ++ tempfiles (st_cfg s).
Proof.
  intros [_ _ _ _ _ _ _ _ (evs & H & HP & HT)].
  rewrite (new_events_app _ _ _ H). split; assumption.
Qed.

Section Global.

Context {L : vb2_struct} {V : vboot_lib} {E : environment} {Q : quirk_table}.



End Global.

Section ReleaseFacts.

Context {L : vb2_struct} {V : vboot_lib} {E : environment} {Q : quirk_table}
        {R : file_removal}.

Lemma remove_file_spec (target : string) (w : world) :
  let w' := remove_file target w in
  w_host w' = w_host w /\ w_trace w' = w_trace w /\
  (forall path, w_files w' !! path = None \/
                w_files w' !! path = w_files w !! path) /\
  (forall path, path <> target -> w_files w' !! path = w_files w !! path) /\
  (env_remove w target = true -> w_files w' !! target = None) /\
  (env_remove w target = false -> w' = w).
Proof.
  unfold remove_file. destruct (env_remove w target); simpl.
  - split; [reflexivity|]. split; [reflexivity|]. split.
    + intros path. destruct (decide (path = target)) as [->|Hne].
      * left. apply lookup_delete_eq.
      * right. apply lookup_delete_ne. congruence.
    + split; [intros path Hne; apply lookup_delete_ne; congruence|].
      split; [intros _; apply lookup_delete_eq|discriminate].
  - split; [reflexivity|]. split; [reflexivity|].
    split; [intros path; right; reflexivity|].
    split; [reflexivity|]. split; [discriminate|reflexivity].
Qed.

Lemma remove_temp_files_spec (files : list string) (s : state) :
  let s' := (remove_temp_files files s).2 in
  st_cfg s' = st_cfg s /\
  w_trace (st_world s') = w_trace (st_world s) /\
  (forall path, path ∈ files -> (forall w, env_remove w path = true) ->
     w_files (st_world s') !! path = None) /\
  (forall path, w_files (st_world s') !! path = None \/
     w_files (st_world s') !! path = w_files (st_world s) !! path) /\
  (forall path, path ∉ files ->
     w_files (st_world s') !! path = w_files (st_world s) !! path) /\
  (forall path, (forall w, env_remove w path = false) ->
     w_files (st_world s') !! path = w_files (st_world s) !! path) /\
  ((forall path, path ∈ files -> forall w, env_remove w path = false) ->
   st_world s' = st_world s).
Proof.
  revert s. induction files as [|target next IH]; intros s.
  - simpl. split; [reflexivity|]. split; [reflexivity|].
    split; [intros path H; inversion H|].
    split; [intros path; right; reflexivity|].
    split; [reflexivity|]. split; reflexivity.
  - cbn [remove_temp_files]. rewrite run_bind.
    set (s0 := (modify_world (remove_file target) s).2).
    destruct (remove_file_spec target (st_world s))
      as (_ & Ht0 & Hany0 & Hne0 & Hok0 & Hfail0).
    destruct (IH s0) as (Hc & Ht & Hin & Hany & Hout & Hkeep & Hfail).
    split; [rewrite Hc; reflexivity|].
    split; [rewrite Ht; exact Ht0|]. split; [|split; [|split; [|split]]].
    + intros path Hp Hrm. destruct (decide (path ∈ next)) as [Hn|Hn].
      * apply Hin; assumption.
      * apply elem_of_cons in Hp as [->|Hp]; [|contradiction].
        rewrite Hout by exact Hn. apply Hok0, Hrm.
    + intros path. destruct (Hany path) as [H|H]; [left; exact H|].
      rewrite H. apply Hany0.
    + intros path Hp. apply not_elem_of_cons in Hp as [Hne Hn].
      rewrite Hout by exact Hn. apply Hne0. exact Hne.
    + intros path Hrm. rewrite (Hkeep path Hrm).
      destruct (decide (path = target)) as [->|Hne].
      * unfold s0. cbn [modify_world snd st_world].
        rewrite (Hfail0 (Hrm _)). reflexivity.
      * apply Hne0. exact Hne.
    + intros Hall. rewrite Hfail.
      * apply Hfail0. apply Hall. apply elem_of_cons. left. reflexivity.
      * intros path Hp. apply Hall. apply elem_of_cons. right. exact Hp.
Qed.

Lemma updater_delete_config_spec (s : state) :
  let s' := (updater_delete_config s).2 in
  tempfiles (st_cfg s') = [] /\
  w_trace (st_world s') = w_trace (st_world s) /\
  (forall path, path ∈ tempfiles (st_cfg s) ->
     (forall w, env_remove w path = true) ->
     w_files (st_world s') !! path = None) /\
  (forall path, w_files (st_world s') !! path = None \/
     w_files (st_world s') !! path = w_files (st_world s) !! path) /\
  (forall path, path ∉ tempfiles (st_cfg s) ->
     w_files (st_world s') !! path = w_files (st_world s) !! path) /\
  (forall path, (forall w, env_remove w path = false) ->
     w_files (st_world s') !! path = w_files (st_world s) !! path) /\
  ((forall path, path ∈ tempfiles (st_cfg s) ->
      forall w, env_remove w path = false) ->
   st_world s' = st_world s).
Proof.
  unfold updater_delete_config, updater_remove_all_temp_files.
  do 4 (rewrite run_bind; cbn [get_cfg fst snd];
        rewrite run_bind; cbn [modify_cfg fst snd]).
  rewrite run_bind. cbn [get_cfg fst snd].
  rewrite run_bind.
  match goal with
  | |- context [remove_temp_files ?l ?s0] =>
      change l with (tempfiles (st_cfg s));
      destruct (remove_temp_files_spec (tempfiles (st_cfg s)) s0)
        as (Hc & Ht & Hin & Hany & Hout & Hkeep & Hfail)
  end.
  split; [reflexivity|]. split; [exact Ht|]. split; [exact Hin|].
  split; [exact Hany|]. split; [exact Hout|].
  split; [exact Hkeep|exact Hfail].
Qed.

(** X6: The temporary files at the end of a run.  After [update_firmware]
    (no quirk switched on), [updater_delete_config] empties the list of
    temporary files whatever [remove] returns.  The files of the list are
    those that updater_create_temp_file made during the run and those
    registered before; such a file is gone if [remove] cannot fail on it.
    A file on which [remove] always fails is as it was, and if that is so
    for every file of the list the world is as it was.  No file is made or
    changed, and the files that are not in the list are left as they
    are. *)
Theorem temp_files_after_a_run (s : state) :
  quirks_off (st_cfg s) ->
  let s1 := (update_firmware s).2 in
  let s2 := (updater_delete_config s1).2 in
  tempfiles (st_cfg s2) = [] /\
  (forall path, path ∈ tempfiles (st_cfg s1) <->
     path ∈ created (new_events s s1) \/ path ∈ tempfiles (st_cfg s)) /\
  (forall path, path ∈ tempfiles (st_cfg s1) ->
     (forall w, env_remove w path = true) ->
     w_files (st_world s2) !! path = None) /\
  (forall path, w_files (st_world s2) !! path = None \/
     w_files (st_world s2) !! path = w_files (st_world s1) !! path) /\
  (forall path, path ∉ tempfiles (st_cfg s1) ->
     w_files (st_world s2) !! path = w_files (st_world s1) !! path) /\
  (forall path, (forall w, env_remove w path = false) ->
     w_files (st_world s2) !! path = w_files (st_world s1) !! path) /\
  ((forall path, path ∈ tempfiles (st_cfg s1) ->
      forall w, env_remove w path = false) ->
   st_world s2 = st_world s1).
Proof.
  intros Hq s1 s2.
  assert (RR : run_rel (event_ok true (fun _ => True)) s (update_firmware s).2).
  { apply (steady_update_firmware (emulation (st_cfg s))
             (fun q => property_value q s) true (fun _ => True));
      try (intros; reflexivity); try assumption; try exact I. }
  destruct (run_rel_new_events _ _ _ RR) as [_ HT].
  fold s1 in HT. clearbody s1.
  destruct (updater_delete_config_spec s1)
    as (Hnil & _ & Hin & Hany & Hout & Hkeep & Hfail).
  fold s2 in Hnil, Hin, Hany, Hout, Hkeep, Hfail. clearbody s2.
  split; [exact Hnil|]. split; [|split; [exact Hin|]].
  - intros path. rewrite HT, elem_of_app.
    split; (intros [Hp|Hp]; [left|right; exact Hp]);
      apply list_elem_of_In; [apply in_rev|apply -> in_rev];
      apply list_elem_of_In; exact Hp.
  - split; [exact Hany|]. split; [exact Hout|].
    split; [exact Hkeep|exact Hfail].
Qed.

End ReleaseFacts.




(** On the test board: the temporary files of an RW update are gone once
    the configuration is deleted, if [remove] succeeds; if it fails the
    list is emptied all the same and the files stay. *)
Lemma temp_files_after_a_run_witness :
  let s := Board.start
             (Board.config Board.candidate Board.current
                (Board.overridden 0 65537 1 1 1) 0 0 0 None) Board.world0 in
  let s1 := (@update_firmware Board.vb2_struct_h Board.lib Board.env
               Board.no_quirks s).2 in
  let removed := (updater_delete_config (R := fun _ _ => true) s1).2 in
  let kept := (updater_delete_config (R := fun _ _ => false) s1).2 in
  tempfiles (st_cfg s1) <> [] /\
  tempfiles (st_cfg removed) = [] /\
  Forall (fun path => w_files (st_world removed) !! path = None)
    (created (new_events s s1)) /\
  tempfiles (st_cfg kept) = [] /\
  st_world kept = st_world s1.
Proof.
  intros s s1 removed kept.
  destruct (@temp_files_after_a_run Board.vb2_struct_h Board.lib Board.env
              Board.no_quirks (fun _ _ => true) s)
    as (Hnil & Hreg & Hgone & _); [intros q; reflexivity|].
  destruct (@temp_files_after_a_run Board.vb2_struct_h Board.lib Board.env
              Board.no_quirks (fun _ _ => false) s)
    as (Hnil' & _ & _ & _ & _ & _ & Hkept); [intros q; reflexivity|].
  split; [vm_compute; discriminate|]. split; [exact Hnil|]. split.
  - apply Forall_forall. intros path Hp.
    apply Hgone; [|reflexivity]. apply Hreg. left. exact Hp.
  - split; [exact Hnil'|]. apply Hkept. reflexivity.
Defined.

(** ** Preserving sections *)

Lemma same_layout_refl i : same_layout i i.
Proof. repeat split; auto. Qed.

Lemma same_layout_trans i1 i2 i3 :
  same_layout i1 i2 -> same_layout i2 i3 -> same_layout i1 i3.
Proof.
  intros (a1 & a2 & a3 & a4 & a5 & a6 & a7 & a8)
         (b1 & b2 & b3 & b4 & b5 & b6 & b7 & b8).
  repeat split; try congruence; tauto.
Qed.

Lemma same_layout_set_image_data i d :
  is_Some (data i) -> length d = image_size i ->
  same_layout i (set_image_data i d).
Proof.
  intros Hd Hl. unfold same_layout.
  repeat (split; [reflexivity|]). split; [exact Hl|].
  split; [intros _; exact Hd|intros _; eexists; reflexivity].
Qed.

Lemma same_layout_wf i i' : same_layout i i' -> wf_image i -> wf_image i'.
Proof.
  intros (_ & _ & _ & _ & _ & Hf & Hs & _) Hwf areas Ha.
  rewrite Hf in Ha. specialize (Hwf areas Ha).
  eapply Forall_impl; [exact Hwf|].
  intros a. unfold area_in_bounds. rewrite Hs. tauto.
Qed.

Lemma find_firmware_section_data image name sec :
  find_firmware_section image name = Some sec -> is_Some (data image).
Proof.
  unfold find_firmware_section, fmap_find_by_name.
  destruct (data image); [eexists; reflexivity|discriminate].
Qed.

Lemma preserve_firmware_section_layout image_from image_to name :
  same_layout image_to (preserve_firmware_section image_from image_to name).2.
Proof.
  unfold preserve_firmware_section.
  destruct (find_firmware_section image_from name) as [from|];
    [|apply same_layout_refl].
  destruct (find_firmware_section image_to name) as [to|] eqn:Hto;
    [|apply same_layout_refl].
  apply same_layout_set_image_data.
  - exact (find_firmware_section_data _ _ _ Hto).
  - apply MemFacts.length_write_bytes.
Qed.

Section PreserveImages.

Context {L : vb2_struct} {V : vboot_lib} {E : environment} {Q : quirk_table}.

Lemma preserve_gbb_layout image_from image_to :
  same_layout image_to (preserve_gbb image_from image_to).2.
Proof.
  unfold preserve_gbb.
  destruct (find_gbb image_from) as [gbb_from|]; [|apply same_layout_refl].
  destruct (find_gbb image_to) as [gbb_to|] eqn:Hto; [|apply same_layout_refl].
  assert (Hd : is_Some (data image_to)).
  { unfold find_gbb in Hto.
    destruct (find_firmware_section image_to FMAP_RO_GBB) eqn:Hs; [|discriminate].
    exact (find_firmware_section_data _ _ _ Hs). }
  cbv zeta. destruct (_ >=? _); simpl; apply same_layout_set_image_data;
    try exact Hd; unfold Mem.write_u32;
    rewrite ?MemFacts.length_write_bytes; reflexivity.
Qed.

Lemma bytes_only_refl s : bytes_only s s.
Proof.
  exists (image (st_cfg s)). split; [|apply same_layout_refl].
  destruct s as [[] w d]. reflexivity.
Qed.

Lemma bytes_only_trans s s1 s2 :
  bytes_only s s1 -> bytes_only s1 s2 -> bytes_only s s2.
Proof.
  intros (i1 & -> & H1) (i2 & -> & H2). exists i2. split; [reflexivity|].
  exact (same_layout_trans _ _ _ H1 H2).
Qed.

Lemma bytes_only_preserve_into_image f s :
  (forall from to, same_layout to (f from to).2) ->
  bytes_only s (preserve_into_image f s).2.
Proof.
  intros Hf. unfold preserve_into_image. rewrite run_bind. simpl (get_cfg s).1.
  simpl (get_cfg s).2.
  pose proof (Hf (image_current (st_cfg s)) (image (st_cfg s))) as H.
  destruct (f (image_current (st_cfg s)) (image (st_cfg s))) as [r to].
  exists to. split; [reflexivity|exact H].
Qed.

Lemma bytes_only_preserve_management_engine s :
  quirk_value (quirks (st_cfg s) QUIRK_UNLOCK_ME_FOR_UPDATE) = 0 ->
  bytes_only s (preserve_management_engine s).2.
Proof.
  intros Hq. unfold preserve_management_engine. rewrite run_bind.
  simpl (get_cfg s).1. simpl (get_cfg s).2.
  destruct (find_firmware_section (image_current (st_cfg s)) FMAP_SI_ME);
    [|apply bytes_only_refl].
  destruct (section_is_filled_with _ _ _).
  - apply bytes_only_preserve_into_image. intros from to.
    apply preserve_firmware_section_layout.
  - rewrite try_apply_quirk_off by exact Hq. apply bytes_only_refl.
Qed.

Lemma bytes_only_preserve_optional names errcnt s :
  bytes_only s (preserve_optional names errcnt s).2.
Proof.
  revert errcnt s. induction names as [|name names IH]; intros errcnt s; simpl.
  - apply bytes_only_refl.
  - rewrite run_bind. simpl (get_cfg s).1. simpl (get_cfg s).2.
    destruct (negb _); [apply IH|].
    rewrite run_bind.
    eapply bytes_only_trans; [|apply IH].
    apply bytes_only_preserve_into_image. intros from to.
    apply preserve_firmware_section_layout.
Qed.

Lemma bytes_only_preserve_images s :
  quirk_value (quirks (st_cfg s) QUIRK_UNLOCK_ME_FOR_UPDATE) = 0 ->
  bytes_only s (preserve_images s).2.
Proof.
  intros Hq. unfold preserve_images.
  rewrite run_bind.
  eapply bytes_only_trans;
    [apply bytes_only_preserve_into_image; intros from to;
     apply preserve_gbb_layout|].
  set (s1 := (preserve_into_image preserve_gbb s).2).
  assert (Hq1 : quirk_value (quirks (st_cfg s1) QUIRK_UNLOCK_ME_FOR_UPDATE) = 0).
  { destruct (bytes_only_preserve_into_image preserve_gbb s) as (i & Hi & _).
    - intros from to. apply preserve_gbb_layout.
    - unfold s1. rewrite Hi. exact Hq. }
  rewrite run_bind.
  eapply bytes_only_trans;
    [apply bytes_only_preserve_management_engine; exact Hq1|].
  rewrite run_bind.
  eapply bytes_only_trans;
    [apply bytes_only_preserve_into_image; intros from to;
     apply preserve_firmware_section_layout|].
  rewrite run_bind.
  eapply bytes_only_trans;
    [apply bytes_only_preserve_into_image; intros from to;
     apply preserve_firmware_section_layout|].
  apply bytes_only_preserve_optional.
Qed.

(** X7: [preserve_images] (the quirk that unlocks the management engine being
    off) changes nothing but bytes of the candidate image: the buffer keeps
    its length, the image its FMAP, names and versions (so a well-formed
    candidate stays well-formed), and the current image, the EC and PD
    images, the property cache and the world are as before. *)
Theorem preserve_images_changes_bytes_only (s : state) :
  quirk_value (quirks (st_cfg s) QUIRK_UNLOCK_ME_FOR_UPDATE) = 0 ->
  exists img,
    (preserve_images s).2 = with_image img s /\
    same_layout (image (st_cfg s)) img /\
    (wf_image (image (st_cfg s)) -> wf_image img).
Proof.
  intros Hq.
  destruct (bytes_only_preserve_images s Hq) as (img & Hs & Hl). exists img.
  split; [exact Hs|]. split; [exact Hl|]. apply same_layout_wf. exact Hl.
Qed.

End PreserveImages.

(** On the test board: preservation keeps the candidate a well-formed
    image. *)
Lemma preserve_images_changes_bytes_only_witness :
  let s := Board.start
             (Board.config Board.candidate Board.current
                (Board.overridden 0 65537 1 0 0) 0 0 0 None) Board.world0 in
  exists img,
    (@preserve_images Board.vb2_struct_h Board.lib Board.no_quirks s).2 =
      with_image img s /\
    wf_image img.
Proof.
  intros s.
  destruct (@preserve_images_changes_bytes_only Board.vb2_struct_h Board.lib
              Board.no_quirks s eq_refl) as (img & Hs & _ & Hwf).
  exists img. split; [exact Hs|]. apply Hwf. exact Board_candidate_wf.
Defined.

(** ** The full update and the legacy update *)

Lemma firmware_writes_by_app (tr1 tr2 : list event) :
  firmware_writes_by (tr1 ++ tr2) =
  firmware_writes_by tr1 ++ firmware_writes_by tr2.
Proof.
  induction tr1 as [|e tr1 IH]; simpl; [reflexivity|].
  destruct e; simpl; rewrite ?IH; reflexivity.
Qed.

Lemma firmware_writes_by_none (tr : list event) :
  firmware_writes tr = [] -> firmware_writes_by tr = [].
Proof.
  induction tr as [|e tr IH]; simpl; [reflexivity|].
  destruct e; simpl; try exact IH. discriminate.
Qed.

Lemma logs_by_trans ws1 ws2 s s1 s2 :
  logs_by ws1 s s1 -> logs_by ws2 s1 s2 -> logs_by (ws1 ++ ws2) s s2.
Proof.
  intros (e1 & H1 & <-) (e2 & H2 & <-). exists (e1 ++ e2).
  rewrite H2, H1, app_assoc, firmware_writes_by_app. split; reflexivity.
Qed.

Lemma logs_by_frame s s' : frame [] s s' -> logs_by [] s s'.
Proof.
  intros [_ _ _ _ _ _ _ _ _ _ _ _ (evs & H & Hw)].
  exists evs. split; [exact H|]. apply firmware_writes_by_none. exact Hw.
Qed.

Lemma logs_by_new_events ws s s' :
  logs_by ws s s' -> firmware_writes_by (new_events s s') = ws.
Proof. intros (evs & H & <-). rewrite (new_events_app _ _ _ H). reflexivity. Qed.

Lemma stops_by_fail {K} (k : K) (w : Z) (expected : list K) :
  w <> 0 ->
  stops_at_first_failure_by (k :: expected) [(k, w)] UPDATE_ERR_WRITE_FIRMWARE.
Proof.
  intros Hw. right. split; [reflexivity|]. exists [], (k, w).
  repeat split; [exact Hw|constructor|]. exists expected. reflexivity.
Qed.

Lemma stops_by_ok {K} (k : K) (expected : list K) (writes : list (K * Z)) r :
  stops_at_first_failure_by expected writes r ->
  stops_at_first_failure_by (k :: expected) ((k, 0) :: writes) r.
Proof.
  intros [(Hr & He & Hz)|(Hr & done & failed & Hw & Hf & Hz & Hp)].
  - left. split; [exact Hr|]. split; [rewrite fmap_cons, He; reflexivity|].
    constructor; [reflexivity|exact Hz].
  - right. split; [exact Hr|]. exists ((k, 0) :: done), failed.
    split; [rewrite Hw; reflexivity|]. split; [exact Hf|].
    split; [constructor; [reflexivity|exact Hz]|].
    destruct Hp as [rest Hrest]. exists rest.
    rewrite fmap_cons, Hrest. reflexivity.
Qed.

Lemma stops_by_done {K} :
  @stops_at_first_failure_by K [] [] UPDATE_ERR_DONE.
Proof. left. repeat split. constructor. Qed.

Section FullUpdate.

Context {L : vb2_struct} {V : vboot_lib} {E : environment} {Q : quirk_table}.

Lemma logs_by_write_firmware image sec s :
  logs_by [((programmer image, sec), (write_firmware image sec s).1)]
    s (write_firmware image sec s).2 /\
  frame [(sec, (write_firmware image sec s).1)] s (write_firmware image sec s).2.
Proof.
  split; [|apply frame_write_firmware].
  unfold write_firmware. rewrite run_bind.
  pose proof (logs_by_frame _ _ (quiet_write_firmware_body image sec s)) as Hb.
  destruct (write_firmware_body image sec s) as [r s1]. simpl in *.
  apply (logs_by_trans [] _ _ _ _ Hb).
  exists [EvWriteFirmware (programmer image) sec r]. split; reflexivity.
Qed.

(** [write_optional_firmware] of a whole image: one call of
    [write_firmware] if the image is loaded, none and success otherwise. *)
Lemma logs_by_write_optional_whole image s :
  let r := write_optional_firmware image None s in
  logs_by (match data image with
           | Some _ => [((programmer image, None), r.1)]
           | None => []
           end) s r.2 /\
  (data image = None -> r.1 = 0) /\
  exists ws, frame ws s r.2.
Proof.
  unfold write_optional_firmware. destruct (data image); simpl.
  - destruct (logs_by_write_firmware image None s) as [H1 H2].
    split; [exact H1|]. split; [discriminate|]. eexists. exact H2.
  - split; [exists []; rewrite app_nil_r; split; reflexivity|].
    split; [reflexivity|]. exists []. apply frame_refl.
Qed.

(** X8: The full update: the TPM check comes after the preservation and before
    any write; once it has passed, the candidate is written as a whole to
    its programmer, then the EC image and then the PD image, each only if
    it is loaded; the first failing write ends the update with
    UPDATE_ERR_WRITE_FIRMWARE and no later write, and the result is
    UPDATE_ERR_DONE exactly when every image of the sequence was written.
    What the preservation returned does not matter. *)
Theorem full_update_write_order (s : state) :
  quirk_value (quirks (st_cfg s) QUIRK_UNLOCK_ME_FOR_UPDATE) = 0 ->
  let preserved := image (st_cfg (preserve_images s).2) in
  let run := update_whole_firmware IMAGE s in
  let writes := firmware_writes_by (new_events s run.2) in
  ((check_compatible_tpm_keys preserved s).1 <> 0 ->
   run.1 = UPDATE_ERR_TPM_ROLLBACK /\ writes = []) /\
  ((check_compatible_tpm_keys preserved s).1 = 0 ->
   stops_at_first_failure_by (whole_images (st_cfg s)) writes run.1).
Proof.
  intros Hq preserved run writes.
  destruct (bytes_only_preserve_images s Hq) as (img & Hs1 & Hl).
  assert (Hpres : preserved = img) by (unfold preserved; rewrite Hs1; reflexivity).
  assert (L1 : logs_by [] s (with_image img s)).
  { exists []. rewrite app_nil_r. split; reflexivity. }
  unfold writes, run, update_whole_firmware. clear writes run.
  rewrite run_bind, Hs1.
  rewrite run_bind. cbn [get_cfg fst snd get_image with_image st_cfg set_image image].
  rewrite run_bind. rewrite <- Hpres in *. clear Hpres.
  pose proof (quiet_check_compatible_tpm_keys preserved (with_image preserved s))
    as F2.
  pose proof (check_compatible_tpm_keys_with_image preserved s preserved) as Hv.
  destruct (check_compatible_tpm_keys preserved (with_image preserved s))
    as [r s2]. simpl in F2, Hv. cbn [fst snd]. subst r.
  pose proof (logs_by_trans _ _ _ _ _ L1 (logs_by_frame _ _ F2)) as L2.
  simpl in L2.
  destruct (decide ((check_compatible_tpm_keys preserved s).1 <> 0)) as [N|Z0].
  { split; [|intros Z0; contradiction]. intros _.
    rewrite run_ret. cbn [fst snd]. split; [reflexivity|].
    apply logs_by_new_events. exact L2. }
  split; [intros N; contradiction|]. intros _.
  assert (Hc2 : image (st_cfg s2) = preserved /\
                ec_image (st_cfg s2) = ec_image (st_cfg s) /\
                pd_image (st_cfg s2) = pd_image (st_cfg s)).
  { destruct F2. simpl in *. repeat split; assumption. }
  destruct Hc2 as (Hi2 & He2 & Hp2).
  rewrite run_bind. cbn [get_cfg fst snd get_image].
  rewrite Hi2, He2, Hp2.
  assert (Hprog : programmer preserved = programmer (image (st_cfg s)))
    by (destruct Hl as (H & _); exact H).
  unfold whole_images. rewrite <- Hprog.
  rewrite run_bind.
  destruct (logs_by_write_firmware preserved None s2) as [W1 _].
  destruct (write_firmware preserved None s2) as [w1 s3]. cbn [fst snd] in *.
  pose proof (logs_by_trans _ _ _ _ _ L2 W1) as L3. simpl in L3.
  destruct (decide (w1 <> 0)) as [N1|Z1].
  { rewrite run_ret. cbn [fst snd].
    rewrite (logs_by_new_events _ _ _ L3). apply stops_by_fail. exact N1. }
  assert (w1 = 0) as -> by lia.
  rewrite run_bind.
  destruct (logs_by_write_optional_whole (ec_image (st_cfg s)) s3)
    as (W2 & O2 & _).
  destruct (write_optional_firmware (ec_image (st_cfg s)) None s3) as [w2 s4].
  cbn [fst snd] in *.
  pose proof (logs_by_trans _ _ _ _ _ L3 W2) as L4. simpl in L4.
  destruct (decide (w2 <> 0)) as [N2|Z2].
  { rewrite run_ret. cbn [fst snd].
    rewrite (logs_by_new_events _ _ _ L4). apply stops_by_ok.
    destruct (data (ec_image (st_cfg s))).
    - apply stops_by_fail. exact N2.
    - contradiction N2. apply O2. reflexivity. }
  assert (w2 = 0) as -> by lia.
  rewrite run_bind.
  destruct (logs_by_write_optional_whole (pd_image (st_cfg s)) s4)
    as (W3 & O3 & _).
  destruct (write_optional_firmware (pd_image (st_cfg s)) None s4) as [w3 s5].
  cbn [fst snd] in *.
  pose proof (logs_by_trans _ _ _ _ _ L4 W3) as L5.
  destruct (decide (w3 <> 0)) as [N3|Z3].
  - rewrite run_ret. cbn [fst snd].
    rewrite (logs_by_new_events _ _ _ L5). apply stops_by_ok.
    destruct (data (ec_image (st_cfg s))); simpl;
      [apply stops_by_ok|];
      (destruct (data (pd_image (st_cfg s)));
       [apply stops_by_fail; exact N3
       |contradiction N3; apply O3; reflexivity]).
  - assert (w3 = 0) as -> by lia. rewrite run_ret. cbn [fst snd].
    rewrite (logs_by_new_events _ _ _ L5). apply stops_by_ok.
    destruct (data (ec_image (st_cfg s))); simpl;
      [apply stops_by_ok|];
      (destruct (data (pd_image (st_cfg s))); simpl;
       [apply stops_by_ok|]; apply stops_by_done).
Qed.

End FullUpdate.

(** On the test board, write protection off and no EC or PD image: the
    full update writes the candidate, once. *)
Lemma full_update_write_order_witness :
  let s := Board.start
             (Board.config Board.candidate Board.current
                (Board.overridden 0 65537 1 0 0) 0 0 0 None) Board.world0 in
  let run := @update_whole_firmware Board.vb2_struct_h Board.lib Board.env
               Board.no_quirks IMAGE s in
  stops_at_first_failure_by [(PROG_HOST, None)]
    (firmware_writes_by (new_events s run.2)) run.1.
Proof.
  intros s run.
  destruct (@full_update_write_order Board.vb2_struct_h Board.lib Board.env
              Board.no_quirks s eq_refl) as [_ H].
  apply H. vm_compute. reflexivity.
Defined.

(** ** The modes of the updater *)

Section Modes.

Context {L : vb2_struct} {V : vboot_lib} {E : environment} {Q : quirk_table}.

(** With both images loaded, the quirks off and matching platforms,
    [update_firmware] goes straight to the choice of the strategy, having
    written nothing. *)
Lemma update_firmware_loaded s :
  loaded s ->
  exists s',
    frame [] s s' /\
    reads_only s s' /\
    update_firmware s =
      select_strategy IMAGE_CURRENT IMAGE (is_write_protection_enabled s).1 s'.
Proof.
  intros ([d Hd] & [d' Hd'] & Hq & Hp).
  pose proof (quiet_is_write_protection_enabled s) as F1.
  set (s1 := (is_write_protection_enabled s).2) in *.
  pose proof (quiet_get_system_property SYS_PROP_WP_HW s1) as F2.
  set (s2 := (get_system_property SYS_PROP_WP_HW s1).2) in *.
  pose proof (quiet_get_system_property SYS_PROP_WP_SW s2) as F3.
  set (s3 := (get_system_property SYS_PROP_WP_SW s2).2) in *.
  pose proof (frame_trans _ _ _ _ _ F1 (frame_trans _ _ _ _ _ F2 F3)) as F.
  simpl in F.
  assert (Hq3 : forall q, quirk_value (quirks (st_cfg s3) q) = 0).
  { intros q. rewrite (frame_quirks _ _ _ F). apply Hq. }
  exists ((if decide (debugging_enabled s3 <> 0)
           then print_system_properties else mret tt) s3).2.
  split.
  { destruct (decide _); [|exact F].
    exact (frame_trans _ _ _ _ _ F (quiet_print_system_properties s3)). }
  split.
  { assert (R3 : reads_only s s3).
    { exact (reads_only_trans _ _ _ (reading_is_write_protection_enabled s)
               (reads_only_trans _ _ _
                  (reading_get_system_property SYS_PROP_WP_HW s1)
                  (reading_get_system_property SYS_PROP_WP_SW s2))). }
    destruct (decide _); [|exact R3].
    exact (reads_only_trans _ _ _ R3 (reading_print_system_properties s3)). }
  unfold update_firmware. cbv zeta. rewrite run_bind. simpl (get_cfg s).1.
  simpl (get_cfg s).2. simpl (get_image _ _). rewrite Hd. cbv beta iota.
  rewrite run_bind, try_apply_quirk_off by apply Hq. cbn [fst snd].
  destruct (decide (0 <> 0)) as [N|_]; [contradiction|].
  rewrite run_bind, try_apply_quirk_off by apply Hq. cbn [fst snd].
  destruct (decide (0 <> 0)) as [N|_]; [contradiction|].
  rewrite run_bind. simpl (get_cfg s).1. simpl (get_cfg s).2.
  simpl (get_image _ _). rewrite Hd'. cbv beta iota.
  rewrite run_bind, !run_ret. cbn [fst snd].
  destruct (decide (0 <> 0)) as [N|_]; [contradiction|].
  rewrite run_bind, check_compatible_platform_state, Hp.
  destruct (decide (0 <> 0)) as [N|_]; [contradiction|].
  rewrite run_bind. fold s1.
  rewrite run_bind. fold s2.
  rewrite run_bind. fold s3.
  rewrite run_bind, try_apply_quirk_off by apply Hq3. cbn [fst snd].
  destruct (decide (0 <> 0)) as [N|_]; [contradiction|].
  rewrite run_bind, try_apply_quirk_off by apply Hq3. cbn [fst snd].
  destruct (decide (0 <> 0)) as [N|_]; [contradiction|].
  rewrite run_bind. cbn [fst snd]. rewrite run_bind.
  reflexivity.
Qed.

(** X9: The legacy mode takes precedence over every other mode and makes
    none of the checks of root key and TPM versions: from a configuration
    with both images loaded, no quirk switched on and matching platforms,
    and with [legacy_update] set, [update_firmware] calls [write_firmware]
    exactly once, for RW_LEGACY, and returns UPDATE_ERR_DONE if that write
    succeeds and UPDATE_ERR_WRITE_FIRMWARE if it fails; the try mode, the
    write protection, the root key and the TPM versions play no part. *)
Theorem legacy_mode_writes_legacy_only (s : state) :
  loaded s -> legacy_update (st_cfg s) <> 0 ->
  let run := update_firmware s in
  exists w,
    firmware_writes (new_events s run.2) = [(Some FMAP_RW_LEGACY, w)] /\
    (w = 0 -> run.1 = UPDATE_ERR_DONE) /\
    (w <> 0 -> run.1 = UPDATE_ERR_WRITE_FIRMWARE).
Proof.
  intros Hl Hleg run.
  destruct (update_firmware_loaded s Hl) as (s' & F & _ & Hrun).
  assert (Hleg' : legacy_update (st_cfg s') <> 0).
  { destruct F. congruence. }
  unfold run. rewrite Hrun. clear run Hrun.
  unfold select_strategy. rewrite run_bind.
  simpl (get_cfg s').1. simpl (get_cfg s').2.
  destruct (decide (legacy_update (st_cfg s') <> 0)) as [_|N]; [|contradiction].
  unfold update_legacy_firmware. rewrite run_bind.
  simpl (get_cfg s').1. simpl (get_cfg s').2. rewrite run_bind.
  pose proof (frame_write_firmware (get_image IMAGE (st_cfg s'))
                (Some FMAP_RW_LEGACY) s') as Fw.
  destruct (write_firmware (get_image IMAGE (st_cfg s'))
              (Some FMAP_RW_LEGACY) s') as [w s2].
  cbn [fst snd] in *. exists w.
  pose proof (frame_trans _ _ _ _ _ F Fw) as F2. simpl in F2.
  destruct (decide (w <> 0)) as [Hw|Hw]; rewrite run_ret; cbn [fst snd].
  - split; [exact (frame_writes _ _ _ F2)|].
    split; [intros Z0; contradiction|reflexivity].
  - split; [exact (frame_writes _ _ _ F2)|].
    split; [reflexivity|intros N; contradiction].
Qed.


(** X11: A candidate whose VBLOCK_A key block is not signed is never written by
    the RW update: the root key check fails without asking the library to
    verify anything, [update_rw_firmrware] returns UPDATE_ERR_ROOT_KEY and
    leaves the state as it was; no write is issued and the force flag,
    which waives the TPM check, does not waive this one. *)
Theorem unsigned_candidate_is_refused (image_from image_to : image_ref)
    (s : state) :
  (forall keyblock,
     get_keyblock (get_image image_to (st_cfg s)) FMAP_RW_VBLOCK_A =
       Some keyblock ->
     Mem.read_u32 (image_bytes (get_image image_to (st_cfg s)))
       (keyblock + keyblock_sig_size_offset) = 0) ->
  check_compatible_root_key (get_image image_from (st_cfg s))
    (get_image image_to (st_cfg s)) = -1 /\
  update_rw_firmrware image_from image_to s = (UPDATE_ERR_ROOT_KEY, s).
Proof.
  intros Hsig.
  assert (Hroot : check_compatible_root_key (get_image image_from (st_cfg s))
                    (get_image image_to (st_cfg s)) = -1).
  { unfold check_compatible_root_key.
    destruct (find_gbb _) as [gbb|]; [|reflexivity].
    destruct (get_rootkey _ gbb) as [rootkey|]; [|reflexivity].
    destruct (get_keyblock _ FMAP_RW_VBLOCK_A) as [keyblock|] eqn:Hk;
      [|reflexivity].
    unfold verify_keyblock. rewrite (Hsig keyblock eq_refl).
    destruct (decide (0 = 0)) as [_|N]; [|contradiction].
    destruct (decide (-1 <> 0)) as [_|N]; [reflexivity|].
    exfalso. apply N. discriminate. }
  split; [exact Hroot|].
  unfold update_rw_firmrware. rewrite run_bind.
  simpl (get_cfg s).1. simpl (get_cfg s).2. rewrite Hroot.
  destruct (decide (-1 <> 0)) as [_|N]; [reflexivity|].
  exfalso. apply N. discriminate.
Qed.

End Modes.

Lemma Board_loaded props try force legacy emu w :
  loaded (Board.start
            (Board.config Board.candidate Board.current props try force legacy
               emu) w).
Proof.
  unfold loaded. simpl. split; [eexists; reflexivity|].
  split; [eexists; reflexivity|]. split; [intros q; reflexivity|].
  vm_compute. reflexivity.
Qed.

(** On the test board, in legacy mode: RW_LEGACY is written although the
    TPM holds versions far above the candidate's (tpm_fwver 0x7fffffff),
    which every other mode would refuse. *)
Lemma legacy_mode_writes_legacy_only_witness :
  let s := Board.start
             (Board.config Board.candidate Board.current
                (Board.overridden 0 2147483647 1 1 1) 1 0 1 None)
             Board.world0 in
  (@check_compatible_tpm_keys Board.vb2_struct_h Board.candidate s).1 <> 0 /\
  exists w,
    firmware_writes
      (new_events s
         (@update_firmware Board.vb2_struct_h Board.lib Board.env
            Board.no_quirks s).2) = [(Some FMAP_RW_LEGACY, w)].
Proof.
  intros s. split; [vm_compute; discriminate|].
  destruct (@legacy_mode_writes_legacy_only Board.vb2_struct_h Board.lib
              Board.env Board.no_quirks s) as (w & Hw & _).
  - apply Board_loaded.
  - discriminate.
  - exists w. exact Hw.
Defined.


(** On the test board: the candidate with the signature size of its key
    block set to zero. *)
Lemma unsigned_candidate_is_refused_witness :
  let unsigned :=
    Board.mk_image "image.bin" (Board.poke_u32 416 0 Board.candidate_bytes) in
  let s := Board.start
             (Board.config unsigned Board.current
                (Board.overridden 0 65537 1 1 1) 0 1 0 None) Board.world0 in
  update_rw_firmrware (L := Board.vb2_struct_h) (V := Board.lib)
    (E := Board.env) IMAGE_CURRENT IMAGE s = (UPDATE_ERR_ROOT_KEY, s).
Proof.
  intros unsigned s.
  apply (unsigned_candidate_is_refused (L := Board.vb2_struct_h)
           (V := Board.lib) (E := Board.env) IMAGE_CURRENT IMAGE s).
  intros keyblock Hk. vm_compute in Hk. injection Hk as <-.
  vm_compute. reflexivity.
Defined.

(** ** Cookies, the system firmware, emulated writes *)

Section Io.

Context {L : vb2_struct} {V : vboot_lib} {E : environment} {Q : quirk_table}.

(** X12: [set_try_cookies]: an unknown target fails and, like a call under
    emulation (which succeeds), touches nothing.  Otherwise the slot letter
    of the target section goes to fw_try_next, only under vboot2, and then
    the try count (8 with an EC image loaded, 6 without) to fw_try_count;
    fw_try_count is not set once fw_try_next has failed, and the result is
    0 exactly when every property that was set was set successfully. *)
Theorem set_try_cookies_protocol (target : option string) (is_vboot2 : Z)
    (s : state) :
  let c := st_cfg s in
  let run := set_try_cookies target is_vboot2 s in
  let tries := match data (ec_image c) with Some _ => 8 | None => 6 end in
  (target <> Some FMAP_RW_SECTION_A -> target <> Some FMAP_RW_SECTION_B ->
   run = (-1, s)) /\
  (forall slot,
     (target = Some FMAP_RW_SECTION_A /\ slot = FWACT_A) \/
     (target = Some FMAP_RW_SECTION_B /\ slot = FWACT_B) ->
     (is_Some (emulation c) -> run = (0, s)) /\
     (emulation c = None ->
      st_cfg run.2 = c /\
      let next := EvSetPropertyString "fw_try_next" slot
                    (env_set_property_string (st_world s) "fw_try_next" slot) in
      let w1 := if decide (is_vboot2 <> 0) then log next (st_world s)
                else st_world s in
      let count := EvSetPropertyInt "fw_try_count" tries
                     (env_set_property_int w1 "fw_try_count" tries) in
      if decide (is_vboot2 <> 0 /\
                 env_set_property_string (st_world s) "fw_try_next" slot <> 0)
      then run.1 = -1 /\ new_events s run.2 = [next]
      else
        new_events s run.2 =
          (if decide (is_vboot2 <> 0) then [next] else []) ++ [count] /\
        (run.1 = 0 <-> env_set_property_int w1 "fw_try_count" tries = 0) /\
        (run.1 <> 0 -> run.1 = -1))).
Proof.
  intros c run tries. split.
  - intros Ha Hb. unfold run, set_try_cookies. rewrite run_bind.
    simpl (get_cfg s).1. simpl (get_cfg s).2. cbv zeta.
    destruct target as [t|]; [|reflexivity].
    destruct (String.eqb_spec t FMAP_RW_SECTION_A) as [->|_];
      [contradiction Ha; reflexivity|].
    destruct (String.eqb_spec t FMAP_RW_SECTION_B) as [->|_];
      [contradiction Hb; reflexivity|].
    reflexivity.
  - intros slot Hslot.
    assert (Hrun : run =
              (if bool_decide (is_Some (emulation c)) then mret 0
               else
                 w ← get_world;
                 r1 ← (if decide (is_vboot2 <> 0) then
                         let r := env_set_property_string w "fw_try_next" slot in
                         emit (EvSetPropertyString "fw_try_next" slot r);;
                         mret r
                       else mret 0);
                 if decide (r1 <> 0) then mret (-1)
                 else
                   w ← get_world;
                   let r := env_set_property_int w "fw_try_count" tries in
                   emit (EvSetPropertyInt "fw_try_count" tries r);;
                   if decide (r <> 0) then mret (-1) else mret 0) s).
    { unfold run, set_try_cookies. rewrite run_bind.
      simpl (get_cfg s).1. simpl (get_cfg s).2. cbv zeta.
      destruct Hslot as [[-> ->]|[-> ->]]; reflexivity. }
    split.
    + intros Hemu. rewrite Hrun, bool_decide_eq_true_2 by exact Hemu.
      reflexivity.
    + intros Hemu. rewrite Hrun.
      rewrite bool_decide_eq_false_2
        by (rewrite Hemu; intros [x Hx]; discriminate Hx).
      rewrite run_bind. simpl (get_world s).1. simpl (get_world s).2.
      rewrite run_bind.
      destruct (decide (is_vboot2 <> 0)) as [Hv|Hv].
      * cbv zeta. rewrite run_bind. cbn [emit modify_world fst snd].
        rewrite run_ret. cbn [fst snd].
        set (r1 := env_set_property_string (st_world s) "fw_try_next" slot).
        destruct (decide (r1 <> 0)) as [N1|Z1].
        -- destruct (decide (_ /\ _)) as [_|N]; [|exfalso; apply N; auto].
           rewrite run_ret. cbn [fst snd st_cfg]. split; [reflexivity|].
           split; [reflexivity|].
           unfold new_events. cbn [st_world w_trace log].
           apply drop_app_length.
        -- destruct (decide (_ /\ _)) as [[_ N]|_]; [contradiction|].
           rewrite run_bind. cbn [get_world fst snd st_world].
           cbv zeta. rewrite run_bind. cbn [emit modify_world fst snd st_world].
           set (r2 := env_set_property_int _ "fw_try_count" tries).
           split; [destruct (decide (r2 <> 0)); reflexivity|].
           split.
           ++ destruct (decide (r2 <> 0)); rewrite run_ret;
                unfold new_events; cbn [snd st_world w_trace log];
                rewrite <- app_assoc; apply drop_app_length.
           ++ destruct (decide (r2 <> 0)) as [N2|Z2]; rewrite run_ret;
                cbn [fst]; split; try lia; try discriminate; try reflexivity.
      * rewrite run_ret. cbn [fst snd]. cbv zeta.
        destruct (decide (0 <> 0)) as [N|_]; [contradiction|].
        destruct (decide (_ /\ _)) as [[N _]|_]; [contradiction|].
        rewrite run_bind. cbn [get_world fst snd st_world].
        cbv zeta. rewrite run_bind. cbn [emit modify_world fst snd st_world].
        set (r2 := env_set_property_int _ "fw_try_count" tries).
        split; [destruct (decide (r2 <> 0)); reflexivity|].
        split.
        -- destruct (decide (r2 <> 0)); rewrite run_ret;
             unfold new_events; cbn [snd st_world w_trace log];
             apply drop_app_length.
        -- destruct (decide (r2 <> 0)) as [N2|Z2]; rewrite run_ret;
             cbn [fst]; split; try lia; try discriminate; try reflexivity.
Qed.


Lemma set_image_other r r' i c :
  r' <> r -> get_image r' (set_image r i c) = get_image r' c.
Proof. destruct r, r'; intros H; try reflexivity; contradiction H; reflexivity. Qed.

Lemma get_set_image r i c : get_image r (set_image r i c) = i.
Proof. destruct r; reflexivity. Qed.

Lemma load_firmware_image_file image file w d :
  w_files w !! file = Some d ->
  let r := load_firmware_image image file w in
  data r.2 = Some d /\
  fmap_header r.2 = fmap_find d /\
  programmer r.2 = programmer image /\
  file_name r.2 = file /\
  (r.1 = 0 <->
   exists areas, fmap_find d = Some areas /\
                 is_Some (fmap_lookup areas FMAP_RO_FRID)) /\
  (r.1 <> 0 -> r.1 = -1).
Proof.
  intros Hf. unfold load_firmware_image. rewrite Hf. cbn [fmap_header].
  destruct (fmap_find d) as [areas|] eqn:Hfmap.
  - assert (Hex : firmware_section_exists
                    {| programmer := programmer image; data := Some d;
                       file_name := file; ro_version := ro_version image;
                       rw_version_a := rw_version_a image;
                       rw_version_b := rw_version_b image;
                       fmap_header := Some areas |} FMAP_RO_FRID =
                  bool_decide (is_Some (fmap_lookup areas FMAP_RO_FRID))).
    { unfold firmware_section_exists, find_firmware_section, fmap_find_by_name.
      cbn [data fmap_header].
      destruct (fmap_lookup areas FMAP_RO_FRID).
      - rewrite bool_decide_eq_true_2 by (eexists; reflexivity). reflexivity.
      - rewrite bool_decide_eq_false_2 by (intros [x Hx]; discriminate Hx).
        reflexivity. }
    rewrite Hex.
    destruct (fmap_lookup areas FMAP_RO_FRID) as [frid|] eqn:Hfrid.
    + rewrite bool_decide_eq_true_2 by (eexists; reflexivity). cbn [negb].
      destruct (firmware_section_exists _ FMAP_RW_FWID_A);
        [|destruct (firmware_section_exists _ FMAP_RW_FWID)];
        cbn [fst snd data fmap_header programmer file_name];
        repeat (split; [reflexivity|]);
        (split; [split; [intros _; exists areas; split;
                           [reflexivity|rewrite Hfrid; eexists; reflexivity]
                        |reflexivity]
                |intros N; contradiction N; reflexivity]).
    + rewrite bool_decide_eq_false_2 by (intros [x Hx]; discriminate Hx).
      cbn [negb fst snd data fmap_header programmer file_name].
      repeat (split; [reflexivity|]).
      split; [|reflexivity]. split; [discriminate|].
      intros (areas' & [= <-] & [x Hx]). rewrite Hfrid in Hx. discriminate.
  - cbn [fst snd data fmap_header programmer file_name].
    repeat (split; [reflexivity|]).
    split; [|reflexivity]. split; [discriminate|].
    intros (areas' & Ha & _). discriminate Ha.
Qed.

(** X13: [load_system_firmware] reads the whole chip of the image's programmer
    into a new temporary file and loads the image from that file: on
    success the image holds exactly the bytes flashrom delivered, which
    carry an FMAP with an RO_FRID section, and the file is registered for
    removal.  Without a temporary file flashrom is not run; when flashrom
    fails its status is returned and the image is as before; the other
    images are never touched. *)
Theorem load_system_firmware_reads_flash (r : image_ref) (s : state) :
  let c := st_cfg s in
  let prog := programmer (get_image r c) in
  let run := load_system_firmware r s in
  (forall r', r' <> r -> get_image r' (st_cfg run.2) = get_image r' c) /\
  (env_mkstemp (st_world s) = None ->
   run.1 = -1 /\ st_cfg run.2 = c /\ new_events s run.2 = [EvTempFile None]) /\
  (forall tmp,
     env_mkstemp (st_world s) = Some tmp ->
     let w1 := put_file tmp [] (log (EvTempFile (Some tmp)) (st_world s)) in
     let st := env_flashrom w1 FLASHROM_READ tmp prog None in
     let d := env_flash_contents w1 prog in
     new_events s run.2 =
       [EvTempFile (Some tmp); EvFlashrom FLASHROM_READ tmp prog None st] /\
     tempfiles (st_cfg run.2) = tmp :: tempfiles c /\
     (st <> 0 -> run.1 = st /\ get_image r (st_cfg run.2) = get_image r c) /\
     (st = 0 ->
      w_files (st_world run.2) !! tmp = Some d /\
      data (get_image r (st_cfg run.2)) = Some d /\
      fmap_header (get_image r (st_cfg run.2)) = fmap_find d /\
      programmer (get_image r (st_cfg run.2)) = prog /\
      (run.1 = 0 <->
       exists areas, fmap_find d = Some areas /\
                     is_Some (fmap_lookup areas FMAP_RO_FRID)) /\
      (run.1 <> 0 -> run.1 = -1))).
Proof.
  intros c prog run.
  assert (Hg : forall x t, get_image x (set_tempfiles t c) = get_image x c)
    by (intros [] t; reflexivity).
  unfold run, load_system_firmware, updater_create_temp_file, host_flashrom.
  unfold mbind, M_bind, mret, M_ret, get_cfg, get_world, emit, modify_cfg,
    modify_world. cbv zeta. cbn [fst snd st_cfg st_world].
  destruct (env_mkstemp (st_world s)) as [tmp|] eqn:Hm.
  - cbn [fst snd st_cfg st_world]. rewrite !Hg. fold c prog.
    set (w1 := put_file tmp [] (log (EvTempFile (Some tmp)) (st_world s))).
    set (st := env_flashrom w1 FLASHROM_READ tmp prog None).
    set (d := env_flash_contents w1 prog).
    destruct (decide (st = 0)) as [Hz|Hnz].
    + cbn [fst snd st_cfg st_world].
      destruct (decide (st <> 0)) as [N|_]; [contradiction|].
      cbn [fst snd st_cfg st_world].
      assert (Hfile : w_files
                        (put_file tmp d
                           (log (EvFlashrom FLASHROM_READ tmp prog None st) w1))
                        !! tmp = Some d) by apply lookup_insert_eq.
      pose proof (load_firmware_image_file (get_image r c) tmp _ d Hfile) as Hl.
      destruct (load_firmware_image (get_image r c) tmp _) as [st' i].
      cbn [fst snd st_cfg st_world] in *.
      destruct Hl as (Hd & Hfm & Hp & _ & Hiff & Hneg).
      split.
      { intros r' Hr'. rewrite set_image_other by exact Hr'. apply Hg. }
      split; [discriminate|].
      intros tmp' [= <-]. cbv zeta. fold w1 st d.
      rewrite get_set_image.
      split; [unfold new_events; cbn [st_world w_trace put_file log w1];
              rewrite <- app_assoc; apply drop_app_length|].
      split; [reflexivity|].
      split; [intros N; contradiction|]. intros _.
      split; [exact Hfile|]. split; [exact Hd|]. split; [exact Hfm|].
      split; [exact Hp|]. split; [exact Hiff|exact Hneg].
    + cbn [fst snd st_cfg st_world].
      destruct (decide (st <> 0)) as [_|N]; [|contradiction].
      cbn [fst snd st_cfg st_world].
      split; [intros r' _; apply Hg|].
      split; [discriminate|].
      intros tmp' [= <-]. cbv zeta. fold w1 st.
      split; [unfold new_events; cbn [st_world w_trace put_file log w1];
              rewrite <- app_assoc; apply drop_app_length|].
      split; [reflexivity|].
      split; [intros _; split; [reflexivity|apply Hg]|].
      intros Z0. contradiction.
  - cbn [fst snd st_cfg st_world].
    split; [intros r' _; reflexivity|].
    split; [|discriminate].
    intros _. split; [reflexivity|]. split; [reflexivity|].
    unfold new_events. cbn [st_world w_trace log]. apply drop_app_length.
Qed.


(** X14: What an emulated write does to the emulation file, which must load as
    a firmware image.  For a named section: if the image to write or the
    file lacks the section, nothing is written and the number of missing
    sections is returned.  Otherwise the file's section (both sections
    lying inside their buffers) receives the first min(size in file, size
    in image) bytes of the image's section, every other byte of the file
    and its length staying as they were; the result is 0 if
    vb2_write_file succeeds and 1, with the file untouched, if it fails.
    For the whole image: buffers of different sizes are an error and leave
    the file untouched, otherwise the file receives the image's bytes. *)
Theorem emulated_write_effect (filename : string) (image : firmware_image)
    (s : state) (d : list byte) (areas : list fmap_area) :
  w_files (st_world s) !! filename = Some d ->
  fmap_find d = Some areas ->
  is_Some (fmap_lookup areas FMAP_RO_FRID) ->
  (forall name,
     let run := emulate_write_firmware filename image (Some name) s in
     (find_firmware_section image name = None \/
      fmap_lookup areas name = None ->
      run.1 > 0 /\ run.2 = s) /\
     (forall from to,
        find_firmware_section image name = Some from ->
        fmap_lookup areas name = Some to ->
        (sec_offset from + sec_size from <= image_size image)%nat ->
        (area_offset to + area_size to <= length d)%nat ->
        let n := Nat.min (area_size to) (sec_size from) in
        exists d',
          length d' = length d /\
          Mem.read_bytes d' (area_offset to) n =
            Mem.read_bytes (image_bytes image) (sec_offset from) n /\
          (forall j, (j < area_offset to \/ area_offset to + n <= j)%nat ->
                     d' !! j = d !! j) /\
          (env_write_file (st_world s) filename d' = true ->
           run.1 = 0 /\ w_files (st_world run.2) !! filename = Some d') /\
          (env_write_file (st_world s) filename d' = false ->
           run.1 = 1 /\ w_files (st_world run.2) = w_files (st_world s)))) /\
  (let run := emulate_write_firmware filename image None s in
   (image_size image <> length d -> run = (1, s)) /\
   (image_size image = length d ->
    (env_write_file (st_world s) filename (image_bytes image) = true ->
     run.1 = 0 /\
     w_files (st_world run.2) !! filename = Some (image_bytes image)) /\
    (env_write_file (st_world s) filename (image_bytes image) = false ->
     run.1 = 1 /\ w_files (st_world run.2) = w_files (st_world s)))).
Proof.
  intros Hfile Hfmap Hfrid.
  set (to_image0 := {| programmer := ""; data := None; file_name := "";
                       ro_version := ""; rw_version_a := "";
                       rw_version_b := ""; fmap_header := None |}).
  pose proof (load_firmware_image_file to_image0 filename _ d Hfile) as Hl.
  cbv zeta in Hl. destruct Hl as (Hd & Hfm & _ & _ & Hiff & _).
  assert (Hst : (load_firmware_image to_image0 filename (st_world s)).1 = 0).
  { apply Hiff. exists areas. split; assumption. }
  rewrite Hfmap in Hfm.
  assert (Hwrite : forall x, vb2_write_file filename x s =
            (env_write_file (st_world s) filename x,
             {| st_cfg := st_cfg s;
                st_world :=
                  if env_write_file (st_world s) filename x
                  then put_file filename x
                         (log (EvWriteFile filename true) (st_world s))
                  else log (EvWriteFile filename false) (st_world s);
                debugging_enabled := debugging_enabled s |})).
  { intros x. unfold vb2_write_file, mbind, M_bind, mret, M_ret, get_world,
      emit, modify_world. cbv zeta. cbn [fst snd st_world].
    destruct (env_write_file (st_world s) filename x); reflexivity. }
  split.
  - intros name run. unfold run, emulate_write_firmware.
    rewrite run_bind. cbn [get_world fst snd]. cbv zeta. fold to_image0.
    destruct (load_firmware_image to_image0 filename (st_world s))
      as [st to_image]. cbn [fst snd] in *. subst st.
    destruct (decide (0 <> 0)) as [N|_]; [contradiction|].
    assert (Hto : find_firmware_section to_image name =
                  match fmap_lookup areas name with
                  | Some a => Some {| sec_offset := area_offset a;
                                      sec_size := area_size a |}
                  | None => None
                  end).
    { unfold find_firmware_section, fmap_find_by_name. rewrite Hd, Hfm.
      reflexivity. }
    rewrite Hto. split.
    + intros Hmiss.
      destruct (find_firmware_section image name) as [from|];
        destruct (fmap_lookup areas name) as [to|];
        try (destruct Hmiss; discriminate);
        cbn [sec_offset sec_size section_size];
        (destruct (decide _) as [_|N];
         [rewrite run_ret; split; [simpl; lia|reflexivity]
         |exfalso; apply N; discriminate]).
    + intros from to Hfrom Hlook Hbf Hbt.
      rewrite Hfrom, Hlook.
      destruct (decide (0 + 0 <> 0)) as [N|_]; [contradiction N; reflexivity|].
      cbn [section_size sec_size sec_offset].
      set (n := Nat.min (area_size to) (sec_size from)).
      assert (Hbytes : image_bytes to_image = d)
        by (unfold image_bytes; rewrite Hd; reflexivity).
      rewrite Hbytes.
      set (bs := Mem.read_bytes (image_bytes image) (sec_offset from) n).
      assert (Hlen : length bs = n).
      { unfold bs. rewrite MemFacts.length_read_bytes.
        unfold image_size in Hbf. unfold n. lia. }
      exists (Mem.write_bytes d (area_offset to) bs).
      split; [apply MemFacts.length_write_bytes|].
      split.
      { rewrite <- Hlen at 1. apply MemFacts.read_bytes_write_bytes_same.
        rewrite Hlen. unfold n. lia. }
      split.
      { intros j [Hj|Hj].
        - apply MemFacts.lookup_write_bytes_lt. exact Hj.
        - apply MemFacts.lookup_write_bytes_ge. rewrite Hlen. exact Hj. }
      rewrite run_bind, Hwrite. cbn [fst snd].
      split; intros Hok; rewrite Hok; rewrite run_ret; cbn [fst snd st_world].
      * split; [reflexivity|]. apply lookup_insert_eq.
      * split; reflexivity.
  - intros run. unfold run, emulate_write_firmware.
    rewrite run_bind. cbn [get_world fst snd]. cbv zeta. fold to_image0.
    destruct (load_firmware_image to_image0 filename (st_world s))
      as [st to_image]. cbn [fst snd] in *. subst st.
    destruct (decide (0 <> 0)) as [N|_]; [contradiction|].
    assert (Hbytes : image_bytes to_image = d)
      by (unfold image_bytes; rewrite Hd; reflexivity).
    assert (Hsize : image_size to_image = length d)
      by (unfold image_size; rewrite Hbytes; reflexivity).
    rewrite Hsize. split.
    + intros Hne.
      destruct (decide (image_size image <> length d)) as [_|N];
        [|contradiction].
      destruct (decide (1 <> 0)) as [_|N]; [reflexivity|].
      exfalso. apply N. discriminate.
    + intros Heq.
      destruct (decide (image_size image <> length d)) as [N|_];
        [contradiction|].
      destruct (decide (0 <> 0)) as [N|_]; [contradiction|].
      cbn [section_size sec_size sec_offset]. rewrite Hbytes.
      assert (Hall : Mem.write_bytes d 0
                       (Mem.read_bytes (image_bytes image) 0
                          (Nat.min (length d) (image_size image))) =
                     image_bytes image).
      { unfold image_size in Heq. unfold Mem.write_bytes, Mem.read_bytes, image_size.
        rewrite drop_0, (take_ge (image_bytes image)) by lia.
        rewrite take_0, (take_ge (image_bytes image)) by lia.
        rewrite drop_ge by lia. apply app_nil_r. }
      rewrite Hall, run_bind, Hwrite. cbn [fst snd].
      split; intros Hok; rewrite Hok; rewrite run_ret; cbn [fst snd st_world].
      * split; [reflexivity|]. apply lookup_insert_eq.
      * split; reflexivity.
Qed.

End Io.

(** On the test board: the candidate written as a whole into the emulation
    file, which holds the current firmware. *)
Lemma emulated_write_effect_witness :
  let s := Board.start
             (Board.config Board.candidate Board.current
                (Board.overridden 0 65537 1 0 0) 0 0 0 (Some Board.emu_file))
             Board.world_emu in
  let run := emulate_write_firmware (V := Board.lib) (E := Board.env)
               Board.emu_file Board.candidate None s in
  run.1 = 0 /\
  w_files (st_world run.2) !! Board.emu_file =
    Some (image_bytes Board.candidate).
Proof.
  intros s run.
  destruct (emulated_write_effect (V := Board.lib) (E := Board.env)
              Board.emu_file Board.candidate s Board.current_bytes Board.areas)
    as [_ [_ H]].
  - vm_compute. reflexivity.
  - vm_compute. reflexivity.
  - eexists. vm_compute. reflexivity.
  - apply H; [vm_compute; reflexivity|reflexivity].
Defined.

(** ** Stripping a string *)

Lemma strlen_lookup_lt (s : list byte) (i : nat) :
  (i < Mem.strlen s)%nat -> exists c, s !! i = Some c /\ c <> Byte.x00.
Proof.
  revert i. induction s as [|b s IH]; intros i; simpl; [lia|].
  destruct (Byte.eqb b Byte.x00) eqn:Hb; [lia|].
  destruct i as [|i]; intros Hi.
  - exists b. split; [reflexivity|]. intros ->. discriminate Hb.
  - apply IH. lia.
Qed.

Lemma strlen_insert_nul (s : list byte) (n : nat) :
  (n < Mem.strlen s)%nat -> Mem.strlen (<[n := Byte.x00]> s) = n.
Proof.
  revert n. induction s as [|b s IH]; intros n; simpl; [lia|].
  destruct (Byte.eqb b Byte.x00) eqn:Hb; [lia|].
  destruct n as [|n]; intros Hn; simpl.
  - reflexivity.
  - rewrite Hb. f_equal. apply IH. lia.
Qed.

Lemma strip_loop_spec (n : nat) (s : list byte) :
  Mem.strlen s = n ->
  let r := strip_loop n s in
  length r = length s /\
  (exists sp, c_string s = c_string r ++ sp /\
              Forall (fun c => ascii_space c = true) sp) /\
  (forall t c, c_string r = t ++ [c] -> ascii_space c = false).
Proof.
  revert s. induction n as [|n IH]; intros s Hn; simpl.
  - split; [reflexivity|]. split.
    + exists []. rewrite app_nil_r. split; [reflexivity|constructor].
    + intros t c. unfold c_string. rewrite Hn, take_0.
      intros H. destruct t; discriminate H.
  - destruct (strlen_lookup_lt s n) as (c & Hc & Hnz); [lia|].
    rewrite Hc.
    assert (Hs : c_string s = take n s ++ [c]).
    { unfold c_string. rewrite Hn. apply take_S_r. exact Hc. }
    destruct (negb (isascii c) || negb (isspace c)) eqn:Ht.
    + split; [reflexivity|]. split.
      * exists []. rewrite app_nil_r. split; [reflexivity|constructor].
      * intros t c'. rewrite Hs. intros H.
        apply app_inj_tail in H as [_ <-].
        unfold ascii_space.
        destruct (isascii c), (isspace c); try reflexivity; discriminate Ht.
    + assert (Hsp : ascii_space c = true).
      { unfold ascii_space.
        destruct (isascii c), (isspace c); try reflexivity; discriminate Ht. }
      assert (Hn' : Mem.strlen (<[n := Byte.x00]> s) = n)
        by (apply strlen_insert_nul; lia).
      destruct (IH _ Hn') as (Hlen & (sp & Hcs & Hall) & Hlast).
      split; [rewrite Hlen; apply length_insert|].
      split; [|exact Hlast].
      exists (sp ++ [c]). split.
      * rewrite Hs, app_assoc, <- Hcs. f_equal.
        unfold c_string. rewrite Hn'. symmetry. apply take_insert_ge. lia.
      * apply Forall_app. split; [exact Hall|].
        constructor; [exact Hsp|constructor].
Qed.

(** X15: [strip] removes the trailing white space of a text, and nothing else:
    what is left is the text without a last run of ASCII space characters
    (space, tab, line feed, vertical tab, form feed, carriage return), it
    does not end in such a character, and the buffer keeps its length.  A
    character outside ASCII ends the stripping. *)
Theorem strip_removes_trailing_space (s : list byte) :
  Z.of_nat (Mem.strlen s) < 2 ^ 31 ->
  length (strip s) = length s /\
  (exists spaces,
     c_string s = c_string (strip s) ++ spaces /\
     Forall (fun c => ascii_space c = true) spaces) /\
  (forall t c, c_string (strip s) = t ++ [c] -> ascii_space c = false).
Proof.
  intros Hlen. unfold strip. cbv zeta.
  rewrite CIntFacts.to_int_id by (unfold CInt.int_range; lia).
  rewrite Nat2Z.id. apply strip_loop_spec. reflexivity.
Qed.

(** The line "write protect is enabled." followed by a blank and a line
    feed. *)
Lemma strip_removes_trailing_space_witness :
  let line := list_byte_of_string "write protect is enabled." in
  let buffer := line ++ [Byte.x20; Byte.x0a; Byte.x00] in
  length (strip buffer) = length buffer /\
  c_string (strip buffer) = line.
Proof.
  intros line buffer.
  destruct (strip_removes_trailing_space buffer) as (Hlen & _ & _);
    [vm_compute; reflexivity|].
  split; [exact Hlen|vm_compute; reflexivity].
Defined.

(** ** Overriding properties from a list *)

Lemma strtol_digits_le (base : Z) (s : list byte) (acc : Z) :
  ((strtol_digits base s acc).2 <= length s)%nat.
Proof.
  revert acc. induction s as [|c s IH]; intros acc; simpl; [lia|].
  destruct (digit_value c) as [d|]; [|simpl; lia].
  destruct (d <? base); [|simpl; lia].
  specialize (IH (acc * base + d)).
  destruct (strtol_digits base s (acc * base + d)) as [v n]. simpl in *. lia.
Qed.

Lemma skip_space_le (s : list byte) : (skip_space s <= length s)%nat.
Proof.
  induction s as [|c s IH]; simpl; [lia|].
  destruct (isspace c); simpl; lia.
Qed.

(** [strtol] ends inside the text. *)
Lemma strtol_le (s : list byte) : ((strtol s).2 <= length s)%nat.
Proof.
  unfold strtol. cbv zeta.
  pose proof (skip_space_le s) as Hws.
  set (ws := skip_space s) in *. set (s1 := drop ws s).
  assert (H1 : length s1 = (length s - ws)%nat) by apply length_drop.
  set (sign := match s1 with
               | c :: _ =>
                   if Byte.eqb c Byte.x2d then (true, 1%nat)
                   else if Byte.eqb c Byte.x2b then (false, 1%nat)
                   else (false, O)
               | [] => (false, O)
               end).
  assert (Hsg : (sign.2 <= length s1)%nat).
  { unfold sign. destruct s1 as [|c s1']; simpl; [lia|].
    destruct (Byte.eqb c Byte.x2d); [simpl; lia|].
    destruct (Byte.eqb c Byte.x2b); simpl; lia. }
  destruct sign as [neg sg]. simpl in Hsg.
  set (s2 := drop sg s1).
  assert (H2 : length s2 = (length s1 - sg)%nat) by apply length_drop.
  match goal with
  | |- context [let '(base, pre) := ?b in _] => set (prefix := b)
  end.
  assert (Hpre : (prefix.2 <= length s2)%nat).
  { unfold prefix. destruct s2 as [|c0 [|x [|h s2']]]; simpl; try lia.
    - destruct (Byte.eqb c0 Byte.x30); simpl; lia.
    - destruct (Byte.eqb c0 Byte.x30); simpl; lia.
    - destruct (Byte.eqb c0 Byte.x30); [|simpl; lia].
      destruct (_ && _); simpl; lia. }
  destruct prefix as [base pre]. simpl in Hpre.
  pose proof (strtol_digits_le base (drop pre s2) 0) as Hn.
  rewrite length_drop in Hn.
  destruct (strtol_digits base (drop pre s2) 0) as [v n]. simpl in Hn.
  destruct n; simpl; lia.
Qed.

Lemma isdigit_value (c : byte) :
  isdigit c = true ->
  digit_value c = Some (Mem.byte_val c - 48) /\
  0 <= Mem.byte_val c - 48 < 10 /\ isspace c = false /\
  Byte.eqb c Byte.x2d = false /\ Byte.eqb c Byte.x2b = false.
Proof.
  unfold isdigit, digit_value, isspace. cbv zeta. intros H.
  rewrite H. apply andb_true_iff in H as [H1 H2].
  apply Z.leb_le in H1, H2.
  split; [reflexivity|]. split; [lia|]. split.
  - apply orb_false_iff. split; [apply Z.eqb_neq; lia|].
    apply andb_false_iff. right. apply Z.leb_gt. lia.
  - split.
    + destruct (Byte.eqb c Byte.x2d) eqn:Hc; [|reflexivity].
      apply Byte.byte_dec_bl in Hc. subst c. vm_compute in H1.
      contradiction H1. reflexivity.
    + destruct (Byte.eqb c Byte.x2b) eqn:Hc; [|reflexivity].
      apply Byte.byte_dec_bl in Hc. subst c. vm_compute in H1.
      contradiction H1. reflexivity.
Qed.

(** At a digit [strtol] converts at least that digit. *)
Lemma strtol_at_digit (c : byte) (s : list byte) :
  isdigit c = true -> (1 <= (strtol (c :: s)).2)%nat.
Proof.
  intros Hd. destruct (isdigit_value c Hd) as (Hv & Hr & Hsp & Hm & Hp).
  unfold strtol. cbv zeta. simpl skip_space. rewrite Hsp.
  rewrite drop_0, Hm, Hp, drop_0.
  assert (Hdig : forall base, 10 <= base \/ (base = 8 /\ Byte.eqb c Byte.x30 = true) ->
            (1 <= (strtol_digits base (c :: s) 0).2)%nat).
  { intros base Hb. simpl. rewrite Hv.
    assert (Hlt : (Mem.byte_val c - 48 <? base) = true).
    { apply Z.ltb_lt. destruct Hb as [Hb|[-> Hc0]]; [lia|].
      apply Byte.byte_dec_bl in Hc0. subst c. vm_compute. reflexivity. }
    rewrite Hlt.
    destruct (strtol_digits base s _) as [v n]. simpl. lia. }
  destruct s as [|x [|h s']].
  - destruct (Byte.eqb c Byte.x30) eqn:Hc0.
    + specialize (Hdig 8 (or_intror (conj eq_refl eq_refl))).
      rewrite drop_0.
      destruct (strtol_digits 8 [c] 0) as [v n]. simpl in *.
      destruct n; simpl; lia.
    + specialize (Hdig 10 (or_introl (Z.le_refl _))).
      rewrite drop_0.
      destruct (strtol_digits 10 [c] 0) as [v n]. simpl in *.
      destruct n; simpl; lia.
  - destruct (Byte.eqb c Byte.x30) eqn:Hc0.
    + specialize (Hdig 8 (or_intror (conj eq_refl eq_refl))).
      rewrite drop_0.
      destruct (strtol_digits 8 [c; x] 0) as [v n]. simpl in *.
      destruct n; simpl; lia.
    + specialize (Hdig 10 (or_introl (Z.le_refl _))).
      rewrite drop_0.
      destruct (strtol_digits 10 [c; x] 0) as [v n]. simpl in *.
      destruct n; simpl; lia.
  - destruct (Byte.eqb c Byte.x30) eqn:Hc0.
    + destruct ((Byte.eqb x Byte.x78 || Byte.eqb x Byte.x58) &&
                match digit_value h with
                | Some d => d <? 16
                | None => false
                end) eqn:Hhex.
      * apply andb_true_iff in Hhex as [_ Hh].
        change (drop 2 (c :: x :: h :: s')) with (h :: s').
        simpl strtol_digits.
        destruct (digit_value h) as [d|]; [|discriminate Hh].
        rewrite Hh.
        destruct (strtol_digits 16 s' (0 * 16 + d)) as [v n]. simpl. lia.
      * specialize (Hdig 8 (or_intror (conj eq_refl eq_refl))).
        rewrite drop_0.
        destruct (strtol_digits 8 (c :: x :: h :: s') 0) as [v n]. simpl in *.
        destruct n; simpl; lia.
    + specialize (Hdig 10 (or_introl (Z.le_refl _))).
      rewrite drop_0.
      destruct (strtol_digits 10 (c :: x :: h :: s') 0) as [v n]. simpl in *.
      destruct n; simpl; lia.
Qed.

Lemma cache_only_refl s : cache_only s s.
Proof.
  split; [reflexivity|]. split; [reflexivity|]. split; [|auto].
  exists (system_properties (st_cfg s)). destruct s as [[] w d]. reflexivity.
Qed.

Lemma cache_only_trans s s1 s2 :
  cache_only s s1 -> cache_only s1 s2 -> cache_only s s2.
Proof.
  intros (a1 & a2 & (f1 & a3) & a4) (b1 & b2 & (f2 & b3) & b4).
  split; [congruence|]. split; [congruence|]. split.
  - exists f2. rewrite b3, a3. reflexivity.
  - intros p. destruct (a4 p) as [ag ai], (b4 p) as [bg bi].
    split; [congruence|].
    destruct bi as [bi|bi]; [|right; exact bi].
    rewrite bi. exact ai.
Qed.

Lemma cache_only_override p v s :
  cache_only s (override_system_property p v s).2.
Proof.
  unfold override_system_property. rewrite run_bind.
  cbn [fst snd get_cfg modify_cfg st_cfg st_world debugging_enabled
       system_properties set_system_properties].
  split; [reflexivity|]. split; [reflexivity|].
  split; [eexists; reflexivity|]. intros p0.
  cbn [st_cfg system_properties set_system_properties]. split.
  - destruct (decide (p = p0)) as [<-|Hne].
    + rewrite fn_lookup_insert. reflexivity.
    + rewrite fn_lookup_insert_ne by exact Hne. reflexivity.
  - destruct (decide (p = p0)) as [<-|Hne].
    + right. rewrite fn_lookup_insert. reflexivity.
    + left. rewrite fn_lookup_insert_ne by exact Hne. reflexivity.
Qed.

Lemma override_loop_cache_only fuel s pos i wait_comma st :
  cache_only st (override_loop fuel s pos i wait_comma st).2.
Proof.
  revert pos i wait_comma st.
  induction fuel as [|fuel IH]; intros pos i wait_comma st; simpl;
    [apply cache_only_refl|].
  destruct (s !! pos) as [c|]; [|apply cache_only_refl].
  destruct (Byte.eqb c Byte.x00); [apply cache_only_refl|].
  destruct (negb (isascii c) || negb (isdigit c || Byte.eqb c Byte.x2d));
    [apply IH|].
  destruct (all_system_properties !! _) as [p|]; [|apply cache_only_refl].
  destruct (strtol (drop pos s)) as [v n]. rewrite run_bind.
  eapply cache_only_trans; [apply cache_only_override|apply IH].
Qed.

Lemma override_loop_ends fuel s pos i wait_comma st :
  (7 * (length s - pos) + (6 - i) < fuel)%nat ->
  (override_loop fuel s pos i wait_comma st).1 = true.
Proof.
  revert pos i wait_comma st.
  induction fuel as [|fuel IH]; intros pos i wait_comma st Hf; [lia|].
  simpl.
  destruct (s !! pos) as [c|] eqn:Hc; [|reflexivity].
  apply lookup_lt_Some in Hc as Hpos.
  destruct (Byte.eqb c Byte.x00); [reflexivity|].
  destruct (negb (isascii c) || negb (isdigit c || Byte.eqb c Byte.x2d))
    eqn:Htest.
  - apply IH. destruct (Byte.eqb c Byte.x2c && negb wait_comma); lia.
  - set (i' := if Byte.eqb c Byte.x2c && negb wait_comma then S i else i).
    assert (Hi' : (i <= i')%nat)
      by (unfold i'; destruct (_ && _); lia).
    destruct (all_system_properties !! i') as [p|] eqn:Hp; [|reflexivity].
    apply lookup_lt_Some in Hp. simpl in Hp.
    pose proof (strtol_le (drop pos s)) as Hle. rewrite length_drop in Hle.
    assert (Hn : isdigit c = true -> (1 <= (strtol (drop pos s)).2)%nat).
    { intros Hd. rewrite (drop_S _ _ _ Hc). apply strtol_at_digit. exact Hd. }
    destruct (strtol (drop pos s)) as [v n]. simpl in Hle, Hn.
    rewrite run_bind. apply IH.
    destruct (isdigit c) eqn:Hd.
    + specialize (Hn eq_refl). lia.
    + lia.
Qed.

(** X16: [override_properties_from_list] always comes to an end, also on a
    minus sign that no number follows (which leaves the pointer where it
    is: the field counter, bounded by SYS_PROP_MAX, is what ends the loop
    then).  It changes nothing but the property cache, never runs a
    getter, and leaves every entry either as it was or initialized. *)
Theorem override_properties_from_list_ends (override_list : list byte)
    (s : state) :
  let run := override_properties_from_list override_list s in
  run.1 = true /\ cache_only s run.2.
Proof.
  unfold override_properties_from_list. split.
  - apply override_loop_ends. lia.
  - apply override_loop_cache_only.
Qed.

(** *** Lists of decimal numbers *)

Lemma strtol_digits_decimal (digits rest : list byte) (acc : Z) :
  Forall (fun c => isdigit c = true) digits ->
  (rest = [] \/ exists c r, rest = c :: r /\ digit_value c = None) ->
  strtol_digits 10 (digits ++ rest) acc =
    (fold_left (fun acc c => acc * 10 + (Mem.byte_val c - 48)) digits acc,
     length digits).
Proof.
  intros Hd Hrest. revert acc.
  induction Hd as [|c digits Hc _ IH]; intros acc; simpl.
  - destruct Hrest as [->|(c & r & -> & Hc)]; simpl; [reflexivity|].
    rewrite Hc. reflexivity.
  - destruct (isdigit_value c Hc) as (Hv & Hr & _).
    rewrite Hv. destruct (Z.ltb_spec (Mem.byte_val c - 48) 10) as [_|N]; [|lia].
    rewrite IH. reflexivity.
Qed.

(** What [strtol] makes of a signed numeral that ends the text or is
    followed by a character that is neither a digit nor a letter. *)
Lemma strtol_numeral (f : bool * list byte) (rest : list byte) :
  numeral f.2 ->
  LONG_MIN <= field_value f <= LONG_MAX ->
  (rest = [] \/ exists c r, rest = c :: r /\ digit_value c = None) ->
  strtol (field_text f ++ rest) = (field_value f, length (field_text f)).
Proof.
  destruct f as [neg digits]. unfold field_text, field_value. cbn [fst snd].
  intros (Hne & Hd & Hzero) Hrange Hrest.
  destruct digits as [|c0 ds]; [contradiction Hne; reflexivity|].
  inversion Hd as [|? ? Hc0 Hds]; subst.
  destruct (isdigit_value c0 Hc0) as (Hv0 & Hr0 & Hsp0 & Hm0 & Hp0).
  assert (Hdigits : forall base pre,
            (base, pre) =
              match (c0 :: ds) ++ rest with
              | c0 :: x :: h :: _ =>
                  if Byte.eqb c0 Byte.x30 then
                    if (Byte.eqb x Byte.x78 || Byte.eqb x Byte.x58) &&
                       match digit_value h with
                       | Some d => d <? 16
                       | None => false
                       end
                    then (16, 2%nat)
                    else (8, O)
                  else (10, O)
              | c0 :: _ => if Byte.eqb c0 Byte.x30 then (8, O) else (10, O)
              | [] => (10, O)
              end ->
            pre = O /\
            strtol_digits base ((c0 :: ds) ++ rest) 0 =
              (decimal_value (c0 :: ds), S (length ds))).
  { intros base pre Hbp.
    destruct (Byte.eqb c0 Byte.x30) eqn:Hz.
    - apply Byte.byte_dec_bl in Hz. subst c0.
      rewrite (Hzero ds eq_refl) in *. simpl app in *.
      assert (Hb : base = 8 /\ pre = O).
      { destruct rest as [|x [|h r]]; simpl in Hbp; try (injection Hbp; auto).
        destruct Hrest as [N|(c & r' & [= <- <-] & Hx)]; [discriminate|].
        destruct (Byte.eqb x Byte.x78) eqn:E1.
        { apply Byte.byte_dec_bl in E1. subst x. vm_compute in Hx. discriminate. }
        destruct (Byte.eqb x Byte.x58) eqn:E2.
        { apply Byte.byte_dec_bl in E2. subst x. vm_compute in Hx. discriminate. }
        simpl in Hbp. injection Hbp; auto. }
      destruct Hb as [-> ->]. split; [reflexivity|].
      simpl.
      destruct Hrest as [->|(c & r & -> & Hc)]; simpl; [reflexivity|].
      rewrite Hc. reflexivity.
    - assert (Hb : base = 10 /\ pre = O).
      { simpl in Hbp. destruct (ds ++ rest) as [|x [|h r]];
          rewrite ?Hz in Hbp; injection Hbp; auto. }
      destruct Hb as [-> ->]. split; [reflexivity|].
      rewrite (strtol_digits_decimal (c0 :: ds) rest 0 Hd Hrest).
      reflexivity. }
  unfold strtol. cbv zeta.
  destruct neg.
  - change (([Byte.x2d] ++ c0 :: ds) ++ rest)
      with (Byte.x2d :: (c0 :: ds) ++ rest).
    change (skip_space (Byte.x2d :: (c0 :: ds) ++ rest)) with O.
    rewrite drop_0.
    change (Byte.eqb Byte.x2d Byte.x2d) with true. cbv iota beta.
    change (drop 1 (Byte.x2d :: (c0 :: ds) ++ rest)) with ((c0 :: ds) ++ rest).
    match goal with
    | |- context [let '(base, pre) := ?b in _] =>
        destruct b as [base pre] eqn:Hb
    end.
    first [destruct (Hdigits base pre eq_refl) as [-> Hval]
          |destruct (Hdigits base pre (eq_sym Hb)) as [-> Hval]].
    rewrite drop_0, Hval.
    unfold LONG_MIN, LONG_MAX in *. simpl length.
    f_equal; lia.
  - change (([] ++ c0 :: ds) ++ rest) with ((c0 :: ds) ++ rest).
    simpl skip_space. rewrite Hsp0, drop_0.
    cbn [app]. rewrite Hm0, Hp0, drop_0.
    match goal with
    | |- context [let '(base, pre) := ?b in _] =>
        destruct b as [base pre] eqn:Hb
    end.
    first [destruct (Hdigits base pre eq_refl) as [-> Hval]
          |destruct (Hdigits base pre (eq_sym Hb)) as [-> Hval]].
    rewrite drop_0. simpl app in Hval. rewrite Hval.
    unfold LONG_MIN, LONG_MAX in *. simpl length.
    f_equal; lia.
Qed.

Lemma override_loop_end fuel s pos i wait_comma st :
  s !! pos = None ->
  override_loop (S fuel) s pos i wait_comma st = (true, st).
Proof. intros H. simpl. rewrite H. reflexivity. Qed.

Lemma override_loop_skip fuel s pos i wait_comma c st :
  s !! pos = Some c ->
  Byte.eqb c Byte.x00 = false ->
  negb (isascii c) || negb (isdigit c || Byte.eqb c Byte.x2d) = true ->
  override_loop (S fuel) s pos i wait_comma st =
    override_loop fuel s (S pos)
      (if Byte.eqb c Byte.x2c && negb wait_comma then S i else i)
      (if Byte.eqb c Byte.x2c then false else wait_comma) st.
Proof. intros H H0 Ht. simpl. rewrite H, H0, Ht. reflexivity. Qed.

Lemma override_loop_number fuel s pos i wait_comma c p st :
  s !! pos = Some c ->
  Byte.eqb c Byte.x00 = false ->
  Byte.eqb c Byte.x2c = false ->
  negb (isascii c) || negb (isdigit c || Byte.eqb c Byte.x2d) = false ->
  all_system_properties !! i = Some p ->
  override_loop (S fuel) s pos i wait_comma st =
    override_loop fuel s (pos + (strtol (drop pos s)).2) (S i) true
      (override_system_property p (CInt.to_int (strtol (drop pos s)).1) st).2.
Proof.
  intros H H0 Hc Ht Hp. simpl. rewrite H, H0, Ht, Hc. cbn [andb].
  rewrite Hp. destruct (strtol (drop pos s)) as [v n].
  rewrite run_bind. reflexivity.
Qed.

Lemma field_text_head (f : bool * list byte) :
  numeral f.2 ->
  exists c r, field_text f = c :: r /\
    Byte.eqb c Byte.x00 = false /\ Byte.eqb c Byte.x2c = false /\
    negb (isascii c) || negb (isdigit c || Byte.eqb c Byte.x2d) = false.
Proof.
  destruct f as [neg digits]. unfold field_text. cbn [fst snd].
  intros (Hne & Hd & _).
  destruct neg.
  - exists Byte.x2d, digits. repeat split; reflexivity.
  - destruct digits as [|c ds]; [contradiction Hne; reflexivity|].
    exists c, ds. inversion Hd as [|? ? Hc _]; subst.
    split; [reflexivity|].
    destruct c; try discriminate Hc; repeat split; reflexivity.
Qed.

Lemma separator_facts (sep : byte) :
  sep = Byte.x2c \/ sep = Byte.x20 ->
  Byte.eqb sep Byte.x00 = false /\ digit_value sep = None /\
  negb (isascii sep) || negb (isdigit sep || Byte.eqb sep Byte.x2d) = true.
Proof. intros [->| ->]; repeat split; reflexivity. Qed.

Lemma all_system_properties_NoDup : NoDup all_system_properties.
Proof.
  apply NoDup_ListNoDup. unfold all_system_properties.
  repeat constructor; simpl; intuition discriminate.
Qed.

Lemma override_loop_fields (sep : byte) (fs : list (bool * list byte)) :
  sep = Byte.x2c \/ sep = Byte.x20 ->
  forall pre k wait_comma st fuel,
  Forall (fun f => numeral f.2 /\ CInt.int_range (field_value f)) fs ->
  (k + length fs <= 6)%nat -> (2 * length fs + 1 <= fuel)%nat ->
  let run := override_loop fuel (pre ++ join sep (map field_text fs))
               (length pre) k wait_comma st in
  run.1 = true /\
  forall j p, all_system_properties !! j = Some p ->
    system_properties (st_cfg run.2) p =
      match (if (j <? k)%nat then None else fs !! (j - k)%nat) with
      | Some f => {| getter := getter (system_properties (st_cfg st) p);
                     value := field_value f; initialized := 1 |}
      | None => system_properties (st_cfg st) p
      end.
Proof.
  intros Hsep. destruct (separator_facts sep Hsep) as (Hs0 & Hsd & Hst).
  induction fs as [|f fs IH]; intros pre k wait_comma st fuel Hfs Hk Hfuel run.
  - subst run. simpl in Hfuel. destruct fuel as [|fuel]; [lia|].
    rewrite override_loop_end
      by (apply lookup_ge_None; simpl; rewrite app_nil_r; lia).
    split; [reflexivity|]. intros j p _. cbn [snd].
    destruct (j <? k)%nat; [reflexivity|]. rewrite lookup_nil. reflexivity.
  - inversion Hfs as [|? ? [Hnum Hrange] Hfs']; subst.
    simpl in Hk, Hfuel.
    destruct fuel as [|fuel]; [lia|].
    destruct (lookup_lt_is_Some_2 all_system_properties k) as [pk Hpk];
      [simpl; lia|].
    set (st1 := (override_system_property pk (field_value f) st).2).
    assert (Hstep : exists fuel1 pre1 w1,
               (2 * length fs + 1 <= fuel1)%nat /\
               run = override_loop fuel1
                       (pre1 ++ join sep (map field_text fs))
                       (length pre1) (S k) w1 st1).
    { subst run.
      destruct (field_text_head f Hnum) as (c & r & Hhead & Hc0 & Hcc & Hct).
      set (tail := match map field_text fs with
                   | [] => []
                   | _ => sep :: join sep (map field_text fs)
                   end).
      assert (Htext : join sep (map field_text (f :: fs)) =
                        field_text f ++ tail).
      { simpl. unfold tail. destruct (map field_text fs);
          [rewrite app_nil_r|]; reflexivity. }
      rewrite Htext.
      assert (Hstr : strtol (drop (length pre) (pre ++ field_text f ++ tail)) =
                       (field_value f, length (field_text f))).
      { rewrite drop_app_length. apply strtol_numeral; [exact Hnum| |].
        - unfold CInt.int_range in Hrange. unfold LONG_MIN, LONG_MAX. lia.
        - unfold tail. destruct (map field_text fs); [left; reflexivity|].
          right. eexists _, _. split; [reflexivity|exact Hsd]. }
      rewrite (override_loop_number fuel _ (length pre) k wait_comma c pk st);
        [|rewrite lookup_app_r, Nat.sub_diag, Hhead by lia; reflexivity
         |exact Hc0|exact Hcc|exact Hct|exact Hpk].
      rewrite Hstr. cbn [fst snd].
      rewrite CIntFacts.to_int_id by exact Hrange. fold st1.
      destruct fs as [|f2 fs'].
      - exists fuel, (pre ++ field_text f), true.
        split; [simpl; lia|].
        unfold tail. simpl. rewrite !app_nil_r, length_app. reflexivity.
      - simpl in Hfuel. destruct fuel as [|fuel]; [lia|].
        exists fuel, (pre ++ field_text f ++ [sep]),
          (if Byte.eqb sep Byte.x2c then false else true).
        split; [simpl; lia|].
        rewrite (override_loop_skip fuel _ _ (S k) true sep st1);
          [|unfold tail; simpl map; cbv iota;
            rewrite app_assoc, lookup_app_r by (rewrite length_app; lia);
            rewrite length_app, Nat.sub_diag; reflexivity
           |exact Hs0|exact Hst].
        rewrite andb_false_r.
        unfold tail. simpl map. cbv iota.
        rewrite !length_app. simpl length.
        replace (S (length pre + length (field_text f)))
          with (length pre + (length (field_text f) + 1))%nat by lia.
        f_equal. rewrite <- !app_assoc. reflexivity. }
    destruct Hstep as (fuel1 & pre1 & w1 & Hfuel1 & ->).
    destruct (IH pre1 (S k) w1 st1 fuel1 Hfs' ltac:(lia) Hfuel1) as [Hend Hprops].
    split; [exact Hend|]. intros j p Hp. rewrite (Hprops j p Hp).
    assert (Hst1 : forall q, q <> pk ->
              system_properties (st_cfg st1) q = system_properties (st_cfg st) q).
    { intros q Hq. unfold st1, override_system_property. rewrite run_bind.
      cbn [fst snd get_cfg modify_cfg st_cfg system_properties
           set_system_properties].
      rewrite fn_lookup_insert_ne by congruence. reflexivity. }
    assert (Hpk1 : system_properties (st_cfg st1) pk =
              {| getter := getter (system_properties (st_cfg st) pk);
                 value := field_value f; initialized := 1 |}).
    { unfold st1, override_system_property. rewrite run_bind.
      cbn [fst snd get_cfg modify_cfg st_cfg system_properties
           set_system_properties].
      rewrite fn_lookup_insert. reflexivity. }
    assert (Hne : j <> k -> p <> pk).
    { intros Hjk ->. apply Hjk.
      exact (NoDup_lookup _ _ _ _ all_system_properties_NoDup Hp Hpk). }
    destruct (Nat.ltb_spec j k) as [Hlt|Hge].
    + destruct (Nat.ltb_spec j (S k)) as [_|N]; [|lia].
      apply Hst1, Hne. lia.
    + destruct (Nat.ltb_spec j (S k)) as [Hjk|Hgt].
      * assert (j = k) by lia. subst j.
        rewrite Nat.sub_diag. simpl.
        assert (p = pk) by congruence. subst p. exact Hpk1.
      * rewrite (Hst1 p) by (apply Hne; lia).
        replace (j - k)%nat with (S (j - S k)) by lia. reflexivity.
Qed.

(** X17: A list of at most six decimal numbers, each within the range of an
    int, separated by a comma each or by a space each, overrides the first
    properties in their order with the numbers of the list, and leaves
    the getters and the other properties as they are. *)
Theorem override_properties_from_decimal_list (sep : byte)
    (fields : list (bool * list byte)) (s : state) :
  sep = Byte.x2c \/ sep = Byte.x20 ->
  (length fields <= 6)%nat ->
  Forall (fun f => numeral f.2 /\ CInt.int_range (field_value f)) fields ->
  let run :=
    override_properties_from_list (join sep (map field_text fields)) s in
  forall k p, all_system_properties !! k = Some p ->
    system_properties (st_cfg run.2) p =
      match fields !! k with
      | Some f => {| getter := getter (system_properties (st_cfg s) p);
                     value := field_value f; initialized := 1 |}
      | None => system_properties (st_cfg s) p
      end.
Proof.
  intros Hsep Hlen Hfs run k p Hp. subst run.
  unfold override_properties_from_list.
  assert (Hlenj : (length fields <=
                   length (join sep (map field_text fields)))%nat).
  { clear Hlen. induction Hfs as [|f fs [Hnum _] _ IH]; [simpl; lia|].
    destruct (field_text_head f Hnum) as (c & r & Hhead & _).
    simpl. rewrite Hhead. destruct (map field_text fs) eqn:E.
    - destruct fs; [simpl; lia|discriminate].
    - simpl in *. rewrite length_app. simpl. lia. }
  destruct (override_loop_fields sep fields Hsep [] 0%nat false s
              (7 * (length (join sep (map field_text fields)) + 1))%nat
              Hfs ltac:(lia) ltac:(lia)) as [_ Hprops].
  simpl app in Hprops. simpl length in Hprops.
  rewrite (Hprops k p Hp). simpl. rewrite Nat.sub_0_r. reflexivity.
Qed.

(** The list "1,-2,30" on the test board: the second property, the
    firmware version of the TPM, becomes -2. *)
Lemma override_properties_from_decimal_list_witness :
  let s := Board.start
             (Board.config Board.candidate Board.current
                (Board.overridden 0 65537 1 0 0) 0 0 0 None)
             Board.world_emu in
  let fields := [(false, [Byte.x31]); (true, [Byte.x32]);
                 (false, [Byte.x33; Byte.x30])] in
  let run :=
    override_properties_from_list (join Byte.x2c (map field_text fields)) s in
  join Byte.x2c (map field_text fields) = list_byte_of_string "1,-2,30" /\
  value (system_properties (st_cfg run.2) SYS_PROP_TPM_FWVER) = -2.
Proof.
  intros s fields run. split; [reflexivity|].
  unfold run.
  rewrite (override_properties_from_decimal_list Byte.x2c fields s
             (or_introl eq_refl))
    with (k := 1%nat) (p := SYS_PROP_TPM_FWVER).
  - reflexivity.
  - simpl. lia.
  - unfold fields.
    repeat (apply Forall_cons; split;
            [split;
             [split; [discriminate|];
              split; [repeat constructor|intros rest H; inversion H]
             |unfold CInt.int_range; vm_compute; split; [discriminate|reflexivity]]
            |]).
    apply Forall_nil. exact I.
  - reflexivity.
Defined.

(** ** The list of quirks *)

Lemma quirks_only_refl s : quirks_only s s.
Proof.
  split; [reflexivity|]. split; [reflexivity|].
  split; [|intros q; split; reflexivity].
  exists (quirks (st_cfg s)). destruct s as [[] ? ?]. reflexivity.
Qed.

Lemma quirks_only_trans s1 s2 s3 :
  quirks_only s1 s2 -> quirks_only s2 s3 -> quirks_only s1 s3.
Proof.
  intros (W1 & D1 & [f1 C1] & N1) (W2 & D2 & [f2 C2] & N2).
  split; [congruence|]. split; [congruence|]. split.
  - exists f2. rewrite C2, C1. reflexivity.
  - intros q. destruct (N1 q), (N2 q). split; congruence.
Qed.

Lemma strtok_skip_length s : (length (strtok_skip s) <= length s)%nat.
Proof.
  induction s as [|c s IH]; simpl; [lia|].
  destruct (is_delimiter c); simpl; lia.
Qed.

Lemma strtok_token_length s :
  (length (strtok_token s).2 <= Nat.pred (length s))%nat.
Proof.
  induction s as [|c s IH]; simpl; [lia|].
  destruct (is_delimiter c); simpl; [lia|].
  destruct (strtok_token s) as [token next]. simpl in *. lia.
Qed.

Lemma strtok_shorter s token next :
  strtok s = Some (token, next) -> (length next < length s)%nat.
Proof.
  unfold strtok. intros H.
  pose proof (strtok_skip_length s) as Hs.
  pose proof (strtok_token_length (strtok_skip s)) as Ht.
  destruct (strtok_skip s) as [|c s1] eqn:E; [discriminate|].
  injection H as H. change (strtok_token (c :: s1) = (token, next)) in H.
  rewrite H in Ht. simpl in *. lia.
Qed.

Lemma setup_config_quirks_loop_S fuel buf r :
  setup_config_quirks_loop (S fuel) buf r =
    match strtok buf with
    | None => mret (Some r)
    | Some (token, next) =>
        let '(name, v) :=
          match strchr_equ token with
          | Some equ =>
              (take equ token,
               CInt.to_int (strtol (drop (S equ) token)).1)
          | None => (token, 1)
          end in
        c ← get_cfg;
        match find_quirk_entry name all_quirks c with
        | Some q =>
            let entry := quirks c q in
            modify_cfg (set_quirks
              (<[q := {| quirk_name := quirk_name entry;
                         quirk_help := quirk_help entry;
                         quirk_value := v |}]> (quirks c)));;
            setup_config_quirks_loop fuel next r
        | None => setup_config_quirks_loop fuel next (r + 1)
        end
    end.
Proof. reflexivity. Qed.

Lemma setup_config_quirks_loop_ends fuel buf r st :
  (length buf < fuel)%nat ->
  let run := setup_config_quirks_loop fuel buf r st in
  (exists r', run.1 = Some r' /\ r <= r' <= r + Z.of_nat (length buf)) /\
  quirks_only st run.2.
Proof.
  revert buf r st.
  induction fuel as [|fuel IH]; intros buf r st Hf; [lia|].
  rewrite setup_config_quirks_loop_S.
  destruct (strtok buf) as [[token next]|] eqn:Htok.
  - apply strtok_shorter in Htok.
    destruct (match strchr_equ token with
              | Some equ =>
                  (take equ token,
                   CInt.to_int (strtol (drop (S equ) token)).1)
              | None => (token, 1)
              end) as [name v].
    rewrite run_bind. cbn [get_cfg fst snd].
    destruct (find_quirk_entry name all_quirks (st_cfg st)) as [q|].
    + rewrite run_bind.
      match goal with
      | |- context [setup_config_quirks_loop fuel next r ?st1] =>
          destruct (IH next r st1 ltac:(lia)) as [(r' & Hr & Hb) Hq]
      end.
      split; [exists r'; split; [exact Hr|lia]|].
      eapply quirks_only_trans; [|exact Hq].
      cbn [modify_cfg snd st_cfg st_world debugging_enabled].
      split; [reflexivity|]. split; [reflexivity|].
      split; [eexists; reflexivity|]. intros q0.
      cbn [quirks set_quirks st_cfg].
      destruct (decide (q = q0)) as [<-|Hne].
      * rewrite fn_lookup_insert. split; reflexivity.
      * rewrite fn_lookup_insert_ne by exact Hne. split; reflexivity.
    + destruct (IH next (r + 1) st ltac:(lia)) as [(r' & Hr & Hb) Hq].
      split; [exists r'; split; [exact Hr|lia]|exact Hq].
  - split; [|apply quirks_only_refl].
    exists r. split; [reflexivity|lia].
Qed.

(** X18: [setup_config_quirks] comes to an end on every list and returns a
    number between 0 and the length of the list.  It changes nothing but
    the values of the quirk table: the names and descriptions of the
    quirks, the rest of the configuration and the world are as before. *)
Theorem setup_config_quirks_ends (quirk_list : list byte) (s : state) :
  let run := setup_config_quirks quirk_list s in
  (exists r, run.1 = Some r /\ 0 <= r <= Z.of_nat (length quirk_list)) /\
  quirks_only s run.2.
Proof.
  unfold setup_config_quirks. cbv zeta.
  destruct (setup_config_quirks_loop_ends
              (length (take (Mem.strlen quirk_list) quirk_list) + 1)
              (take (Mem.strlen quirk_list) quirk_list) 0 s ltac:(lia))
    as [(r & Hr & Hb) Hq].
  split; [|exact Hq]. exists r. split; [exact Hr|].
  rewrite length_take in Hb. lia.
Qed.

(** *** Lists of settings *)

Lemma strlen_no_nul (s : list byte) :
  Forall (fun c => c <> Byte.x00) s -> Mem.strlen s = length s.
Proof.
  induction 1 as [|c s Hc _ IH]; simpl; [reflexivity|].
  destruct (Byte.eqb c Byte.x00) eqn:E.
  - apply Byte.byte_dec_bl in E. contradiction.
  - rewrite IH. reflexivity.
Qed.

Lemma isdigit_plain (c : byte) :
  isdigit c = true ->
  c <> Byte.x00 /\ is_delimiter c = false /\ c <> Byte.x3d.
Proof.
  intros H. destruct c; try discriminate H;
    (split; [discriminate|split; [reflexivity|discriminate]]).
Qed.

(** The text of a setting is not empty and holds neither NUL nor a
    delimiter. *)
Lemma setting_text_plain x :
  setting_ok x ->
  setting_text x <> [] /\
  Forall (fun c => c <> Byte.x00 /\ is_delimiter c = false) (setting_text x).
Proof.
  destruct x as [name v]. unfold setting_ok, setting_text. cbn [fst snd].
  intros [[Hne Hname] Hv]. split.
  - destruct name; [contradiction Hne; reflexivity|discriminate].
  - apply Forall_app. split.
    + eapply Forall_impl; [exact Hname|]. intros c (H1 & H2 & _). auto.
    + destruct v as [[neg digits]|]; [|constructor].
      destruct Hv as [(_ & Hd & _) _]. cbn [snd] in Hd.
      constructor; [split; [discriminate|reflexivity]|].
      unfold field_text. cbn [fst snd]. apply Forall_app. split.
      * destruct neg; repeat constructor. discriminate.
      * eapply Forall_impl; [exact Hd|]. intros c Hc.
        destruct (isdigit_plain c Hc) as (H1 & H2 & _). auto.
Qed.

Lemma join_cons (sep : byte) (t : list byte) (ts : list (list byte)) :
  join sep (t :: ts) =
    t ++ match ts with [] => [] | _ => sep :: join sep ts end.
Proof. destruct ts; simpl; [rewrite app_nil_r|]; reflexivity. Qed.

Lemma join_plain (sep : byte) (P : byte -> Prop) (ts : list (list byte)) :
  P sep -> Forall (Forall P) ts -> Forall P (join sep ts).
Proof.
  intros Hsep. induction 1 as [|t ts Ht _ IH]; [constructor|].
  rewrite join_cons. apply Forall_app. split; [exact Ht|].
  destruct ts; [constructor|]. constructor; assumption.
Qed.

Lemma join_length (sep : byte) (ts : list (list byte)) :
  Forall (fun t => t <> []) ts -> (length ts <= length (join sep ts))%nat.
Proof.
  induction 1 as [|t ts Ht _ IH]; [simpl; lia|].
  rewrite join_cons, length_app.
  destruct t; [contradiction Ht; reflexivity|].
  destruct ts; simpl in *; lia.
Qed.

Lemma strtok_token_app (t tail : list byte) :
  Forall (fun c => is_delimiter c = false) t ->
  strtok_token (t ++ tail) =
    (t ++ (strtok_token tail).1, (strtok_token tail).2).
Proof.
  induction 1 as [|c t Hc _ IH]; simpl.
  - destruct (strtok_token tail). reflexivity.
  - rewrite Hc, IH. reflexivity.
Qed.

(** [strtok] on a list of settings gives the first setting and goes on
    with the others. *)
Lemma strtok_join (sep : byte) x xs :
  is_delimiter sep = true ->
  setting_ok x ->
  strtok (join sep (map setting_text (x :: xs))) =
    Some (setting_text x, join sep (map setting_text xs)).
Proof.
  intros Hsep Hx. destruct (setting_text_plain x Hx) as [Hne Hplain].
  cbn [map]. rewrite join_cons. unfold strtok.
  destruct (setting_text x) as [|c t] eqn:E; [contradiction Hne; reflexivity|].
  inversion Hplain as [|? ? [_ Hc] Ht]; subst.
  cbn [app strtok_skip]. rewrite Hc. rewrite app_comm_cons.
  rewrite strtok_token_app
    by (constructor; [exact Hc|];
        eapply Forall_impl; [exact Ht|]; intros ? [_ ?]; assumption).
  destruct (map setting_text xs) as [|t2 ts].
  - simpl. rewrite app_nil_r. reflexivity.
  - cbn [strtok_token]. rewrite Hsep. cbn [fst snd].
    rewrite app_nil_r. reflexivity.
Qed.

Lemma strchr_equ_app (name rest : list byte) :
  Forall (fun c => c <> Byte.x3d) name ->
  strchr_equ (name ++ rest) =
    (fun k => (length name + k)%nat) <$> strchr_equ rest.
Proof.
  induction 1 as [|c name Hc _ IH]; simpl.
  - destruct (strchr_equ rest); reflexivity.
  - destruct (Byte.eqb c Byte.x3d) eqn:E.
    + apply Byte.byte_dec_bl in E. contradiction.
    + rewrite IH. destruct (strchr_equ rest); reflexivity.
Qed.

Lemma strchr_equ_digits (digits : list byte) :
  Forall (fun c => isdigit c = true) digits -> strchr_equ digits = None.
Proof.
  induction 1 as [|c digits Hc _ IH]; simpl; [reflexivity|].
  destruct (isdigit_plain c Hc) as (_ & _ & H3).
  destruct (Byte.eqb c Byte.x3d) eqn:E.
  - apply Byte.byte_dec_bl in E. contradiction.
  - rewrite IH. reflexivity.
Qed.

(** The name and the value the loop reads from the text of a setting. *)
Lemma setting_parts x :
  setting_ok x ->
  match strchr_equ (setting_text x) with
  | Some equ =>
      (take equ (setting_text x),
       CInt.to_int (strtol (drop (S equ) (setting_text x))).1)
  | None => (setting_text x, 1)
  end = (x.1, setting_value x).
Proof.
  destruct x as [name v]. unfold setting_ok, setting_text, setting_value.
  cbn [fst snd]. intros [[_ Hname] Hv].
  rewrite strchr_equ_app
    by (eapply Forall_impl; [exact Hname|]; intros ? (_ & _ & ?); assumption).
  destruct v as [f|].
  - cbn [strchr_equ]. change (Byte.eqb Byte.x3d Byte.x3d) with true.
    cbn [fmap option_fmap option_map]. rewrite Nat.add_0_r.
    rewrite take_app_length.
    change (name ++ Byte.x3d :: field_text f)
      with (name ++ [Byte.x3d] ++ field_text f).
    rewrite app_assoc.
    replace (S (length name)) with (length (name ++ [Byte.x3d]))
      by (rewrite length_app; simpl; lia).
    rewrite drop_app_length.
    destruct Hv as [Hnum Hrange].
    pose proof (strtol_numeral f [] Hnum) as Hs. rewrite app_nil_r in Hs.
    rewrite Hs;
      [|unfold CInt.int_range in Hrange; unfold LONG_MIN, LONG_MAX; lia
       |left; reflexivity].
    cbn [fst]. rewrite CIntFacts.to_int_id by exact Hrange. reflexivity.
  - simpl. rewrite app_nil_r. reflexivity.
Qed.

Lemma find_quirk_entry_names name entries c1 c2 :
  (forall q, quirk_name (quirks c1 q) = quirk_name (quirks c2 q)) ->
  find_quirk_entry name entries c1 = find_quirk_entry name entries c2.
Proof.
  intros H. induction entries as [|q entries IH]; simpl; [reflexivity|].
  rewrite H, IH. reflexivity.
Qed.

Lemma setup_config_quirks_loop_settings (sep : byte) (c : updater_config)
    (settings : list (list byte * option (bool * list byte))) :
  is_delimiter sep = true ->
  forall st r fuel,
  Forall setting_ok settings ->
  (length settings < fuel)%nat ->
  (forall q, quirk_name (quirks (st_cfg st) q) = quirk_name (quirks c q)) ->
  let run := setup_config_quirks_loop fuel
               (join sep (map setting_text settings)) r st in
  run.1 = Some (r + Z.of_nat (length (unknown_settings c settings))) /\
  forall q, quirk_value (quirks (st_cfg run.2) q) =
              quirk_setting c settings q (quirk_value (quirks (st_cfg st) q)).
Proof.
  intros Hsep.
  induction settings as [|x xs IH]; intros st r fuel Hok Hfuel Hnames run;
    subst run; (destruct fuel as [|fuel]; [simpl in Hfuel; lia|]);
    rewrite setup_config_quirks_loop_S.
  - simpl. split; [f_equal; lia|]. intros q. reflexivity.
  - inversion Hok as [|? ? Hx Hxs]; subst.
    rewrite (strtok_join sep x xs Hsep Hx).
    rewrite (setting_parts x Hx).
    rewrite run_bind. cbn [get_cfg fst snd].
    rewrite (find_quirk_entry_names _ _ _ c Hnames).
    unfold unknown_settings, quirk_setting. cbn [fold_left].
    destruct (find_quirk_entry x.1 all_quirks c) as [q0|] eqn:Hfind.
    + rewrite run_bind.
      rewrite filter_cons_False by (rewrite Hfind; discriminate).
      match goal with
      | |- context [setup_config_quirks_loop fuel _ r ?st1] =>
          destruct (IH st1 r fuel Hxs ltac:(simpl in Hfuel; lia)) as [Hr Hv]
      end.
      { intros q. rewrite <- Hnames.
        cbn [modify_cfg snd st_cfg quirks set_quirks].
        destruct (decide (q0 = q)) as [<-|Hne].
        - rewrite fn_lookup_insert. reflexivity.
        - rewrite fn_lookup_insert_ne by exact Hne. reflexivity. }
      split; [exact Hr|]. intros q. rewrite (Hv q).
      unfold quirk_setting. f_equal.
      cbn [modify_cfg snd st_cfg quirks set_quirks].
      destruct (decide (Some q0 = Some q)) as [[= <-]|Hne].
      * rewrite fn_lookup_insert. reflexivity.
      * rewrite fn_lookup_insert_ne by congruence. reflexivity.
    + rewrite filter_cons_True by exact Hfind.
      destruct (IH st (r + 1) fuel Hxs ltac:(simpl in Hfuel; lia) Hnames)
        as [Hr Hv].
      split.
      * rewrite Hr. f_equal. unfold unknown_settings. rewrite length_cons.
        rewrite Nat2Z.inj_succ. unfold Z.succ. ring.
      * intros q. rewrite (Hv q). reflexivity.
Qed.

(** X19: A list of settings NAME or NAME=VALUE with decimal values, separated
    by a comma each or by a space each: every quirk gets the value of the
    last setting of its name, 1 if the setting gives none, and keeps its
    value if no setting names it.  The result is the number of settings
    whose name is not that of a quirk. *)
Theorem setup_config_quirks_settings (sep : byte)
    (settings : list (list byte * option (bool * list byte))) (s : state) :
  sep = Byte.x2c \/ sep = Byte.x20 ->
  Forall setting_ok settings ->
  let c := st_cfg s in
  let run :=
    setup_config_quirks (join sep (map setting_text settings)) s in
  run.1 = Some (Z.of_nat (length (unknown_settings c settings))) /\
  forall q, quirk_value (quirks (st_cfg run.2) q) =
              quirk_setting c settings q (quirk_value (quirks c q)).
Proof.
  intros Hsep Hok c run. subst run. unfold setup_config_quirks. cbv zeta.
  assert (Hd : is_delimiter sep = true) by (destruct Hsep; subst; reflexivity).
  assert (Hnul : Forall (fun b => b <> Byte.x00)
                   (join sep (map setting_text settings))).
  { apply join_plain; [destruct Hsep; subst; discriminate|].
    apply Forall_map. eapply Forall_impl; [exact Hok|]. intros x Hx.
    destruct (setting_text_plain x Hx) as [_ Hp].
    eapply Forall_impl; [exact Hp|]. intros ? [? _]. assumption. }
  rewrite (strlen_no_nul _ Hnul), firstn_all.
  assert (Hlen : (length settings <=
                  length (join sep (map setting_text settings)))%nat).
  { rewrite <- (length_map setting_text settings) at 1.
    apply join_length, Forall_map.
    eapply Forall_impl; [exact Hok|]. intros x Hx.
    apply (setting_text_plain x Hx). }
  destruct (setup_config_quirks_loop_settings sep c settings Hd s 0
              (length (join sep (map setting_text settings)) + 1)%nat
              Hok ltac:(lia) (fun q => eq_refl)) as [Hr Hv].
  split; [rewrite Hr; f_equal; lia|exact Hv].
Qed.

(** The list "min_platform_version=3,enlarge_image,bogus" on the test
    board with the example table: one name is unknown, the platform
    version becomes 3 and the image is to be enlarged. *)
Lemma setup_config_quirks_settings_witness :
  let s := Board.start
             (set_quirks example_quirks
                (Board.config Board.candidate Board.current
                   (Board.overridden 0 65537 1 0 0) 0 0 0 None))
             Board.world_emu in
  let settings :=
    [(list_byte_of_string "min_platform_version", Some (false, [Byte.x33]));
     (list_byte_of_string "enlarge_image", None);
     (list_byte_of_string "bogus", None)] in
  let run :=
    setup_config_quirks (join Byte.x2c (map setting_text settings)) s in
  join Byte.x2c (map setting_text settings) =
    list_byte_of_string "min_platform_version=3,enlarge_image,bogus" /\
  run.1 = Some 1 /\
  quirk_value (quirks (st_cfg run.2) QUIRK_MIN_PLATFORM_VERSION) = 3 /\
  quirk_value (quirks (st_cfg run.2) QUIRK_ENLARGE_IMAGE) = 1 /\
  quirk_value (quirks (st_cfg run.2) QUIRK_EVE_SMM_STORE) = 0.
Proof.
  intros s settings run. split; [reflexivity|].
  destruct (setup_config_quirks_settings Byte.x2c settings s
              (or_introl eq_refl)) as [Hr Hv].
  - unfold settings.
    repeat (apply Forall_cons; split;
            [split;
             [split;
              [discriminate
              |repeat (apply Forall_cons; split;
                       [split; [discriminate
                               |split; [reflexivity|discriminate]]|]);
               apply Forall_nil; exact I]
             |]
            |]);
      [split;
       [split; [discriminate|];
        split; [repeat constructor|intros rest H; inversion H]
       |unfold CInt.int_range; vm_compute;
        split; [discriminate|reflexivity]]
      |exact I|exact I|apply Forall_nil; exact I].
  - fold run in Hr, Hv. split; [rewrite Hr; reflexivity|].
    rewrite !Hv. repeat split; reflexivity.
Defined.

(** ** The management engine *)

Lemma section_is_filled_with_all (bytes : list byte) (size : nat) (c : byte) :
  (0 < size)%nat ->
  (forall i, (i < size)%nat -> bytes !! i = Some c) ->
  section_is_filled_with bytes size c = true.
Proof.
  intros Hsize Hall. unfold section_is_filled_with.
  destruct (Nat.eqb_spec size 0) as [->|_]; [lia|].
  apply forallb_forall. intros b Hb.
  apply list_elem_of_In, list_elem_of_lookup in Hb as [i Hi].
  pose proof (lookup_lt_Some _ _ _ Hi) as Hlt.
  rewrite length_take in Hlt.
  rewrite lookup_take_lt in Hi by lia.
  rewrite Hall in Hi by lia. injection Hi as <-.
  destruct c; reflexivity.
Qed.

(** X20: A locked management engine: when the section SI_ME of the current
    firmware is not empty and holds only 0xFF, and both images have the
    section SI_DESC, [preserve_management_engine] succeeds and copies the
    flash descriptor of the current firmware into the candidate, as much
    of it as fits; the quirk that unlocks the management engine is not
    consulted, and nothing else changes. *)
Theorem locked_management_engine_keeps_descriptor `{Q : !quirk_table}
    (s : state) (me from to : firmware_section) :
  let current := image_current (st_cfg s) in
  let candidate := image (st_cfg s) in
  wf_image current -> wf_image candidate ->
  find_firmware_section current FMAP_SI_ME = Some me ->
  (0 < sec_size me)%nat ->
  (forall i, (i < sec_size me)%nat ->
     image_bytes current !! (sec_offset me + i)%nat = Some Byte.xff) ->
  find_firmware_section current FMAP_SI_DESC = Some from ->
  find_firmware_section candidate FMAP_SI_DESC = Some to ->
  let run := preserve_management_engine s in
  let m := Nat.min (sec_size from) (sec_size to) in
  run.1 = 0 /\
  bytes_only s run.2 /\
  (forall i, (i < m)%nat ->
     image_bytes (image (st_cfg run.2)) !! (sec_offset to + i)%nat =
     image_bytes current !! (sec_offset from + i)%nat) /\
  (forall j, (j < sec_offset to \/ sec_offset to + m <= j)%nat ->
     image_bytes (image (st_cfg run.2)) !! j = image_bytes candidate !! j).
Proof.
  intros current candidate Hwf_from Hwf_to Hme Hsize Hff Hfrom Hto run m.
  destruct (find_firmware_section_in_bounds _ _ _ Hwf_from Hfrom) as [Bf _].
  destruct (find_firmware_section_in_bounds _ _ _ Hwf_to Hto) as [Bt _].
  assert (Hrun : run =
            (0, with_image
                  (set_image_data candidate
                     (Mem.write_bytes (image_bytes candidate) (sec_offset to)
                        (Mem.read_bytes (image_bytes current)
                           (sec_offset from) m))) s)).
  { unfold run, preserve_management_engine. rewrite run_bind.
    cbn [get_cfg fst snd]. fold current. rewrite Hme.
    rewrite section_is_filled_with_all;
      [|exact Hsize
       |intros i Hi; cbn [section_bytes];
        rewrite MemFacts.lookup_read_bytes by exact Hi; apply Hff; exact Hi].
    unfold preserve_into_image. rewrite run_bind.
    cbn [get_cfg fst snd]. fold current candidate.
    unfold preserve_firmware_section. rewrite Hfrom, Hto.
    rewrite run_bind. reflexivity. }
  rewrite Hrun. cbn [fst snd].
  assert (Hlen : length (Mem.read_bytes (image_bytes current)
                           (sec_offset from) m) = m).
  { rewrite MemFacts.length_read_bytes. unfold image_size in Bf. lia. }
  split; [reflexivity|]. split.
  { eexists. split; [reflexivity|]. apply same_layout_set_image_data.
    - exact (find_firmware_section_data _ _ _ Hto).
    - apply MemFacts.length_write_bytes. }
  unfold with_image. cbn [st_cfg set_image image].
  rewrite image_bytes_set_image_data. split.
  - intros i Hi.
    rewrite MemFacts.lookup_write_bytes_in
      by (unfold image_size in Bt; fold candidate in Bt; lia).
    apply MemFacts.lookup_read_bytes. exact Hi.
  - intros j [Hj|Hj].
    + apply MemFacts.lookup_write_bytes_lt. exact Hj.
    + apply MemFacts.lookup_write_bytes_ge. lia.
Qed.

Lemma example_me_image_wf desc me : wf_image (example_me_image desc me).
Proof.
  intros areas [= <-].
  repeat (apply Forall_cons; split;
          [split; [vm_compute; lia|reflexivity]|]).
  apply Forall_nil. exact I.
Qed.

(** A candidate with the descriptor 02 and a current firmware with the
    descriptor 01 and a locked management engine: the candidate gets the
    descriptor 01, and its management engine section stays as it is. *)
Lemma locked_management_engine_keeps_descriptor_witness :
  let s := Board.start
             (Board.config (example_me_image Byte.x02 Byte.x00)
                (example_me_image Byte.x01 Byte.xff)
                (Board.overridden 0 65537 1 0 0) 0 0 0 None)
             Board.world0 in
  let run := preserve_management_engine (Q := Board.no_quirks) s in
  run.1 = 0 /\
  image_bytes (image (st_cfg run.2)) !! 0%nat = Some Byte.x01 /\
  image_bytes (image (st_cfg run.2)) !! 4%nat = Some Byte.x00.
Proof.
  intros s run.
  destruct (locked_management_engine_keeps_descriptor (Q := Board.no_quirks)
              s {| sec_offset := 4; sec_size := 4 |}
              {| sec_offset := 0; sec_size := 4 |}
              {| sec_offset := 0; sec_size := 4 |})
    as (Hr & _ & Hin & Hout).
  - apply example_me_image_wf.
  - apply example_me_image_wf.
  - reflexivity.
  - simpl. lia.
  - intros i Hi. simpl in Hi.
    do 4 (destruct i as [|i]; [reflexivity|]). lia.
  - reflexivity.
  - reflexivity.
  - split; [exact Hr|]. split.
    + apply (Hin 0%nat). simpl. lia.
    + apply (Hout 4%nat). right. simpl. lia.
Defined.
